(** * The grid manager of EIC0013-AEDA-Proj1 (src/gridmanager.cpp)

    A shallow embedding of [GridManager]: the registry of users and
    machines ([AddUser], [AddMachine], [RemoveUser], [RemoveMachine],
    [GetUser], [GetMachine]), the job scheduler ([AddJob], [AddJobByUser]),
    the snapshot codec ([Save], [Load]) and the generic query
    ([ApplyPredicate]), removal by pointer, the destructor and the tick
    ([Update]), followed by the properties of the specification that
    concern them and by further properties of the code.

    Conventions of the embedding.
    - [uint] (utils.h is missing) is the unsigned 32-bit integer in which
      the snapshot format stores the counters.  Its values are integers of
      [Z]; the wrap-around of [_lastUserId++] is written out with [wrap32].
    - A C++ pointer is an address of type [ptr]; [option ptr] is a pointer
      that may be [NULL] ([None]).  Users and machines live in two object
      heaps of the process; a dereference of an address that is not live is
      undefined behaviour and makes the computation fail ([None]).
    - [std::map<uint,T*>] is a [gmap Z ptr]; its iteration order (ascending
      key) is [map_items].
    - The static members [_lastUserId] and [_lastMachineId] belong to the
      process, not to a manager: they are fields of [Process].
    - The classes [User], [Machine], [Job] and [ByteBuffer] are declared in
      headers that are not part of the sources at hand.  Their member
      functions are the fields of the class [Collaborators]; every call the
      manager makes into [User::CanCreateJob], [User::CreatedJob] and
      [Machine::AddJob] is recorded in the [calls] log of the process, so
      that "is offered", "is never invoked" and "before" can be stated. *)

From Stdlib Require Import ZArith Lia.
From stdpp Require Import base option list gmap sorting.
Local Open Scope Z_scope.

(** ** Machine integers and addresses *)

Definition UINT_MAX : Z := 4294967295.

Definition is_uint (z : Z) : Prop := 0 ≤ z ≤ UINT_MAX.

(** Unsigned 32-bit arithmetic is modulo [2^32]. *)
Definition wrap32 (z : Z) : Z := z mod (UINT_MAX + 1).

Definition ptr : Type := positive.

(** ** ByteBuffer *)

(** Modelled from the spec: bytebuffer.h is missing.  The snapshot is "a
    flat binary buffer" read through a cursor; the buffer is the list of the
    bytes that are still to be read, [WriteUInt32] appends four bytes and
    [ReadUInt32] consumes four.  The byte order (little endian here) is not
    fixed by the specification and no property below depends on it. *)
Definition ByteBuffer : Type := list Z.

Definition uint32_bytes (v : Z) : list Z :=
  [wrap32 v mod 256; (wrap32 v / 256) mod 256;
   (wrap32 v / 65536) mod 256; (wrap32 v / 16777216) mod 256].

Definition WriteUInt32 (v : Z) (bb : ByteBuffer) : ByteBuffer :=
  bb ++ uint32_bytes v.

Definition ReadUInt32 (bb : ByteBuffer) : option (Z * ByteBuffer) :=
  match bb with
  | b0 :: b1 :: b2 :: b3 :: rest =>
      Some (b0 mod 256 + 256 * (b1 mod 256) + 65536 * (b2 mod 256)
            + 16777216 * (b3 mod 256), rest)
  | _ => None
  end.

(** ** The collaborating classes *)

(** Modelled from the spec: user.h, machine.h and job.h are missing.  The
    "collaborator contracts consumed by the core" are taken as an interface.
    A [Job] pointer is only passed around by the manager, so a job is its
    address.  The capacity attributes of a machine are read as integers.
    [CanCreateJob] is a query, the other member functions return the object
    as they leave it. *)
Class Collaborators := {
  User : Type;
  Machine : Type;
  User_GetId : User → Z;
  User_SetId : Z → User → User;
  User_CanCreateJob : ptr → User → bool;
  User_CreatedJob : ptr → User → User;
  User_Save : User → list Z;
  User_Load : ByteBuffer → option (User * ByteBuffer);
  Machine_GetId : Machine → Z;
  Machine_SetId : Z → Machine → Machine;
  Machine_GetMaxJobs : Machine → Z;
  Machine_GetCurrentJobs : Machine → Z;
  Machine_GetAvailableDiskSpace : Machine → Z;
  Machine_GetAvailableRAM : Machine → Z;
  Machine_GetJobs : Machine → list (Z * ptr);
  Machine_AddJob : ptr → Machine → bool * Machine;
  Machine_Save : Machine → list Z;
  Machine_Load : ByteBuffer → option (Machine * ByteBuffer)
}.

(** A call of the manager into a collaborator. *)
Inductive Call : Type :=
  | CallCanCreateJob (user job : ptr)
  | CallCreatedJob (user job : ptr)
  | CallMachineAddJob (machine job : ptr).

Global Instance Call_eq_dec : EqDecision Call.
Proof. solve_decision. Defined.

(** ** std::map and std::list *)

Definition key_le {V : Type} : relation (Z * V) := λ a b, a.1 ≤ b.1.

Global Instance key_le_dec {V : Type} (a b : Z * V) : Decision (key_le a b).
Proof. unfold key_le. apply _. Defined.

(** The entries of a [std::map<uint,V>] in iteration order: ascending key. *)
Definition map_items {V : Type} (m : gmap Z V) : list (Z * V) :=
  merge_sort key_le (map_to_list m).

(** [std::list::sort(comp)]: the C++ standard requires a stable sort, the
    order of equivalent elements is preserved.  [sort_insert comp x l] puts
    [x], which stood before every element of [l], in front of the first
    element that does not go strictly before it. *)
Fixpoint sort_insert {A : Type} (comp : A → A → bool) (x : A) (l : list A)
  : list A :=
  match l with
  | [] => [x]
  | y :: l' => if comp y x then y :: sort_insert comp x l' else x :: y :: l'
  end.

Fixpoint list_sort {A : Type} (comp : A → A → bool) (l : list A) : list A :=
  match l with
  | [] => []
  | x :: l' => sort_insert comp x (list_sort comp l')
  end.

Definition key_lt {V : Type} : relation (Z * V) := λ a b, a.1 < b.1.

(** The order that a stable sort by descending score produces: a higher
    score first and, among equal scores, the order [before] of the input. *)
Definition ranks_before {A : Type} (f : A → Z) (before : relation A)
  : relation A :=
  λ a b, f a > f b ∨ (f a = f b ∧ before a b).

Section GridManager.
Context `{Collaborators}.

(** ** Process state and the state-and-failure monad *)

Record Process := {
  _lastUserId : Z;
  _lastMachineId : Z;
  user_heap : gmap ptr User;
  machine_heap : gmap ptr Machine;
  calls : list Call
}.

Record GridManager := {
  _users : gmap Z ptr;
  _machines : gmap Z ptr
}.

Definition set_lastUserId (v : Z) (σ : Process) : Process :=
  {| _lastUserId := v; _lastMachineId := _lastMachineId σ;
     user_heap := user_heap σ; machine_heap := machine_heap σ;
     calls := calls σ |}.

Definition set_lastMachineId (v : Z) (σ : Process) : Process :=
  {| _lastUserId := _lastUserId σ; _lastMachineId := v;
     user_heap := user_heap σ; machine_heap := machine_heap σ;
     calls := calls σ |}.

Definition set_user_heap (h : gmap ptr User) (σ : Process) : Process :=
  {| _lastUserId := _lastUserId σ; _lastMachineId := _lastMachineId σ;
     user_heap := h; machine_heap := machine_heap σ; calls := calls σ |}.

Definition set_machine_heap (h : gmap ptr Machine) (σ : Process) : Process :=
  {| _lastUserId := _lastUserId σ; _lastMachineId := _lastMachineId σ;
     user_heap := user_heap σ; machine_heap := h; calls := calls σ |}.

Definition log_call (c : Call) (σ : Process) : Process :=
  {| _lastUserId := _lastUserId σ; _lastMachineId := _lastMachineId σ;
     user_heap := user_heap σ; machine_heap := machine_heap σ;
     calls := calls σ ++ [c] |}.

Definition set_users (m : gmap Z ptr) (this : GridManager) : GridManager :=
  {| _users := m; _machines := _machines this |}.

Definition set_machines (m : gmap Z ptr) (this : GridManager) : GridManager :=
  {| _users := _users this; _machines := m |}.

(** A computation reads and writes the process state and may fail; failure
    stands for undefined behaviour. *)
Definition M (A : Type) : Type := Process → option (A * Process).

Global Instance M_ret : MRet M := λ A a σ, Some (a, σ).

Global Instance M_bind : MBind M := λ A B f m σ,
  match m σ with
  | Some (a, σ') => f a σ'
  | None => None
  end.

Definition get_process : M Process := λ σ, Some (σ, σ).

Definition modify (f : Process → Process) : M unit := λ σ, Some ((), f σ).

Definition lift {A : Type} (o : option A) : M A :=
  λ σ, match o with Some a => Some (a, σ) | None => None end.

Definition deref_user (p : ptr) : M User :=
  σ ← get_process; lift (user_heap σ !! p).

Definition deref_machine (p : ptr) : M Machine :=
  σ ← get_process; lift (machine_heap σ !! p).

Definition store_user (p : ptr) (u : User) : M unit :=
  modify (λ σ, set_user_heap (<[p := u]> (user_heap σ)) σ).

Definition store_machine (p : ptr) (m : Machine) : M unit :=
  modify (λ σ, set_machine_heap (<[p := m]> (machine_heap σ)) σ).

(** [new User(...)]: a live object at an address that was not live. *)
Definition new_user (u : User) : M ptr :=
  σ ← get_process;
  let p := fresh (dom (user_heap σ)) in
  store_user p u;; mret p.

Definition new_machine (m : Machine) : M ptr :=
  σ ← get_process;
  let p := fresh (dom (machine_heap σ)) in
  store_machine p m;; mret p.

(** [delete p]: the object must be live. *)
Definition delete_user (p : ptr) : M unit :=
  _ ← deref_user p;
  modify (λ σ, set_user_heap (delete p (user_heap σ)) σ).

Definition delete_machine (p : ptr) : M unit :=
  _ ← deref_machine p;
  modify (λ σ, set_machine_heap (delete p (machine_heap σ)) σ).

(** ** Entity registry *)

(** [uint GridManager::AddUser(User *user)] *)
Definition AddUser (user : option ptr) (this : GridManager)
  : M (Z * GridManager) :=
  match user with
  | None => mret (0, this)
  | Some p =>
      u ← deref_user p;
      if decide (User_GetId u ≠ 0) then
        mret (User_GetId u, set_users (<[User_GetId u := p]> (_users this)) this)
      else
        σ ← get_process;
        let id := wrap32 (_lastUserId σ + 1) in
        modify (set_lastUserId id);;
        store_user p (User_SetId id u);;
        mret (id, set_users (<[id := p]> (_users this)) this)
  end.

(** [uint GridManager::AddMachine(Machine *machine)] *)
Definition AddMachine (machine : option ptr) (this : GridManager)
  : M (Z * GridManager) :=
  match machine with
  | None => mret (0, this)
  | Some p =>
      m ← deref_machine p;
      if decide (Machine_GetId m ≠ 0) then
        mret (Machine_GetId m,
              set_machines (<[Machine_GetId m := p]> (_machines this)) this)
      else
        σ ← get_process;
        let id := wrap32 (_lastMachineId σ + 1) in
        modify (set_lastMachineId id);;
        store_machine p (Machine_SetId id m);;
        mret (id, set_machines (<[id := p]> (_machines this)) this)
  end.

(** [bool GridManager::RemoveUser(uint id)] *)
Definition RemoveUser (id : Z) (this : GridManager) : M (bool * GridManager) :=
  match _users this !! id with
  | None => mret (false, this)
  | Some p =>
      delete_user p;;
      mret (true, set_users (delete id (_users this)) this)
  end.

(** [bool GridManager::RemoveMachine(uint id)] *)
Definition RemoveMachine (id : Z) (this : GridManager)
  : M (bool * GridManager) :=
  match _machines this !! id with
  | None => mret (false, this)
  | Some p =>
      delete_machine p;;
      mret (true, set_machines (delete id (_machines this)) this)
  end.

(** [User *GridManager::GetUser(uint id) const] *)
Definition GetUser (id : Z) (this : GridManager) : option ptr :=
  _users this !! id.

(** [Machine *GridManager::GetMachine(uint id) const] *)
Definition GetMachine (id : Z) (this : GridManager) : option ptr :=
  _machines this !! id.

(** ** Job scheduler *)

(** The score of the comparison in [AddJob]. *)
Definition score (m : Machine) : Z :=
  (Machine_GetMaxJobs m - Machine_GetCurrentJobs m)
  + Machine_GetAvailableDiskSpace m + Machine_GetAvailableRAM m.

(** The comparison handed to [machineList.sort]: [score1 > score2], both
    machines being read through their pointers. *)
Definition better (h : gmap ptr Machine) (m1 m2 : ptr) : bool :=
  match h !! m1, h !! m2 with
  | Some a, Some b => bool_decide (score a > score b)
  | _, _ => false
  end.

(** The call [AddJob(job)] on the machine under the iterator. *)
Definition call_Machine_AddJob (machine job : ptr) : M bool :=
  m ← deref_machine machine;
  modify (log_call (CallMachineAddJob machine job));;
  store_machine machine (Machine_AddJob job m).2;;
  mret (Machine_AddJob job m).1.

(** The loop over the sorted list; the log line of the accepting branch is
    a diagnostic and is left out. *)
Fixpoint offer (job : ptr) (machineList : list ptr) : M bool :=
  match machineList with
  | [] => mret false
  | it :: rest =>
      accepted ← call_Machine_AddJob it job;
      if accepted : bool then mret true else offer job rest
  end.

Definition all_live (h : gmap ptr Machine) (l : list ptr) : bool :=
  forallb (λ p, bool_decide (is_Some (h !! p))) l.

(** [bool GridManager::AddJob(Job *job)].  The comparisons of the sort read
    every machine of a list of two or more, and the loop reads the machine
    of a list of one, so a registered pointer that is not live is undefined
    behaviour in every case: the guard [all_live]. *)
Definition AddJob (job : option ptr) (this : GridManager) : M bool :=
  match job with
  | None => mret false
  | Some j =>
      let machineList := (map_items (_machines this)).*2 in
      σ ← get_process;
      if all_live (machine_heap σ) machineList then
        offer j (list_sort (better (machine_heap σ)) machineList)
      else lift None
  end.

(** [user->CanCreateJob(job)] *)
Definition call_CanCreateJob (user job : ptr) : M bool :=
  u ← deref_user user;
  modify (log_call (CallCanCreateJob user job));;
  mret (User_CanCreateJob job u).

(** [user->CreatedJob(job)] *)
Definition call_CreatedJob (user job : ptr) : M unit :=
  u ← deref_user user;
  modify (log_call (CallCreatedJob user job));;
  store_user user (User_CreatedJob job u).

(** [bool GridManager::AddJobByUser(User *user, Job *job)] *)
Definition AddJobByUser (user job : option ptr) (this : GridManager) : M bool :=
  match user with
  | None => mret false
  | Some u =>
      match job with
      | None => mret false
      | Some j =>
          allowed ← call_CanCreateJob u j;
          if negb allowed then mret false
          else
            placed ← AddJob (Some j) this;
            if negb placed then mret false
            else call_CreatedJob u j;; mret true
      end
  end.

(** ** Query engine *)

(** The template argument of [ApplyPredicate<T>]: one of the three kinds
    that have a specialization, or any other type. *)
Inductive EntityKind : Type := KindJob | KindUser | KindMachine | KindOther.

(** The matches of a predicate (a [std::function] from a pointer to
    [bool]) among a list of pointers, in the order of the list. *)
Fixpoint select (predicate : ptr → M bool) (l : list ptr) : M (list ptr) :=
  match l with
  | [] => mret []
  | p :: l' =>
      b ← predicate p;
      result ← select predicate l';
      mret (if b : bool then p :: result else result)
  end.

Fixpoint select_jobs (predicate : ptr → M bool) (machines : list ptr)
  : M (list ptr) :=
  match machines with
  | [] => mret []
  | p :: l' =>
      m ← deref_machine p;
      here ← select predicate (Machine_GetJobs m).*2;
      result ← select_jobs predicate l';
      mret (here ++ result)
  end.

(** [GridManager::ApplyPredicate<T>(predicate) const]: the
    primary template and its three specializations. *)
Definition ApplyPredicate (T : EntityKind) (predicate : ptr → M bool)
    (this : GridManager) : M (list ptr) :=
  match T with
  | KindJob => select_jobs predicate (map_items (_machines this)).*2
  | KindUser => select predicate (map_items (_users this)).*2
  | KindMachine => select predicate (map_items (_machines this)).*2
  | KindOther => mret []
  end.

(** ** Persistence codec *)

Fixpoint save_users (l : list ptr) (bb : ByteBuffer) : M ByteBuffer :=
  match l with
  | [] => mret bb
  | p :: l' => u ← deref_user p; save_users l' (bb ++ User_Save u)
  end.

Fixpoint save_machines (l : list ptr) (bb : ByteBuffer) : M ByteBuffer :=
  match l with
  | [] => mret bb
  | p :: l' => m ← deref_machine p; save_machines l' (bb ++ Machine_Save m)
  end.

(** [bool GridManager::Save(ByteBuffer& bb) const] *)
Definition Save (bb : ByteBuffer) (this : GridManager) : M (bool * ByteBuffer) :=
  σ ← get_process;
  let bb := WriteUInt32 (_lastUserId σ) bb in
  let bb := WriteUInt32 (_lastMachineId σ) bb in
  let bb := WriteUInt32 (Z.of_nat (size (_users this))) bb in
  bb ← save_users (map_items (_users this)).*2 bb;
  let bb := WriteUInt32 (Z.of_nat (size (_machines this))) bb in
  bb ← save_machines (map_items (_machines this)).*2 bb;
  mret (true, bb).

(** [gm->AddUser(User::Load(bb))], [usersCount] times. *)
Fixpoint load_users (usersCount : nat) (gm : GridManager) (bb : ByteBuffer)
  : M (GridManager * ByteBuffer) :=
  match usersCount with
  | O => mret (gm, bb)
  | S n =>
      '(u, bb) ← lift (User_Load bb);
      p ← new_user u;
      '(_, gm) ← AddUser (Some p) gm;
      load_users n gm bb
  end.

Fixpoint load_machines (machinesCount : nat) (gm : GridManager)
    (bb : ByteBuffer) : M (GridManager * ByteBuffer) :=
  match machinesCount with
  | O => mret (gm, bb)
  | S n =>
      '(m, bb) ← lift (Machine_Load bb);
      p ← new_machine m;
      '(_, gm) ← AddMachine (Some p) gm;
      load_machines n gm bb
  end.

(** [GridManager *GridManager::Load(ByteBuffer& bb)]: the new manager and
    what is left of the buffer. *)
Definition Load (bb : ByteBuffer) : M (GridManager * ByteBuffer) :=
  let gm := {| _users := ∅; _machines := ∅ |} in
  '(v, bb) ← lift (ReadUInt32 bb);
  modify (set_lastUserId v);;
  '(v, bb) ← lift (ReadUInt32 bb);
  modify (set_lastMachineId v);;
  '(usersCount, bb) ← lift (ReadUInt32 bb);
  '(gm, bb) ← load_users (Z.to_nat usersCount) gm bb;
  '(machinesCount, bb) ← lift (ReadUInt32 bb);
  '(gm, bb) ← load_machines (Z.to_nat machinesCount) gm bb;
  mret (gm, bb).

End GridManager.

Arguments Process {_}.
Arguments M {_} _.

(** ** Sequences of operations *)

Section Sequences.
Context `{Collaborators}.

(** [AddUser] on each pointer of a list in turn; the ids that were returned. *)
Fixpoint AddUsers (users : list ptr) (this : GridManager)
  : M (list Z * GridManager) :=
  match users with
  | [] => mret ([], this)
  | p :: rest =>
      '(id, this) ← AddUser (Some p) this;
      '(ids, this) ← AddUsers rest this;
      mret (id :: ids, this)
  end.

Fixpoint AddMachines (machines : list ptr) (this : GridManager)
  : M (list Z * GridManager) :=
  match machines with
  | [] => mret ([], this)
  | p :: rest =>
      '(id, this) ← AddMachine (Some p) this;
      '(ids, this) ← AddMachines rest this;
      mret (id :: ids, this)
  end.

(** The operations of the registry. *)
Inductive RegistryOp : Type :=
  | OpAddUser (user : option ptr)
  | OpAddMachine (machine : option ptr)
  | OpRemoveUser (id : Z)
  | OpRemoveMachine (id : Z)
  | OpLoad (bb : ByteBuffer).

(** The manager after an operation; [Load] yields a new manager. *)
Definition run_op (op : RegistryOp) (this : GridManager) : M GridManager :=
  match op with
  | OpAddUser user => '(_, gm) ← AddUser user this; mret gm
  | OpAddMachine machine => '(_, gm) ← AddMachine machine this; mret gm
  | OpRemoveUser id => '(_, gm) ← RemoveUser id this; mret gm
  | OpRemoveMachine id => '(_, gm) ← RemoveMachine id this; mret gm
  | OpLoad bb => '(gm, _) ← Load bb; mret gm
  end.

End Sequences.

(** ** Vocabulary of the properties *)

Section Vocabulary.
Context `{Collaborators}.

Implicit Types (σ : Process) (this gm : GridManager) (p q job : ptr).

(** The calls [AddJob(job)] on the machines of a list, in its order. *)
Definition offers (job : ptr) (l : list ptr) : list Call :=
  (λ p, CallMachineAddJob p job) <$> l.

(** The score of the machine behind a pointer. *)
Definition score_at (h : gmap ptr Machine) (p : ptr) : Z :=
  from_option score 0 (h !! p).

(** Every machine registered with the manager is a live object. *)
Definition machines_live σ this : Prop :=
  all_live (machine_heap σ) (map_items (_machines this)).*2 = true.

(** The machine behind a pointer accepts the job when it is offered. *)
Definition accepts (job : ptr) (h : gmap ptr Machine) (p : ptr) : bool :=
  match h !! p with
  | Some m => (Machine_AddJob job m).1
  | None => false
  end.

(** The machines after the job was offered to the machines of a list, one
    after the other: every call [Machine::AddJob] leaves its machine as the
    call returns it, whether it accepts or not. *)
Fixpoint after_offers (job : ptr) (h : gmap ptr Machine) (l : list ptr)
  : gmap ptr Machine :=
  match l with
  | [] => h
  | p :: l' =>
      after_offers job
        (match h !! p with
         | Some m => <[p := (Machine_AddJob job m).2]> h
         | None => h
         end) l'
  end.

(** The machine behind a pointer has the job among its jobs. *)
Definition holds (job : ptr) (h : gmap ptr Machine) (p : ptr) : Prop :=
  ∃ m, h !! p = Some m ∧ job ∈ (Machine_GetJobs m).*2.

(** A live user whose id is still 0. *)
Definition is_fresh_user σ p : Prop :=
  ∃ u, user_heap σ !! p = Some u ∧ User_GetId u = 0.

Definition is_fresh_machine σ p : Prop :=
  ∃ m, machine_heap σ !! p = Some m ∧ Machine_GetId m = 0.

(** A run of [AddUser] calls with zero-id users, and the ids they return in
    order.  Each call is made on any manager; before a call the process may
    have changed in any way that leaves the user counter alone (other
    operations, but no [Load] and no other zero-id registration). *)
Inductive fresh_user_adds : Process → list Z → Process → Prop :=
  | fresh_user_adds_nil σ : fresh_user_adds σ [] σ
  | fresh_user_adds_cons σ σ1 σ2 σ3 this this' p id ids :
      _lastUserId σ1 = _lastUserId σ →
      is_fresh_user σ1 p →
      AddUser (Some p) this σ1 = Some ((id, this'), σ2) →
      fresh_user_adds σ2 ids σ3 →
      fresh_user_adds σ (id :: ids) σ3.

Inductive fresh_machine_adds : Process → list Z → Process → Prop :=
  | fresh_machine_adds_nil σ : fresh_machine_adds σ [] σ
  | fresh_machine_adds_cons σ σ1 σ2 σ3 this this' p id ids :
      _lastMachineId σ1 = _lastMachineId σ →
      is_fresh_machine σ1 p →
      AddMachine (Some p) this σ1 = Some ((id, this'), σ2) →
      fresh_machine_adds σ2 ids σ3 →
      fresh_machine_adds σ (id :: ids) σ3.

(** The record of a user can be read back, with its id. *)
Definition user_codec_ok (u : User) : Prop :=
  ∀ rest, ∃ u',
    User_Load (User_Save u ++ rest) = Some (u', rest)
    ∧ User_GetId u' = User_GetId u.

Definition machine_codec_ok (m : Machine) : Prop :=
  ∀ rest, ∃ m',
    Machine_Load (Machine_Save m ++ rest) = Some (m', rest)
    ∧ Machine_GetId m' = Machine_GetId m.

(** An entry of the user map: the pointer is live, the user carries the id
    under which it is registered, the id is a nonzero [uint], and the
    record of the user can be read back. *)
Definition user_entry_ok σ (kp : Z * ptr) : Prop :=
  ∃ u, user_heap σ !! kp.2 = Some u ∧ User_GetId u = kp.1
       ∧ 0 < kp.1 ≤ UINT_MAX ∧ user_codec_ok u.

Definition machine_entry_ok σ (kp : Z * ptr) : Prop :=
  ∃ m, machine_heap σ !! kp.2 = Some m ∧ Machine_GetId m = kp.1
       ∧ 0 < kp.1 ≤ UINT_MAX ∧ machine_codec_ok m.

Definition well_formed σ this : Prop :=
  Forall (user_entry_ok σ) (map_items (_users this))
  ∧ Forall (machine_entry_ok σ) (map_items (_machines this))
  ∧ is_uint (_lastUserId σ) ∧ is_uint (_lastMachineId σ).

(** The snapshot format: the two counters, the number of users and their
    records, the number of machines and their records. *)
Definition snapshot (lastUser lastMachine : Z) (us : list User)
    (ms : list Machine) : ByteBuffer :=
  uint32_bytes lastUser ++ uint32_bytes lastMachine
  ++ uint32_bytes (Z.of_nat (length us)) ++ mjoin (User_Save <$> us)
  ++ uint32_bytes (Z.of_nat (length ms)) ++ mjoin (Machine_Save <$> ms).

(** Both counters are at least every id of their collection. *)
Definition counters_bound σ this : Prop :=
  (∀ k, k ∈ dom (_users this) → k ≤ _lastUserId σ)
  ∧ (∀ k, k ∈ dom (_machines this) → k ≤ _lastMachineId σ).

(** The operations that keep the counters ahead of the ids: a registration
    of a zero-id entity while the counter is below [UINT_MAX], a
    registration under a preset id that is not above the counter, a
    removal, and [Load] of what was saved from a well-formed manager whose
    counters were ahead of its ids. *)
Definition keeps_counters_ahead σ (op : RegistryOp) : Prop :=
  match op with
  | OpAddUser (Some p) =>
      ∀ u, user_heap σ !! p = Some u →
           if decide (User_GetId u = 0) then _lastUserId σ < UINT_MAX
           else User_GetId u ≤ _lastUserId σ
  | OpAddMachine (Some p) =>
      ∀ m, machine_heap σ !! p = Some m →
           if decide (Machine_GetId m = 0) then _lastMachineId σ < UINT_MAX
           else Machine_GetId m ≤ _lastMachineId σ
  | OpLoad bb =>
      ∃ gm0 σ0 saved rest,
        well_formed σ0 gm0 ∧ counters_bound σ0 gm0
        ∧ Save [] gm0 σ0 = Some ((true, saved), σ0)
        ∧ bb = saved ++ rest
  | _ => True
  end.

End Vocabulary.

(** ** A concrete set of collaborators

    An instance of the interface, to run the manager on concrete inputs: a
    user with a budget that allows a job while it is positive and pays one
    unit for a job that was placed; a machine that accepts a job while it
    has a free job slot. *)

Record SampleUser := {
  su_id : Z;
  su_budget : Z
}.

Record SampleMachine := {
  sm_id : Z;
  sm_maxJobs : Z;
  sm_disk : Z;
  sm_ram : Z;
  sm_jobs : list (Z * ptr)
}.

Definition sample_user_load (bb : ByteBuffer) : option (SampleUser * ByteBuffer) :=
  match ReadUInt32 bb with
  | Some (i, bb1) =>
      match ReadUInt32 bb1 with
      | Some (b, bb2) => Some ({| su_id := i; su_budget := b |}, bb2)
      | None => None
      end
  | None => None
  end.

Definition sample_machine_add_job (job : ptr) (m : SampleMachine)
  : bool * SampleMachine :=
  if bool_decide (Z.of_nat (length (sm_jobs m)) < sm_maxJobs m) then
    (true, {| sm_id := sm_id m; sm_maxJobs := sm_maxJobs m;
              sm_disk := sm_disk m; sm_ram := sm_ram m;
              sm_jobs := sm_jobs m ++ [(Z.of_nat (length (sm_jobs m)), job)] |})
  else (false, m).

Definition sample_machine_load (bb : ByteBuffer)
  : option (SampleMachine * ByteBuffer) :=
  match ReadUInt32 bb with
  | Some (i, bb1) =>
      match ReadUInt32 bb1 with
      | Some (j, bb2) =>
          match ReadUInt32 bb2 with
          | Some (d, bb3) =>
              match ReadUInt32 bb3 with
              | Some (r, bb4) =>
                  Some ({| sm_id := i; sm_maxJobs := j; sm_disk := d;
                           sm_ram := r; sm_jobs := [] |}, bb4)
              | None => None
              end
          | None => None
          end
      | None => None
      end
  | None => None
  end.

Definition sample : Collaborators := {|
  User := SampleUser;
  Machine := SampleMachine;
  User_GetId := su_id;
  User_SetId := λ i u, {| su_id := i; su_budget := su_budget u |};
  User_CanCreateJob := λ _ u, bool_decide (0 < su_budget u);
  User_CreatedJob := λ _ u, {| su_id := su_id u; su_budget := su_budget u - 1 |};
  User_Save := λ u, uint32_bytes (su_id u) ++ uint32_bytes (su_budget u);
  User_Load := sample_user_load;
  Machine_GetId := sm_id;
  Machine_SetId := λ i m, {| sm_id := i; sm_maxJobs := sm_maxJobs m;
                             sm_disk := sm_disk m; sm_ram := sm_ram m;
                             sm_jobs := sm_jobs m |};
  Machine_GetMaxJobs := sm_maxJobs;
  Machine_GetCurrentJobs := λ m, Z.of_nat (length (sm_jobs m));
  Machine_GetAvailableDiskSpace := sm_disk;
  Machine_GetAvailableRAM := sm_ram;
  Machine_GetJobs := sm_jobs;
  Machine_AddJob := sample_machine_add_job;
  Machine_Save := λ m, uint32_bytes (sm_id m) ++ uint32_bytes (sm_maxJobs m)
                       ++ uint32_bytes (sm_disk m) ++ uint32_bytes (sm_ram m);
  Machine_Load := sample_machine_load
|}.

Definition sample_user (i b : Z) : SampleUser := {| su_id := i; su_budget := b |}.

Definition sample_machine (i jobs disk ram : Z) : SampleMachine :=
  {| sm_id := i; sm_maxJobs := jobs; sm_disk := disk; sm_ram := ram;
     sm_jobs := [] |}.

(** A process of the sample collaborators: the two counters, the users and
    the machines that are live (at addresses 1, 2, ...), no call made yet. *)
Definition sample_process (lastUser lastMachine : Z) (users : list SampleUser)
    (machines : list SampleMachine) : @Process sample :=
  {| _lastUserId := lastUser; _lastMachineId := lastMachine;
     user_heap := list_to_map (zip (Pos.of_nat <$> seq 1 (length users)) users);
     machine_heap :=
       list_to_map (zip (Pos.of_nat <$> seq 1 (length machines)) machines);
     calls := [] |}.

Definition empty_manager : GridManager :=
  {| _users := ∅; _machines := ∅ |}.

(** A manager with the given entries (id, address). *)
Definition sample_manager (users machines : list (Z * ptr)) : GridManager :=
  {| _users := list_to_map users; _machines := list_to_map machines |}.

(** Three machines of score 10, 10 and 5 that have no job slot, not yet
    registered. *)
Definition three_machines : @Process sample :=
  sample_process 0 0 []
    [sample_machine 0 0 4 6; sample_machine 0 0 3 7; sample_machine 0 0 2 3].

(** Three registered machines of score 10, 10 and 5: the first has no job
    slot, the other two have one; a registered user with a budget of 2; two
    users and a machine that are not registered yet. *)
Definition grid_process : @Process sample :=
  sample_process 1 3 [sample_user 1 2; sample_user 0 4; sample_user 0 0]
    [sample_machine 1 0 4 6; sample_machine 2 1 4 5; sample_machine 3 1 2 2;
     sample_machine 0 2 1 1].

(** Both counters one step before the largest [uint]. *)
Definition late_process : @Process sample :=
  sample_process 4294967294 4294967294 [sample_user 0 5; sample_user 0 3] [].

(** Two users and two machines that carry the id 1; the first user and the
    first machine are registered under it. *)
Definition clash_process : @Process sample :=
  sample_process 1 1 [sample_user 1 2; sample_user 1 9]
    [sample_machine 1 1 1 1; sample_machine 1 2 2 2].

Definition clash_manager : GridManager :=
  sample_manager [(1, 1%positive)] [(1, 1%positive)].

(** A live user that carries the id 7 and is not registered. *)
Definition restored_user_process : @Process sample :=
  sample_process 0 0 [sample_user 7 1] [].

Definition grid : GridManager :=
  sample_manager [(1, 1%positive)]
    [(1, 1%positive); (2, 2%positive); (3, 3%positive)].

(** ** The rest of the manager

    The remaining functions of gridmanager.cpp: removal by pointer, the
    destructor and the tick [Update].  The loop [Run] reads the clock and
    sleeps between two calls of [Update]; it is not embedded. *)

(** [std::find_if]: the first element that satisfies the predicate. *)
Fixpoint find_if {A : Type} (pred : A → bool) (l : list A) : option A :=
  match l with
  | [] => None
  | x :: l' => if pred x then Some x else find_if pred l'
  end.

(** Modelled from the spec: machine.h is missing.  [Machine::Update(diff)]
    "progresses accepted jobs on each tick"; it is taken as a function of
    the elapsed time and of the machine. *)
Class MachineTick `{Collaborators} := Machine_Update : Z → Machine → Machine.

Section RestOfManager.
Context `{Collaborators}.

(** [bool GridManager::RemoveUser(const User *user)]: the entry is sought
    by pointer equality, in iteration order. *)
Definition RemoveUser_by_pointer (user : option ptr) (this : GridManager)
  : M (bool * GridManager) :=
  match find_if (λ usr, bool_decide (Some usr.2 = user))
          (map_items (_users this)) with
  | None => mret (false, this)
  | Some it =>
      delete_user it.2;;
      mret (true, set_users (delete it.1 (_users this)) this)
  end.

(** [bool GridManager::RemoveMachine(const Machine *machine)] *)
Definition RemoveMachine_by_pointer (machine : option ptr) (this : GridManager)
  : M (bool * GridManager) :=
  match find_if (λ mach, bool_decide (Some mach.2 = machine))
          (map_items (_machines this)) with
  | None => mret (false, this)
  | Some it =>
      delete_machine it.2;;
      mret (true, set_machines (delete it.1 (_machines this)) this)
  end.

Fixpoint delete_users (l : list ptr) : M unit :=
  match l with
  | [] => mret ()
  | p :: l' => delete_user p;; delete_users l'
  end.

Fixpoint delete_machines (l : list ptr) : M unit :=
  match l with
  | [] => mret ()
  | p :: l' => delete_machine p;; delete_machines l'
  end.

(** [GridManager::~GridManager()]: every user, then every machine, is
    deleted, in iteration order. *)
Definition GridManager_destructor (this : GridManager) : M unit :=
  delete_users (map_items (_users this)).*2;;
  delete_machines (map_items (_machines this)).*2.

Context `{!MachineTick}.

Fixpoint update_machines (diff : Z) (l : list ptr) : M unit :=
  match l with
  | [] => mret ()
  | p :: l' =>
      m ← deref_machine p;
      store_machine p (Machine_Update diff m);;
      update_machines diff l'
  end.

(** [void GridManager::Update(uint32 diff)] *)
Definition Update (diff : Z) (this : GridManager) : M unit :=
  update_machines diff (map_items (_machines this)).*2.

End RestOfManager.

Section MoreVocabulary.
Context `{Collaborators}.

Implicit Types (σ : Process) (this gm : GridManager) (p q job : ptr).

(** A predicate that reads the process and does not change it. *)
Definition read_only (f : Process → ptr → bool) : ptr → M bool :=
  λ p σ, Some (f σ p, σ).

(** The jobs of the machine behind a pointer, in the order of their ids. *)
Definition jobs_at (h : gmap ptr Machine) (p : ptr) : list ptr :=
  from_option (λ m, (Machine_GetJobs m).*2) [] (h !! p).

(** Every user registered with the manager is a live object. *)
Definition users_live σ this : Prop :=
  Forall (λ p, is_Some (user_heap σ !! p)) (map_items (_users this)).*2.

(** A registry owns its objects in a heap: every registered pointer is
    live there and no pointer is registered under two ids. *)
Definition owned {V : Type} (heap : gmap ptr V) (reg : gmap Z ptr) : Prop :=
  (∀ k p, reg !! k = Some p → is_Some (heap !! p))
  ∧ (∀ k1 k2 p, reg !! k1 = Some p → reg !! k2 = Some p → k1 = k2).

End MoreVocabulary.

(** The tick of the sample machines: the free memory grows by the elapsed
    time. *)
Definition sample_tick : @MachineTick sample :=
  λ diff m, {| sm_id := sm_id m; sm_maxJobs := sm_maxJobs m;
               sm_disk := sm_disk m; sm_ram := sm_ram m + diff;
               sm_jobs := sm_jobs m |}.

(** A user of id 5 and a machine of id 5 registered with two managers. *)
Definition shared_process : @Process sample :=
  sample_process 5 5 [sample_user 5 1] [sample_machine 5 1 1 1].

Definition sharing_manager : GridManager :=
  sample_manager [(5, 1%positive)] [(5, 1%positive)].

(** The grid after one job was placed on its second machine. *)
Definition busy_process : @Process sample :=
  {| _lastUserId := 1; _lastMachineId := 3;
     user_heap := user_heap grid_process;
     machine_heap :=
       <[2%positive := {| sm_id := 2; sm_maxJobs := 1; sm_disk := 4;
                          sm_ram := 5; sm_jobs := [(0, 9%positive)] |}]>
         (<[3%positive := {| sm_id := 3; sm_maxJobs := 1; sm_disk := 2;
                             sm_ram := 2; sm_jobs := [(0, 8%positive)] |}]>
            (machine_heap grid_process));
     calls := [] |}.

(** * Properties *)

(** ** The stable sort *)

Section ListSort.
Context {A : Type}.
Implicit Types (comp : A → A → bool) (l : list A).

Lemma sort_insert_perm comp x l : sort_insert comp x l ≡ₚ x :: l.
Proof.
  induction l as [|y l IH]; simpl; [done|].
  destruct (comp y x); [|done].
  rewrite IH. apply Permutation_swap.
Qed.

Lemma list_sort_perm comp l : list_sort comp l ≡ₚ l.
Proof.
  induction l as [|x l IH]; simpl; [done|].
  by rewrite sort_insert_perm, IH.
Qed.

Lemma sort_insert_ext comp comp' x l :
  (∀ y, y ∈ l → comp y x = comp' y x) →
  sort_insert comp x l = sort_insert comp' x l.
Proof.
  induction l as [|y l IH]; simpl; intros Hc; [done|].
  rewrite <- (Hc y) by left. rewrite IH; [done|].
  intros z Hz. apply Hc. by right.
Qed.

(** Only comparisons between elements of the list matter. *)
Lemma list_sort_ext comp comp' l :
  (∀ x y, x ∈ l → y ∈ l → comp x y = comp' x y) →
  list_sort comp l = list_sort comp' l.
Proof.
  induction l as [|x l IH]; simpl; intros Hc; [done|].
  rewrite <- IH by (intros; apply Hc; by right).
  apply sort_insert_ext. intros y Hy. apply Hc; [|by left].
  right. by rewrite <- (list_sort_perm comp l).
Qed.

Lemma sort_insert_ranked (f : A → Z) (before : relation A) x l :
  StronglySorted (ranks_before f before) l →
  Forall (before x) l →
  StronglySorted (ranks_before f before)
    (sort_insert (λ a b, bool_decide (f a > f b)) x l).
Proof.
  induction l as [|y l IH]; simpl; intros Hs Hx.
  { repeat constructor. }
  apply StronglySorted_inv in Hs as [Hs Hy].
  apply Forall_cons in Hx as [Hxy Hx].
  case_bool_decide as Hc.
  - constructor; [by apply IH|].
    rewrite sort_insert_perm. constructor; [by left|done].
  - assert (∀ z : A, f z ≤ f y → before x z → ranks_before f before x z) as Hr.
    { intros z Hz Hb. unfold ranks_before.
      destruct (decide (f x = f z)); [by right|left; lia]. }
    constructor; [by constructor|].
    constructor; [apply Hr; [lia|done]|].
    rewrite Forall_forall in Hy, Hx. apply Forall_forall. intros z Hz.
    apply Hr; [|by apply Hx].
    destruct (Hy z Hz) as [?|[? _]]; lia.
Qed.

Lemma list_sort_ranked (f : A → Z) (before : relation A) l :
  StronglySorted before l →
  StronglySorted (ranks_before f before)
    (list_sort (λ a b, bool_decide (f a > f b)) l).
Proof.
  induction l as [|x l IH]; simpl; intros Hs; [constructor|].
  apply StronglySorted_inv in Hs as [Hs Hx].
  apply sort_insert_ranked; [by apply IH|].
  by rewrite list_sort_perm.
Qed.

(** A ranking is determined by what it ranks: any stable sort computes the
    list of [list_sort]. *)
Lemma ranking_unique (f : A → Z) (before : relation A) l1 l2 :
  (∀ a b, before a b → before b a → False) →
  StronglySorted (ranks_before f before) l1 →
  StronglySorted (ranks_before f before) l2 →
  l1 ≡ₚ l2 → l1 = l2.
Proof.
  intros Hasym. apply StronglySorted_unique_strong.
  intros a b _ _ [Hab|[Hab Hab']] [Hba|[Hba Hba']]; try lia.
  by destruct (Hasym a b).
Qed.

End ListSort.

Lemma sort_insert_fmap {A B : Type} (g : A → B) (comp : B → B → bool) x l :
  sort_insert comp (g x) (g <$> l)
  = g <$> sort_insert (λ a b, comp (g a) (g b)) x l.
Proof.
  induction l as [|y l IH]; csimpl; [done|].
  destruct (comp (g y) (g x)); csimpl; [by rewrite IH|done].
Qed.

(** Sorting the images is sorting the elements by their images. *)
Lemma list_sort_fmap {A B : Type} (g : A → B) (comp : B → B → bool) l :
  list_sort comp (g <$> l) = g <$> list_sort (λ a b, comp (g a) (g b)) l.
Proof.
  induction l as [|x l IH]; csimpl; [done|].
  by rewrite IH, sort_insert_fmap.
Qed.

(** ** Iteration over a std::map *)

Global Instance key_le_trans {V : Type} : Transitive (@key_le V).
Proof. unfold key_le. intros a b c. lia. Qed.

Global Instance key_le_total {V : Type} : Total (@key_le V).
Proof. unfold key_le. intros a b. lia. Qed.

Lemma map_items_perm {V : Type} (m : gmap Z V) : map_items m ≡ₚ map_to_list m.
Proof. apply merge_sort_Permutation. Qed.

Lemma map_items_NoDup_keys {V : Type} (m : gmap Z V) : NoDup (map_items m).*1.
Proof. rewrite map_items_perm. apply NoDup_fst_map_to_list. Qed.

Lemma sorted_le_NoDup_lt {V : Type} (l : list (Z * V)) :
  StronglySorted key_le l → NoDup l.*1 → StronglySorted key_lt l.
Proof.
  induction 1 as [|a l Hs IH Ha]; simpl; intros Hnd; [constructor|].
  apply NoDup_cons in Hnd as [Hin Hnd]. constructor; [by apply IH|].
  rewrite Forall_forall in Ha. apply Forall_forall. intros b Hb.
  specialize (Ha b Hb). unfold key_le, key_lt in *.
  assert (a.1 ≠ b.1); [|lia].
  intros Heq. apply Hin. rewrite Heq. by apply list_elem_of_fmap_2.
Qed.

(** The keys of the iteration are strictly ascending. *)
Lemma map_items_sorted {V : Type} (m : gmap Z V) :
  StronglySorted key_lt (map_items m).
Proof.
  apply sorted_le_NoDup_lt; [|apply map_items_NoDup_keys].
  apply StronglySorted_merge_sort; apply _.
Qed.

Lemma elem_of_map_items {V : Type} (m : gmap Z V) k v :
  (k, v) ∈ map_items m ↔ m !! k = Some v.
Proof. rewrite map_items_perm. apply elem_of_map_to_list. Qed.

Lemma length_map_items {V : Type} (m : gmap Z V) :
  length (map_items m) = size m.
Proof. rewrite map_items_perm. apply length_map_to_list. Qed.

Section Properties.
Context `{Collaborators}.

Implicit Types (σ : Process) (this gm : GridManager) (p q job : ptr).

(** ** Running computations *)

Lemma bind_run {A B : Type} (m : M A) (f : A → M B) σ a σ' :
  m σ = Some (a, σ') → (m ≫= f) σ = f a σ'.
Proof. intros Hm. unfold mbind, M_bind. by rewrite Hm. Qed.

Lemma bind_inv {A B : Type} (m : M A) (f : A → M B) σ r :
  (m ≫= f) σ = Some r → ∃ a σ', m σ = Some (a, σ') ∧ f a σ' = Some r.
Proof.
  unfold mbind, M_bind. destruct (m σ) as [[a σ']|]; [eauto | done].
Qed.

Lemma deref_user_live σ p u :
  user_heap σ !! p = Some u → deref_user p σ = Some (u, σ).
Proof.
  intros Hp. unfold deref_user, get_process, lift, mbind, M_bind.
  by rewrite Hp.
Qed.

Lemma deref_machine_live σ p m :
  machine_heap σ !! p = Some m → deref_machine p σ = Some (m, σ).
Proof.
  intros Hp. unfold deref_machine, get_process, lift, mbind, M_bind.
  by rewrite Hp.
Qed.

(** ** Registration with a preset id, and with no entity *)

Lemma AddUser_preset this σ p u :
  user_heap σ !! p = Some u → User_GetId u ≠ 0 →
  AddUser (Some p) this σ
  = Some ((User_GetId u, set_users (<[User_GetId u := p]> (_users this)) this), σ).
Proof.
  intros Hp Hid. unfold AddUser.
  rewrite (bind_run _ _ _ _ _ (deref_user_live _ _ _ Hp)).
  by rewrite decide_True.
Qed.

Lemma AddMachine_preset this σ p m :
  machine_heap σ !! p = Some m → Machine_GetId m ≠ 0 →
  AddMachine (Some p) this σ
  = Some ((Machine_GetId m,
           set_machines (<[Machine_GetId m := p]> (_machines this)) this), σ).
Proof.
  intros Hp Hid. unfold AddMachine.
  rewrite (bind_run _ _ _ _ _ (deref_machine_live _ _ _ Hp)).
  by rewrite decide_True.
Qed.

Lemma AddUser_fresh this σ p u :
  user_heap σ !! p = Some u → User_GetId u = 0 →
  AddUser (Some p) this σ
  = Some ((wrap32 (_lastUserId σ + 1),
           set_users (<[wrap32 (_lastUserId σ + 1) := p]> (_users this)) this),
          set_user_heap
            (<[p := User_SetId (wrap32 (_lastUserId σ + 1)) u]> (user_heap σ))
            (set_lastUserId (wrap32 (_lastUserId σ + 1)) σ)).
Proof.
  intros Hp Hid. unfold AddUser.
  rewrite (bind_run _ _ _ _ _ (deref_user_live _ _ _ Hp)).
  rewrite decide_False by (intros Hne; by apply Hne).
  reflexivity.
Qed.

Lemma AddMachine_fresh this σ p m :
  machine_heap σ !! p = Some m → Machine_GetId m = 0 →
  AddMachine (Some p) this σ
  = Some ((wrap32 (_lastMachineId σ + 1),
           set_machines (<[wrap32 (_lastMachineId σ + 1) := p]> (_machines this))
             this),
          set_machine_heap
            (<[p := Machine_SetId (wrap32 (_lastMachineId σ + 1)) m]>
               (machine_heap σ))
            (set_lastMachineId (wrap32 (_lastMachineId σ + 1)) σ)).
Proof.
  intros Hp Hid. unfold AddMachine.
  rewrite (bind_run _ _ _ _ _ (deref_machine_live _ _ _ Hp)).
  rewrite decide_False by (intros Hne; by apply Hne).
  reflexivity.
Qed.

(** C7.  Registration of an entity whose id is a nonzero [n] stores it
    under [n] and returns [n], whatever was registered under [n] before:
    the mapping at [n] is replaced, the other mappings and the process
    (counters, objects) are left as they were; every other id is looked up
    as before.  A null argument returns the sentinel 0 and changes
    nothing.  Both for users and for machines. *)
Theorem Add_preset_id_overwrites this σ pu u pm m :
  user_heap σ !! pu = Some u → User_GetId u ≠ 0 →
  machine_heap σ !! pm = Some m → Machine_GetId m ≠ 0 →
  (∃ this',
      AddUser (Some pu) this σ = Some ((User_GetId u, this'), σ)
      ∧ GetUser (User_GetId u) this' = Some pu
      ∧ (∀ k, k ≠ User_GetId u → GetUser k this' = GetUser k this)
      ∧ _machines this' = _machines this)
  ∧ (∃ this',
      AddMachine (Some pm) this σ = Some ((Machine_GetId m, this'), σ)
      ∧ GetMachine (Machine_GetId m) this' = Some pm
      ∧ (∀ k, k ≠ Machine_GetId m → GetMachine k this' = GetMachine k this)
      ∧ _users this' = _users this)
  ∧ AddUser None this σ = Some ((0, this), σ)
  ∧ AddMachine None this σ = Some ((0, this), σ).
Proof.
  intros Hu Hun Hm Hmn. repeat split.
  - eexists. split; [by apply AddUser_preset|].
    unfold GetUser; simpl. split; [apply lookup_insert_eq|].
    split; [|done]. intros k Hk. by rewrite lookup_insert_ne.
  - eexists. split; [by apply AddMachine_preset|].
    unfold GetMachine; simpl. split; [apply lookup_insert_eq|].
    split; [|done]. intros k Hk. by rewrite lookup_insert_ne.
Qed.

(** ** Removal and lookup *)

Lemma RemoveUser_present this σ n p u :
  _users this !! n = Some p → user_heap σ !! p = Some u →
  RemoveUser n this σ
  = Some ((true, set_users (delete n (_users this)) this),
          set_user_heap (delete p (user_heap σ)) σ).
Proof.
  intros Hn Hp. unfold RemoveUser, delete_user. rewrite Hn.
  unfold mbind at 1 2. unfold M_bind.
  by rewrite (deref_user_live _ _ _ Hp).
Qed.

Lemma RemoveUser_absent this σ n :
  _users this !! n = None → RemoveUser n this σ = Some ((false, this), σ).
Proof. intros Hn. unfold RemoveUser. by rewrite Hn. Qed.

Lemma RemoveMachine_present this σ n p m :
  _machines this !! n = Some p → machine_heap σ !! p = Some m →
  RemoveMachine n this σ
  = Some ((true, set_machines (delete n (_machines this)) this),
          set_machine_heap (delete p (machine_heap σ)) σ).
Proof.
  intros Hn Hp. unfold RemoveMachine, delete_machine. rewrite Hn.
  unfold mbind at 1 2. unfold M_bind.
  by rewrite (deref_machine_live _ _ _ Hp).
Qed.

Lemma RemoveMachine_absent this σ n :
  _machines this !! n = None → RemoveMachine n this σ = Some ((false, this), σ).
Proof. intros Hn. unfold RemoveMachine. by rewrite Hn. Qed.

(** C9.  When a user is registered under [nu] (a machine under [nm]),
    [RemoveUser nu] returns true, the id is no longer registered and the
    object is no longer live, the other ids are looked up as before; a
    second [RemoveUser nu] returns false and changes neither the manager nor
    the process; [GetUser nu] is then absent.  [GetUser] and [GetMachine]
    are total functions and are absent on every id that is not registered. *)
Theorem Remove_twice_then_Get_absent this σ nu pu u nm pm m :
  GetUser nu this = Some pu → user_heap σ !! pu = Some u →
  GetMachine nm this = Some pm → machine_heap σ !! pm = Some m →
  (∃ this1 σ1,
      RemoveUser nu this σ = Some ((true, this1), σ1)
      ∧ GetUser nu this1 = None
      ∧ user_heap σ1 !! pu = None
      ∧ (∀ k, k ≠ nu → GetUser k this1 = GetUser k this)
      ∧ RemoveUser nu this1 σ1 = Some ((false, this1), σ1))
  ∧ (∃ this1 σ1,
      RemoveMachine nm this σ = Some ((true, this1), σ1)
      ∧ GetMachine nm this1 = None
      ∧ machine_heap σ1 !! pm = None
      ∧ (∀ k, k ≠ nm → GetMachine k this1 = GetMachine k this)
      ∧ RemoveMachine nm this1 σ1 = Some ((false, this1), σ1))
  ∧ (∀ gm k, k ∉ dom (_users gm) → GetUser k gm = None)
  ∧ (∀ gm k, k ∉ dom (_machines gm) → GetMachine k gm = None).
Proof.
  unfold GetUser, GetMachine. intros Hnu Hpu Hnm Hpm. repeat split.
  - do 2 eexists. split; [by eapply RemoveUser_present|]. simpl.
    split; [apply lookup_delete_eq|]. split; [apply lookup_delete_eq|].
    split; [intros k Hk; by rewrite lookup_delete_ne|].
    apply RemoveUser_absent. simpl. apply lookup_delete_eq.
  - do 2 eexists. split; [by eapply RemoveMachine_present|]. simpl.
    split; [apply lookup_delete_eq|]. split; [apply lookup_delete_eq|].
    split; [intros k Hk; by rewrite lookup_delete_ne|].
    apply RemoveMachine_absent. simpl. apply lookup_delete_eq.
  - intros gm k Hk. by apply not_elem_of_dom.
  - intros gm k Hk. by apply not_elem_of_dom.
Qed.

(** ** The generic query *)

Lemma select_none (l : list ptr) σ :
  select (λ _, mret false) l σ = Some ([], σ).
Proof.
  induction l as [|p l IH]; [done|]. simpl.
  unfold mbind at 1. unfold M_bind. unfold mret at 1. unfold M_ret.
  erewrite bind_run; [|exact IH]. done.
Qed.

(** C6, as the code has it.  For a kind other than Job, User and Machine
    the query returns the empty result and leaves the process as it was,
    whatever the predicate; this is also the outcome of a query over the
    users, or over the machines, that no entity matches. *)
Theorem ApplyPredicate_other_kind_is_empty (predicate : ptr → M bool) this σ :
  ApplyPredicate KindOther predicate this σ = Some ([], σ)
  ∧ ApplyPredicate KindOther predicate this σ
    = ApplyPredicate KindUser (λ _, mret false) this σ
  ∧ ApplyPredicate KindOther predicate this σ
    = ApplyPredicate KindMachine (λ _, mret false) this σ.
Proof.
  unfold ApplyPredicate. by rewrite !select_none.
Qed.

(** ** The scheduler *)

Lemma all_live_spec (h : gmap ptr Machine) (l : list ptr) :
  all_live h l = true ↔ ∀ p, p ∈ l → is_Some (h !! p).
Proof.
  unfold all_live. rewrite forallb_forall. split.
  - intros Hl p Hp. apply list_elem_of_In in Hp.
    specialize (Hl p Hp). by apply bool_decide_eq_true in Hl.
  - intros Hl p Hp. apply bool_decide_eq_true, Hl. by apply list_elem_of_In.
Qed.

Lemma machines_live_spec σ this :
  machines_live σ this
  ↔ ∀ k p, _machines this !! k = Some p → is_Some (machine_heap σ !! p).
Proof.
  unfold machines_live. rewrite all_live_spec. split.
  - intros Hl k p Hk. apply Hl.
    apply (list_elem_of_fmap_2 snd _ (k, p)). by apply elem_of_map_items.
  - intros Hl p Hp. apply list_elem_of_fmap in Hp as [[k q] [-> Hkq]].
    apply elem_of_map_items in Hkq. by apply (Hl k).
Qed.

Lemma all_live_insert (h : gmap ptr Machine) (l : list ptr) p m :
  is_Some (h !! p) → all_live (<[p := m]> h) l = all_live h l.
Proof.
  intros Hp. induction l as [|q l IH]; simpl; [done|]. rewrite IH. f_equal.
  apply bool_decide_ext. destruct (decide (p = q)) as [->|Hne].
  - rewrite lookup_insert_eq. split; [done|eauto].
  - by rewrite lookup_insert_ne.
Qed.

Lemma call_Machine_AddJob_live σ p job m :
  machine_heap σ !! p = Some m →
  call_Machine_AddJob p job σ
  = Some ((Machine_AddJob job m).1,
          set_machine_heap (<[p := (Machine_AddJob job m).2]> (machine_heap σ))
            (log_call (CallMachineAddJob p job) σ)).
Proof.
  intros Hp. unfold call_Machine_AddJob.
  by rewrite (bind_run _ _ _ _ _ (deref_machine_live _ _ _ Hp)).
Qed.

(** The loop offers the job to a prefix of its list: to all of it when it
    reports failure.  It touches neither the counters nor the users, and no
    machine is created or destroyed. *)
Lemma offer_calls job l σ :
  all_live (machine_heap σ) l = true →
  ∃ r σ' offered,
    offer job l σ = Some (r, σ')
    ∧ offered `prefix_of` l
    ∧ calls σ' = calls σ ++ offers job offered
    ∧ (r = false → offered = l)
    ∧ _lastUserId σ' = _lastUserId σ
    ∧ _lastMachineId σ' = _lastMachineId σ
    ∧ user_heap σ' = user_heap σ
    ∧ dom (machine_heap σ') = dom (machine_heap σ).
Proof.
  revert σ. induction l as [|p l IH]; intros σ Hl.
  { exists false, σ, []. simpl. rewrite app_nil_r. done. }
  simpl in Hl. apply andb_true_iff in Hl as [Hp Hl].
  apply bool_decide_eq_true in Hp as Hp'. destruct Hp' as [m Hm].
  simpl. rewrite (bind_run _ _ _ _ _ (call_Machine_AddJob_live _ _ _ _ Hm)).
  set (σ1 := set_machine_heap _ _).
  assert (dom (machine_heap σ1) = dom (machine_heap σ)) as Hdom.
  { simpl. apply dom_insert_lookup_L. eauto. }
  destruct (Machine_AddJob job m).1.
  - exists true, σ1, [p]. repeat split; try done.
    apply prefix_cons, prefix_nil.
  - destruct (IH σ1)
      as (r & σ' & offered & Hrun & Hpre & Hcalls & Hall & Hu & Hm' & Huh & Hmh).
    { simpl. rewrite all_live_insert; eauto. }
    exists r, σ', (p :: offered).
    split; [done|]. split; [by apply prefix_cons|].
    split; [rewrite Hcalls; simpl; by rewrite <- app_assoc|].
    split; [intros Hr; by rewrite Hall|].
    rewrite Hu, Hm', Huh, Hmh, Hdom. done.
Qed.

Lemma better_score_at (h : gmap ptr Machine) p q :
  is_Some (h !! p) → is_Some (h !! q) →
  better h p q = bool_decide (score_at h p > score_at h q).
Proof.
  intros [a Ha] [b Hb]. unfold better, score_at. by rewrite Ha, Hb.
Qed.

Lemma AddJob_run this σ job :
  machines_live σ this →
  AddJob (Some job) this σ
  = offer job
      (list_sort (better (machine_heap σ)) (map_items (_machines this)).*2) σ.
Proof.
  intros Hlive. unfold AddJob, mbind, M_bind, get_process.
  unfold machines_live in Hlive. by rewrite Hlive.
Qed.

(** The sorted list of [AddJob] is the list of the registered machines in
    descending order of score, machines of equal score in ascending order
    of the id under which they are registered. *)
Lemma ranked_machines σ this :
  machines_live σ this →
  ∃ ranked : list (Z * ptr),
    list_sort (better (machine_heap σ)) (map_items (_machines this)).*2
    = ranked.*2
    ∧ ranked ≡ₚ map_to_list (_machines this)
    ∧ StronglySorted
        (ranks_before (λ kp, score_at (machine_heap σ) kp.2) key_lt) ranked.
Proof.
  intros Hlive.
  exists (list_sort (λ a b, bool_decide (score_at (machine_heap σ) a.2
                                          > score_at (machine_heap σ) b.2))
            (map_items (_machines this))).
  split; [|split].
  - transitivity
      (list_sort (λ p q, bool_decide (score_at (machine_heap σ) p
                                      > score_at (machine_heap σ) q))
         (map_items (_machines this)).*2).
    + apply list_sort_ext. intros p q Hp Hq.
      apply better_score_at; by apply (proj1 (all_live_spec _ _) Hlive).
    + apply (list_sort_fmap snd
        (λ p q, bool_decide (score_at (machine_heap σ) p
                             > score_at (machine_heap σ) q))).
  - by rewrite list_sort_perm, map_items_perm.
  - apply (list_sort_ranked (λ kp : Z * ptr, score_at (machine_heap σ) kp.2)).
    apply map_items_sorted.
Qed.

Lemma after_offers_other job l : ∀ (h : gmap ptr Machine) q,
  q ∉ l → after_offers job h l !! q = h !! q.
Proof.
  induction l as [|p l IH]; intros h q Hq; [done|].
  apply not_elem_of_cons in Hq as [Hne Hq]. cbn [after_offers].
  rewrite IH by done. destruct (h !! p); [|done].
  by rewrite lookup_insert_ne.
Qed.

(** The loop stops at the first machine that accepts: every offer but the
    last is rejected, and the last is accepted exactly when the loop
    reports success. *)
Lemma offer_trace job l : ∀ σ,
  all_live (machine_heap σ) l = true →
  ∃ r σ' offered,
    offer job l σ = Some (r, σ')
    ∧ offered `prefix_of` l
    ∧ calls σ' = calls σ ++ offers job offered
    ∧ machine_heap σ' = after_offers job (machine_heap σ) offered
    ∧ (r = false → offered = l)
    ∧ (r = true → ∃ pre p, offered = pre ++ [p])
    ∧ (∀ pre q, pre ++ [q] `prefix_of` offered →
         accepts job (after_offers job (machine_heap σ) pre) q = true
         ↔ r = true ∧ offered = pre ++ [q]).
Proof.
  induction l as [|a l IH]; intros σ Hl.
  { exists false, σ, []. split; [done|]. split; [done|].
    split; [by rewrite app_nil_r|]. split; [done|]. split; [done|].
    split; [done|]. intros pre q Hpre. apply prefix_nil_inv in Hpre.
    by destruct pre. }
  simpl in Hl. apply andb_true_iff in Hl as [Ha Hl].
  apply bool_decide_eq_true in Ha as Ha'. destruct Ha' as [m Hm].
  cbn [offer].
  rewrite (bind_run _ _ _ _ _ (call_Machine_AddJob_live _ _ _ _ Hm)).
  set (σ1 := set_machine_heap _ _).
  destruct (Machine_AddJob job m).1 eqn:Hb.
  - exists true, σ1, [a]. split; [done|].
    split; [apply prefix_cons, prefix_nil|]. split; [done|].
    split; [cbn [after_offers]; by rewrite Hm|]. split; [done|].
    split; [intros _; by exists [], a|].
    intros pre q Hpre. destruct pre as [|x pre].
    + apply prefix_cons_inv_1 in Hpre as ->. cbn [after_offers].
      unfold accepts. rewrite Hm, Hb. done.
    + apply prefix_cons_inv_2, prefix_nil_inv in Hpre. by destruct pre.
  - destruct (IH σ1) as (r & σ' & offered & Hrun & Hpre & Hcalls & Hheap
                          & Hall & Hlast & Hacc).
    { subst σ1. simpl. rewrite all_live_insert; [done|eauto]. }
    subst σ1. simpl in Hcalls, Hheap, Hacc.
    exists r, σ', (a :: offered). split; [exact Hrun|].
    split; [by apply prefix_cons|].
    split; [rewrite Hcalls; by rewrite <- app_assoc|].
    split; [cbn [after_offers]; by rewrite Hm|].
    split; [intros Hr; by rewrite (Hall Hr)|].
    split.
    { intros Hr. destruct (Hlast Hr) as (pre & p & ->). by exists (a :: pre), p. }
    intros pre q Hpq. destruct pre as [|x pre].
    + apply prefix_cons_inv_1 in Hpq as ->. cbn [after_offers].
      unfold accepts. rewrite Hm, Hb. split; [done|].
      intros [Hr Heq]. destruct (Hlast Hr) as (pre & p & ->).
      injection Heq as Heq. by destruct pre.
    + apply prefix_cons_inv_1 in Hpq as Hx. subst x.
      apply prefix_cons_inv_2 in Hpq. cbn [after_offers]. rewrite Hm.
      rewrite (Hacc pre q Hpq). split; intros [Hr Heq]; (split; [done|]).
      * by rewrite Heq.
      * by injection Heq.
Qed.

(** C1.  [AddJob] with a job offers it to the registered machines in
    descending order of the score (maxJobs - currentJobs) +
    availableDiskSpace + availableRAM, machines of equal score in ascending
    order of id: the calls [Machine::AddJob] it makes are, in this order,
    the ranking of all registered machines up to and including the first
    machine that accepts, and the whole ranking when none accepts.  That
    is: the machines offered the job are a prefix of the ranking; with the
    result true the prefix ends with an offer and that offer is accepted;
    every offer that is accepted is the last one and gives the result true;
    with the result false the prefix is the whole ranking.  An offer is
    judged on the machines as the offers before it left them, which for a
    machine that was not offered the job before are the machines as
    [AddJob] found them.  In particular, when the registry holds M1 (score
    10), M2 (score 10) and M3 (score 5) under ascending ids, the ranking is
    M1, M2, M3, and M1 is the first machine to be offered the job. *)
Theorem AddJob_offers_in_ranked_order this σ job :
  machines_live σ this →
  ∃ (ranked : list (Z * ptr)) (offered : list ptr) r σ',
    AddJob (Some job) this σ = Some (r, σ')
    ∧ ranked ≡ₚ map_to_list (_machines this)
    ∧ StronglySorted
        (ranks_before (λ kp, score_at (machine_heap σ) kp.2) key_lt) ranked
    ∧ offered `prefix_of` ranked.*2
    ∧ calls σ' = calls σ ++ offers job offered
    ∧ (r = false → offered = ranked.*2)
    ∧ (r = true → ∃ pre p, offered = pre ++ [p])
    ∧ (∀ pre q, pre ++ [q] `prefix_of` offered →
         accepts job (after_offers job (machine_heap σ) pre) q = true
         ↔ r = true ∧ offered = pre ++ [q])
    ∧ (∀ pre q, q ∉ pre →
         accepts job (after_offers job (machine_heap σ) pre) q
         = accepts job (machine_heap σ) q)
    ∧ machine_heap σ' = after_offers job (machine_heap σ) offered
    ∧ (∀ k1 k2 k3 M1 M2 M3,
         map_to_list (_machines this) ≡ₚ [(k1, M1); (k2, M2); (k3, M3)] →
         k1 < k2 < k3 →
         score_at (machine_heap σ) M1 = 10 →
         score_at (machine_heap σ) M2 = 10 →
         score_at (machine_heap σ) M3 = 5 →
         ranked.*2 = [M1; M2; M3] ∧ [M1] `prefix_of` offered).
Proof.
  intros Hlive.
  destruct (ranked_machines σ this Hlive) as (ranked & Hsort & Hperm & Hsorted).
  destruct (offer_trace job ranked.*2 σ)
    as (r & σ' & offered & Hrun & Hpre & Hcalls & Hheap & Hall & Hlast & Hacc).
  { apply all_live_spec. intros p Hp. rewrite <- Hsort, list_sort_perm in Hp.
    revert p Hp. by apply all_live_spec. }
  exists ranked, offered, r, σ'.
  split; [by rewrite AddJob_run, Hsort|]. do 7 (split; [done|]).
  split.
  { intros pre q Hq. unfold accepts. by rewrite after_offers_other. }
  split; [done|].
  intros k1 k2 k3 M1 M2 M3 Hthree Hk H1 H2 H3.
  assert (ranked.*2 = [M1; M2; M3]) as Hranked.
  { rewrite (ranking_unique (λ kp, score_at (machine_heap σ) kp.2) key_lt
               ranked [(k1, M1); (k2, M2); (k3, M3)]); [done| |done| |].
    - unfold key_lt. intros a b. lia.
    - unfold ranks_before, key_lt. repeat constructor; simpl; lia.
    - by rewrite Hperm. }
  split; [done|]. rewrite Hranked in Hpre, Hall.
  destruct offered as [|x offered].
  - destruct r; [|by specialize (Hall eq_refl)].
    destruct (Hlast eq_refl) as (pre & p & Heq). by destruct pre.
  - apply prefix_cons_inv_1 in Hpre as ->. apply prefix_cons, prefix_nil.
Qed.

(** The loop over a list without repetition: the machines are tried in
    order, each in the state it had before the loop, up to the first one
    that accepts. *)
Lemma offer_first_acceptor job l σ :
  NoDup l → all_live (machine_heap σ) l = true →
  ∃ r σ' offered rest,
    offer job l σ = Some (r, σ')
    ∧ l = offered ++ rest
    ∧ calls σ' = calls σ ++ offers job offered
    ∧ (∀ q, q ∉ offered → machine_heap σ' !! q = machine_heap σ !! q)
    ∧ (∀ q m, q ∈ offered → machine_heap σ !! q = Some m →
         machine_heap σ' !! q = Some (Machine_AddJob job m).2)
    ∧ (r = false →
         rest = [] ∧ ∀ q, q ∈ offered → accepts job (machine_heap σ) q = false)
    ∧ (r = true →
         ∃ pre p, offered = pre ++ [p]
           ∧ (∀ q, q ∈ pre → accepts job (machine_heap σ) q = false)
           ∧ accepts job (machine_heap σ) p = true).
Proof.
  revert σ. induction l as [|p l IH]; intros σ Hnd Hl.
  { exists false, σ, [], []. simpl. rewrite app_nil_r.
    do 4 (split; [done|]).
    split; [intros q m Hq; by apply elem_of_nil in Hq|].
    split; [|done]. intros _. split; [done|].
    intros q Hq. by apply elem_of_nil in Hq. }
  apply NoDup_cons in Hnd as [Hpl Hnd].
  simpl in Hl. apply andb_true_iff in Hl as [Hp Hl].
  apply bool_decide_eq_true in Hp as [m Hm].
  simpl. rewrite (bind_run _ _ _ _ _ (call_Machine_AddJob_live _ _ _ _ Hm)).
  set (σ1 := set_machine_heap _ _).
  assert (∀ q, q ≠ p → machine_heap σ1 !! q = machine_heap σ !! q) as Hframe.
  { intros q Hq. simpl. by rewrite lookup_insert_ne. }
  assert (machine_heap σ1 !! p = Some (Machine_AddJob job m).2) as Hp1.
  { simpl. apply lookup_insert_eq. }
  assert (accepts job (machine_heap σ) p = (Machine_AddJob job m).1) as Hacc.
  { unfold accepts. by rewrite Hm. }
  destruct (Machine_AddJob job m).1 eqn:Hb.
  - exists true, σ1, [p], l. split; [done|]. split; [done|]. split; [done|].
    split; [|split; [|split; [done|]]].
    + intros q Hq. apply Hframe. intros ->. apply Hq. by left.
    + intros q mq Hq Hmq. apply list_elem_of_singleton in Hq as ->. congruence.
    + intros _. exists [], p. split; [done|]. split; [|done].
      intros q Hq. by apply elem_of_nil in Hq.
  - destruct (IH σ1 Hnd)
      as (r & σ' & offered & rest & Hrun & Hsplit & Hcalls & Hout & Hin & Hf & Ht).
    { simpl. rewrite all_live_insert; eauto. }
    assert (p ∉ offered) as Hpo.
    { intros Hpo. apply Hpl. rewrite Hsplit. apply elem_of_app. by left. }
    assert (∀ q, q ∈ offered → q ≠ p) as Hne by (intros q Hq ->; done).
    assert (∀ q, q ∈ offered →
              accepts job (machine_heap σ1) q = accepts job (machine_heap σ) q)
      as Hacc1.
    { intros q Hq. unfold accepts. rewrite Hframe; [done|by apply Hne]. }
    exists r, σ', (p :: offered), rest. split; [done|].
    split; [simpl; by rewrite Hsplit|].
    split; [rewrite Hcalls; simpl; by rewrite <- app_assoc|].
    split; [|split; [|split]].
    + intros q Hq. apply not_elem_of_cons in Hq as [Hqp Hq].
      rewrite Hout by done. by apply Hframe.
    + intros q mq Hq Hmq. apply elem_of_cons in Hq as [->|Hq].
      * rewrite Hout by done. congruence.
      * apply Hin; [done|]. rewrite Hframe; [done|by apply Hne].
    + intros Hr. destruct (Hf Hr) as [-> Hrej]. split; [done|].
      intros q Hq. apply elem_of_cons in Hq as [->|Hq]; [done|].
      rewrite <- Hacc1 by done. by apply Hrej.
    + intros Hr. destruct (Ht Hr) as (pre & a & -> & Hrej & Ha).
      exists (p :: pre), a. split; [done|]. split.
      * intros q Hq. apply elem_of_cons in Hq as [->|Hq]; [done|].
        rewrite <- Hacc1; [by apply Hrej|]. apply elem_of_app. by left.
      * rewrite <- Hacc1; [done|]. apply elem_of_app. right. by left.
Qed.

(** C2.  Let [ranked] be the sorted list of [AddJob], no machine being
    registered under two ids, and let no registered machine have the job
    yet.  [Machine::AddJob] is taken with its contract: a machine that
    accepts has the job among its jobs, one that rejects keeps its jobs.
    If some machine of [ranked] accepts, [AddJob] returns true, its calls
    are the offers to the machines before the first acceptor [p], which
    reject, and then to [p]; the machines after [p] are not offered the job
    and are unchanged, and [p] is the only registered machine that has the
    job.  If no machine accepts, [AddJob] returns false after offering the
    job to all, and no registered machine has the job. *)
Theorem AddJob_commits_to_first_acceptor this σ job :
  machines_live σ this →
  NoDup (map_items (_machines this)).*2 →
  (∀ m, (Machine_AddJob job m).1 = true →
        job ∈ (Machine_GetJobs (Machine_AddJob job m).2).*2) →
  (∀ m, (Machine_AddJob job m).1 = false →
        Machine_GetJobs (Machine_AddJob job m).2 = Machine_GetJobs m) →
  (∀ q, q ∈ (map_items (_machines this)).*2 →
        ¬ holds job (machine_heap σ) q) →
  let ranked :=
    list_sort (better (machine_heap σ)) (map_items (_machines this)).*2 in
  ∃ r σ',
    AddJob (Some job) this σ = Some (r, σ')
    ∧ ((∃ q, q ∈ ranked ∧ accepts job (machine_heap σ) q = true) →
         r = true
         ∧ ∃ pre p post,
             ranked = pre ++ p :: post
             ∧ (∀ q, q ∈ pre → accepts job (machine_heap σ) q = false)
             ∧ accepts job (machine_heap σ) p = true
             ∧ calls σ' = calls σ ++ offers job (pre ++ [p])
             ∧ (∀ q, q ∈ post → machine_heap σ' !! q = machine_heap σ !! q)
             ∧ (∀ q, q ∈ ranked → holds job (machine_heap σ') q ↔ q = p))
    ∧ ((∀ q, q ∈ ranked → accepts job (machine_heap σ) q = false) →
         r = false
         ∧ calls σ' = calls σ ++ offers job ranked
         ∧ (∀ q, q ∈ ranked → ¬ holds job (machine_heap σ') q)).
Proof.
  intros Hlive Hnd Haccept Hreject Hfree ranked.
  assert (ranked ≡ₚ (map_items (_machines this)).*2) as Hperm
    by apply list_sort_perm.
  assert (NoDup ranked) as Hndr by by rewrite Hperm.
  assert (all_live (machine_heap σ) ranked = true) as Hlr.
  { apply all_live_spec. intros q Hq. rewrite Hperm in Hq.
    by apply (proj1 (all_live_spec _ _) Hlive). }
  destruct (offer_first_acceptor job ranked σ Hndr Hlr)
    as (r & σ' & offered & rest & Hrun & Hsplit & Hcalls & Hout & Hin & Hf & Ht).
  exists r, σ'. split; [by rewrite AddJob_run|].
  (* what a rejected offer leaves behind *)
  assert (∀ q, q ∈ ranked → q ∈ offered →
            accepts job (machine_heap σ) q = false →
            ¬ holds job (machine_heap σ') q) as Hrejected.
  { intros q Hqr Hq Hacc [m' [Hm' Hj]].
    apply (proj1 (all_live_spec _ _) Hlr) in Hqr as Hm. destruct Hm as [m Hm].
    rewrite (Hin q m Hq Hm) in Hm'. injection Hm' as <-.
    unfold accepts in Hacc. rewrite Hm in Hacc.
    rewrite (Hreject m Hacc) in Hj.
    apply (Hfree q); [by rewrite <- Hperm|]. by exists m. }
  assert (∀ q, q ∈ ranked → q ∉ offered → ¬ holds job (machine_heap σ') q)
    as Huntouched.
  { intros q Hqr Hq [m' [Hm' Hj]]. rewrite (Hout q Hq) in Hm'.
    apply (Hfree q); [by rewrite <- Hperm|]. by exists m'. }
  split.
  - intros [a [Har Ha]]. destruct r.
    2:{ destruct (Hf eq_refl) as [-> Hrej]. rewrite app_nil_r in Hsplit.
        rewrite Hrej in Ha; [done|by rewrite <- Hsplit]. }
    split; [done|]. destruct (Ht eq_refl) as (pre & p & -> & Hrej & Hp).
    exists pre, p, rest. rewrite <- app_assoc in Hsplit. simpl in Hsplit.
    split; [done|]. split; [done|]. split; [done|]. split; [done|].
    assert (NoDup (pre ++ [p] ++ rest)) as Hnd3 by (simpl; by rewrite <- Hsplit).
    apply NoDup_app in Hnd3 as (_ & Hpre & Hnd3).
    apply NoDup_app in Hnd3 as (_ & Hp_rest & _).
    split.
    + intros q Hq. apply Hout. intros Hqo.
      apply elem_of_app in Hqo as [Hqo|Hqo].
      * apply (Hpre q Hqo). apply elem_of_app. by right.
      * apply (Hp_rest q Hqo Hq).
    + intros q Hqr. split.
      * intros Hh. destruct (decide (q = p)) as [|Hne]; [done|]. exfalso.
        destruct (decide (q ∈ pre ++ [p])) as [Hqo|Hqo].
        -- apply (Hrejected q Hqr Hqo); [|done].
           apply elem_of_app in Hqo as [Hqo|Hqo]; [by apply Hrej|].
           by apply list_elem_of_singleton in Hqo.
        -- by apply (Huntouched q Hqr Hqo).
      * intros ->.
        apply (proj1 (all_live_spec _ _) Hlr) in Hqr as Hm. destruct Hm as [m Hm].
        exists (Machine_AddJob job m).2. split.
        -- apply Hin; [|done]. apply elem_of_app. right. by left.
        -- apply Haccept. unfold accepts in Hp. by rewrite Hm in Hp.
  - intros Hnone. destruct r.
    { destruct (Ht eq_refl) as (pre & p & -> & _ & Hp).
      rewrite Hnone in Hp; [done|]. rewrite Hsplit.
      apply elem_of_app. left. apply elem_of_app. right. by left. }
    destruct (Hf eq_refl) as [-> _]. rewrite app_nil_r in Hsplit. subst offered.
    split; [done|]. split; [done|].
    intros q Hq. apply Hrejected; [done|done|by apply Hnone].
Qed.

(** ** Submission by a user *)

Lemma call_CanCreateJob_live σ pu job u :
  user_heap σ !! pu = Some u →
  call_CanCreateJob pu job σ
  = Some (User_CanCreateJob job u, log_call (CallCanCreateJob pu job) σ).
Proof.
  intros Hu. unfold call_CanCreateJob.
  by rewrite (bind_run _ _ _ _ _ (deref_user_live _ _ _ Hu)).
Qed.

Lemma call_CreatedJob_live σ pu job u :
  user_heap σ !! pu = Some u →
  call_CreatedJob pu job σ
  = Some ((), set_user_heap (<[pu := User_CreatedJob job u]> (user_heap σ))
                (log_call (CallCreatedJob pu job) σ)).
Proof.
  intros Hu. unfold call_CreatedJob.
  by rewrite (bind_run _ _ _ _ _ (deref_user_live _ _ _ Hu)).
Qed.

(** C3.  [AddJobByUser] with a null user or a null job returns false and
    leaves the process as it was.  With a live user and a job:
    - if [CanCreateJob] denies, it returns false and the process is as
      before but for the record of that one call: no machine is offered the
      job, [CreatedJob] is not called, nothing is mutated;
    - if it allows, the result is that of [AddJob], run after the check;
      the calls made are [CanCreateJob] first, then the offers of [AddJob],
      then [CreatedJob] when, and only when, the job was placed. *)
Theorem AddJobByUser_is_gated this σ :
  (∀ j : option ptr, AddJobByUser None j this σ = Some (false, σ))
  ∧ (∀ user : option ptr, AddJobByUser user None this σ = Some (false, σ))
  ∧ (∀ pu u job,
       user_heap σ !! pu = Some u → User_CanCreateJob job u = false →
       AddJobByUser (Some pu) (Some job) this σ
       = Some (false, log_call (CallCanCreateJob pu job) σ))
  ∧ (∀ pu u job,
       user_heap σ !! pu = Some u → User_CanCreateJob job u = true →
       machines_live σ this →
       ∃ r σ1 σ' offered,
         AddJob (Some job) this (log_call (CallCanCreateJob pu job) σ)
         = Some (r, σ1)
         ∧ AddJobByUser (Some pu) (Some job) this σ = Some (r, σ')
         ∧ calls σ1 = calls σ ++ [CallCanCreateJob pu job] ++ offers job offered
         ∧ σ' = (if r
                 then set_user_heap
                        (<[pu := User_CreatedJob job u]> (user_heap σ1))
                        (log_call (CallCreatedJob pu job) σ1)
                 else σ1)
         ∧ calls σ'
           = calls σ ++ [CallCanCreateJob pu job] ++ offers job offered
             ++ (if r then [CallCreatedJob pu job] else [])
         ∧ (CallCreatedJob pu job
              ∈ [CallCanCreateJob pu job] ++ offers job offered
                ++ (if r then [CallCreatedJob pu job] else [])
            ↔ r = true)).
Proof.
  split; [done|]. split; [by intros [?|]|]. split.
  { intros pu u job Hu Hdenied. unfold AddJobByUser.
    rewrite (bind_run _ _ _ _ _ (call_CanCreateJob_live _ _ _ _ Hu)).
    by rewrite Hdenied. }
  intros pu u job Hu Hallowed Hlive. unfold AddJobByUser.
  rewrite (bind_run _ _ _ _ _ (call_CanCreateJob_live _ _ _ _ Hu)).
  rewrite Hallowed. cbn [negb].
  set (σ0 := log_call (CallCanCreateJob pu job) σ).
  assert (machines_live σ0 this) as Hlive0 by done.
  destruct (offer_calls job
              (list_sort (better (machine_heap σ0)) (map_items (_machines this)).*2)
              σ0)
    as (r & σ1 & offered & Hrun & _ & Hcalls & _ & _ & _ & Huh & _).
  { apply all_live_spec. intros q Hq. rewrite list_sort_perm in Hq.
    by apply (proj1 (all_live_spec _ _) Hlive0). }
  rewrite <- AddJob_run in Hrun by done.
  assert (user_heap σ1 !! pu = Some u) as Hu1 by by rewrite Huh.
  assert (calls σ1 = calls σ ++ [CallCanCreateJob pu job] ++ offers job offered)
    as Hcalls1.
  { rewrite Hcalls. simpl. by rewrite <- app_assoc. }
  assert (CallCreatedJob pu job ∉ [CallCanCreateJob pu job] ++ offers job offered)
    as Hnot.
  { intros Hin. apply elem_of_app in Hin as [Hin|Hin].
    - by apply list_elem_of_singleton in Hin.
    - unfold offers in Hin. apply list_elem_of_fmap in Hin as [? [? _]]. done. }
  rewrite (bind_run _ _ _ _ _ Hrun). destruct r; cbn [negb].
  - rewrite (bind_run _ _ _ _ _ (call_CreatedJob_live _ _ _ _ Hu1)).
    eexists true, σ1, _, offered.
    split; [done|]. split; [done|]. split; [done|]. split; [done|].
    split; [simpl; rewrite Hcalls1; by rewrite <- !app_assoc|].
    split; [done|]. intros _. apply elem_of_cons. right.
    apply elem_of_app. right. by left.
  - exists false, σ1, σ1, offered.
    split; [done|]. split; [done|]. split; [done|]. split; [done|].
    rewrite !app_nil_r. split; [done|]. split; [done|done].
Qed.

(** ** Inversion of the registry operations *)

Lemma AddUser_inv this σ p r :
  AddUser (Some p) this σ = Some r → ∃ u, user_heap σ !! p = Some u.
Proof.
  unfold AddUser, deref_user, get_process, lift, mbind, M_bind.
  destruct (user_heap σ !! p) as [u|]; [eauto|done].
Qed.

Lemma AddMachine_inv this σ p r :
  AddMachine (Some p) this σ = Some r → ∃ m, machine_heap σ !! p = Some m.
Proof.
  unfold AddMachine, deref_machine, get_process, lift, mbind, M_bind.
  destruct (machine_heap σ !! p) as [m|]; [eauto|done].
Qed.

Lemma RemoveUser_inv this σ id b this' σ' :
  RemoveUser id this σ = Some ((b, this'), σ') →
  _users this' = (if b then delete id (_users this) else _users this)
  ∧ _machines this' = _machines this
  ∧ _lastUserId σ' = _lastUserId σ ∧ _lastMachineId σ' = _lastMachineId σ.
Proof.
  destruct (_users this !! id) as [p|] eqn:Hid.
  - destruct (user_heap σ !! p) as [u|] eqn:Hp.
    + rewrite (RemoveUser_present _ _ _ _ _ Hid Hp). by intros [= <- <- <-].
    + unfold RemoveUser, delete_user, deref_user, get_process, lift, mbind, M_bind.
      by rewrite Hid, Hp.
  - rewrite (RemoveUser_absent _ _ _ Hid). by intros [= <- <- <-].
Qed.

Lemma RemoveMachine_inv this σ id b this' σ' :
  RemoveMachine id this σ = Some ((b, this'), σ') →
  _machines this' = (if b then delete id (_machines this) else _machines this)
  ∧ _users this' = _users this
  ∧ _lastUserId σ' = _lastUserId σ ∧ _lastMachineId σ' = _lastMachineId σ.
Proof.
  destruct (_machines this !! id) as [p|] eqn:Hid.
  - destruct (machine_heap σ !! p) as [m|] eqn:Hp.
    + rewrite (RemoveMachine_present _ _ _ _ _ Hid Hp). by intros [= <- <- <-].
    + unfold RemoveMachine, delete_machine, deref_machine, get_process, lift,
        mbind, M_bind.
      by rewrite Hid, Hp.
  - rewrite (RemoveMachine_absent _ _ _ Hid). by intros [= <- <- <-].
Qed.

(** ** Fresh identifiers *)

Lemma wrap32_small z : 0 ≤ z ≤ UINT_MAX → wrap32 z = z.
Proof. intros Hz. unfold wrap32. apply Z.mod_small. unfold UINT_MAX in *. lia. Qed.

Lemma wrap32_is_uint z : is_uint (wrap32 z).
Proof.
  unfold is_uint, wrap32, UINT_MAX.
  pose proof (Z.mod_pos_bound z (4294967295 + 1)). lia.
Qed.

Lemma seqZ_increasing m n : StronglySorted Z.lt (seqZ m n).
Proof.
  destruct (decide (n ≤ 0)) as [Hn|Hn]; [rewrite seqZ_nil by done; constructor|].
  rewrite <- (Z2Nat.id n) by lia. generalize (Z.to_nat n) as k. clear n Hn.
  intros k. revert m. induction k as [|k IH]; intros m.
  { rewrite seqZ_nil by done. constructor. }
  rewrite seqZ_cons by lia. constructor.
  - replace (Z.pred (Z.of_nat (S k))) with (Z.of_nat k) by lia. apply IH.
  - apply Forall_seqZ. lia.
Qed.

Lemma fresh_user_adds_ids σ ids σ' :
  fresh_user_adds σ ids σ' →
  0 ≤ _lastUserId σ →
  _lastUserId σ + Z.of_nat (length ids) ≤ UINT_MAX →
  ids = seqZ (_lastUserId σ + 1) (Z.of_nat (length ids))
  ∧ _lastUserId σ' = _lastUserId σ + Z.of_nat (length ids).
Proof.
  induction 1 as [σ|σ σ1 σ2 σ3 this this' p id ids Hgap (u & Hu & Hid) Hadd _ IH];
    intros Hc Hmax.
  { simpl. rewrite seqZ_nil by done. split; [done|lia]. }
  rewrite length_cons in *.
  rewrite (AddUser_fresh _ _ _ _ Hu Hid), Hgap, wrap32_small in Hadd by lia.
  injection Hadd as <- _ <-. simpl in IH.
  destruct IH as [Hids Hlast]; [lia|lia|].
  split; [|lia].
  rewrite (seqZ_cons (_lastUserId σ + 1)) by lia. rewrite Hids at 1.
  do 2 f_equal; lia.
Qed.

Lemma fresh_machine_adds_ids σ ids σ' :
  fresh_machine_adds σ ids σ' →
  0 ≤ _lastMachineId σ →
  _lastMachineId σ + Z.of_nat (length ids) ≤ UINT_MAX →
  ids = seqZ (_lastMachineId σ + 1) (Z.of_nat (length ids))
  ∧ _lastMachineId σ' = _lastMachineId σ + Z.of_nat (length ids).
Proof.
  induction 1 as [σ|σ σ1 σ2 σ3 this this' p id ids Hgap (m & Hm & Hid) Hadd _ IH];
    intros Hc Hmax.
  { simpl. rewrite seqZ_nil by done. split; [done|lia]. }
  rewrite length_cons in *.
  rewrite (AddMachine_fresh _ _ _ _ Hm Hid), Hgap, wrap32_small in Hadd by lia.
  injection Hadd as <- _ <-. simpl in IH.
  destruct IH as [Hids Hlast]; [lia|lia|].
  split; [|lia].
  rewrite (seqZ_cons (_lastMachineId σ + 1)) by lia. rewrite Hids at 1.
  do 2 f_equal; lia.
Qed.

(** C8, without wrap-around.  An [AddUser] call with a live zero-id user
    returns the counter after its increment, stamps it on the user and
    registers the user under it.  In a run of such calls with no [Load] in
    between, started with the counter at [c] and short enough for the
    counter to stay within 32 bits, the ids returned are [c+1], [c+2], ...:
    strictly increasing, above [c], none returned twice.  The same holds of
    [AddMachine]. *)
Theorem fresh_ids_strictly_increase :
  (∀ this σ p u,
     user_heap σ !! p = Some u → User_GetId u = 0 →
     ∃ this' σ',
       AddUser (Some p) this σ
       = Some ((wrap32 (_lastUserId σ + 1), this'), σ')
       ∧ _lastUserId σ' = wrap32 (_lastUserId σ + 1)
       ∧ user_heap σ' !! p = Some (User_SetId (wrap32 (_lastUserId σ + 1)) u)
       ∧ GetUser (wrap32 (_lastUserId σ + 1)) this' = Some p)
  ∧ (∀ σ ids σ',
       fresh_user_adds σ ids σ' →
       0 ≤ _lastUserId σ →
       _lastUserId σ + Z.of_nat (length ids) ≤ UINT_MAX →
       StronglySorted Z.lt ids ∧ NoDup ids
       ∧ Forall (λ id, _lastUserId σ < id) ids
       ∧ ids = seqZ (_lastUserId σ + 1) (Z.of_nat (length ids))
       ∧ _lastUserId σ' = _lastUserId σ + Z.of_nat (length ids))
  ∧ (∀ this σ p m,
       machine_heap σ !! p = Some m → Machine_GetId m = 0 →
       ∃ this' σ',
         AddMachine (Some p) this σ
         = Some ((wrap32 (_lastMachineId σ + 1), this'), σ')
         ∧ _lastMachineId σ' = wrap32 (_lastMachineId σ + 1)
         ∧ machine_heap σ' !! p
           = Some (Machine_SetId (wrap32 (_lastMachineId σ + 1)) m)
         ∧ GetMachine (wrap32 (_lastMachineId σ + 1)) this' = Some p)
  ∧ (∀ σ ids σ',
       fresh_machine_adds σ ids σ' →
       0 ≤ _lastMachineId σ →
       _lastMachineId σ + Z.of_nat (length ids) ≤ UINT_MAX →
       StronglySorted Z.lt ids ∧ NoDup ids
       ∧ Forall (λ id, _lastMachineId σ < id) ids
       ∧ ids = seqZ (_lastMachineId σ + 1) (Z.of_nat (length ids))
       ∧ _lastMachineId σ' = _lastMachineId σ + Z.of_nat (length ids)).
Proof.
  split; [|split; [|split]].
  - intros this σ p u Hu Hid. eexists _, _.
    split; [by apply AddUser_fresh|]. split; [done|].
    unfold GetUser. simpl. by rewrite !lookup_insert_eq.
  - intros σ ids σ' Hrun Hc Hmax.
    destruct (fresh_user_adds_ids σ ids σ' Hrun Hc Hmax) as [Hids Hlast].
    rewrite Hids at 1 2 3.
    split; [apply seqZ_increasing|]. split; [apply NoDup_seqZ|].
    split; [apply Forall_seqZ; lia|done].
  - intros this σ p m Hm Hid. eexists _, _.
    split; [by apply AddMachine_fresh|]. split; [done|].
    unfold GetMachine. simpl. by rewrite !lookup_insert_eq.
  - intros σ ids σ' Hrun Hc Hmax.
    destruct (fresh_machine_adds_ids σ ids σ' Hrun Hc Hmax) as [Hids Hlast].
    rewrite Hids at 1 2 3.
    split; [apply seqZ_increasing|]. split; [apply NoDup_seqZ|].
    split; [apply Forall_seqZ; lia|done].
Qed.

(** The other operations of the registry leave the user counter alone. *)
Lemma run_op_keeps_lastUserId op this σ this' σ' :
  run_op op this σ = Some (this', σ') →
  match op with
  | OpLoad _ => False
  | OpAddUser (Some p) => ¬ is_fresh_user σ p
  | _ => True
  end →
  _lastUserId σ' = _lastUserId σ.
Proof.
  intros Hrun Hop. unfold run_op in Hrun.
  destruct op as [[p|]|[p|]|id|id|bb]; [| | | | | |done].
  - apply bind_inv in Hrun as ([n gm] & σ1 & Hadd & Hret).
    injection Hret as -> ->.
    destruct (AddUser_inv _ _ _ _ Hadd) as [u Hu].
    destruct (decide (User_GetId u = 0)) as [Hz|Hnz].
    + destruct Hop. by exists u.
    + rewrite (AddUser_preset _ _ _ _ Hu Hnz) in Hadd. by injection Hadd as <- <- <-.
  - by injection Hrun as <- <-.
  - apply bind_inv in Hrun as ([n gm] & σ1 & Hadd & Hret).
    injection Hret as -> ->.
    destruct (AddMachine_inv _ _ _ _ Hadd) as [m Hm].
    destruct (decide (Machine_GetId m = 0)) as [Hz|Hnz].
    + rewrite (AddMachine_fresh _ _ _ _ Hm Hz) in Hadd. by injection Hadd as <- <- <-.
    + rewrite (AddMachine_preset _ _ _ _ Hm Hnz) in Hadd.
      by injection Hadd as <- <- <-.
  - by injection Hrun as <- <-.
  - apply bind_inv in Hrun as ([b gm] & σ1 & Hrem & Hret).
    injection Hret as -> ->. by apply RemoveUser_inv in Hrem as (_ & _ & ? & _).
  - apply bind_inv in Hrun as ([b gm] & σ1 & Hrem & Hret).
    injection Hret as -> ->. by apply RemoveMachine_inv in Hrem as (_ & _ & ? & _).
Qed.

(** ** The snapshot codec *)

Lemma ReadUInt32_uint32_bytes v rest :
  is_uint v → ReadUInt32 (uint32_bytes v ++ rest) = Some (v, rest).
Proof.
  intros Hv. unfold uint32_bytes. rewrite wrap32_small by done.
  unfold is_uint, UINT_MAX in Hv. simpl. do 2 f_equal.
  Z.div_mod_to_equations. lia.
Qed.

Lemma sorted_keys_length {V : Type} (l : list (Z * V)) a b :
  StronglySorted key_lt l → Forall (λ kp, a < kp.1 ≤ b) l → a ≤ b →
  Z.of_nat (length l) ≤ b - a.
Proof.
  revert a. induction l as [|x l IH]; intros a Hs Hr Hab; simpl; [lia|].
  apply StronglySorted_inv in Hs as [Hs Hx].
  apply Forall_cons in Hr as [Hxr Hr].
  assert (Z.of_nat (length l) ≤ b - x.1); [|lia].
  apply IH; [done| |lia].
  rewrite Forall_forall in Hx, Hr. apply Forall_forall. intros y Hy.
  specialize (Hx y Hy). specialize (Hr y Hy). unfold key_lt in Hx. lia.
Qed.

(** A map whose keys are nonzero [uint]s has a size that fits a [uint]. *)
Lemma size_is_uint {V : Type} (m : gmap Z V) :
  Forall (λ kp, 0 < kp.1 ≤ UINT_MAX) (map_items m) →
  is_uint (Z.of_nat (size m)).
Proof.
  intros Hr. rewrite <- length_map_items. split; [lia|].
  pose proof (sorted_keys_length (map_items m) 0 UINT_MAX
                (map_items_sorted m) Hr) as Hl.
  unfold UINT_MAX in *. lia.
Qed.

Lemma dom_map_items {V : Type} (m : gmap Z V) :
  dom m = list_to_set (map_items m).*1.
Proof.
  rewrite map_items_perm. rewrite <- (list_to_map_to_list m) at 1.
  apply dom_list_to_map_L.
Qed.

Lemma save_users_run (ps : list ptr) (us : list User) bb σ :
  Forall2 (λ p u, user_heap σ !! p = Some u) ps us →
  save_users ps bb σ = Some (bb ++ mjoin (User_Save <$> us), σ).
Proof.
  intros Hl. revert bb. induction Hl as [|p u ps us Hp _ IH]; intros bb; simpl.
  { by rewrite app_nil_r. }
  rewrite (bind_run _ _ _ _ _ (deref_user_live _ _ _ Hp)).
  by rewrite IH, <- app_assoc.
Qed.

Lemma save_machines_run (ps : list ptr) (ms : list Machine) bb σ :
  Forall2 (λ p m, machine_heap σ !! p = Some m) ps ms →
  save_machines ps bb σ = Some (bb ++ mjoin (Machine_Save <$> ms), σ).
Proof.
  intros Hl. revert bb. induction Hl as [|p m ps ms Hp _ IH]; intros bb; simpl.
  { by rewrite app_nil_r. }
  rewrite (bind_run _ _ _ _ _ (deref_machine_live _ _ _ Hp)).
  by rewrite IH, <- app_assoc.
Qed.

Lemma new_user_run σ (u : User) :
  new_user u σ
  = Some (fresh (dom (user_heap σ)),
          set_user_heap (<[fresh (dom (user_heap σ)) := u]> (user_heap σ)) σ).
Proof. done. Qed.

Lemma new_machine_run σ (m : Machine) :
  new_machine m σ
  = Some (fresh (dom (machine_heap σ)),
          set_machine_heap
            (<[fresh (dom (machine_heap σ)) := m]> (machine_heap σ)) σ).
Proof. done. Qed.

Lemma load_users_run (us : list User) gm σ rest :
  Forall (λ u, User_GetId u ≠ 0 ∧ user_codec_ok u) us →
  ∃ gm' σ',
    load_users (length us) gm (mjoin (User_Save <$> us) ++ rest) σ
    = Some ((gm', rest), σ')
    ∧ dom (_users gm') = dom (_users gm) ∪ list_to_set (User_GetId <$> us)
    ∧ _machines gm' = _machines gm
    ∧ _lastUserId σ' = _lastUserId σ
    ∧ _lastMachineId σ' = _lastMachineId σ
    ∧ machine_heap σ' = machine_heap σ
    ∧ (∀ q v, user_heap σ !! q = Some v → user_heap σ' !! q = Some v).
Proof.
  intros Hus. revert gm σ.
  induction Hus as [|u us [Hid Hcodec] _ IH]; intros gm σ.
  { exists gm, σ. simpl. split; [done|]. split; [|done].
    by rewrite union_empty_r_L. }
  destruct (Hcodec (mjoin (User_Save <$> us) ++ rest)) as (u' & Hload & Hid').
  csimpl. rewrite <- app_assoc, Hload.
  unfold lift at 1. unfold mbind at 1. unfold M_bind at 1. cbn beta iota.
  rewrite (bind_run _ _ _ _ _ (new_user_run σ u')).
  set (p := fresh (dom (user_heap σ))). set (σ1 := set_user_heap _ σ).
  assert (user_heap σ1 !! p = Some u') as Hp by apply lookup_insert_eq.
  rewrite (bind_run _ _ _ _ _ (AddUser_preset gm σ1 p u' Hp ltac:(congruence))).
  cbn beta iota.
  destruct (IH (set_users (<[User_GetId u' := p]> (_users gm)) gm) σ1)
    as (gm' & σ' & Hrun & Hdom & Hm & Hlu & Hlm & Hmh & Hframe).
  exists gm', σ'. split; [done|]. split; [|repeat (split; [done|])].
  - rewrite Hdom. csimpl. rewrite dom_insert_L, Hid', (assoc_L (∪)).
    f_equal. apply (comm_L (∪)).
  - intros q v Hq. apply Hframe. simpl. rewrite lookup_insert_ne; [done|].
    intros <-. apply elem_of_dom_2 in Hq. by apply is_fresh in Hq.
Qed.

Lemma load_machines_run (ms : list Machine) gm σ rest :
  Forall (λ m, Machine_GetId m ≠ 0 ∧ machine_codec_ok m) ms →
  ∃ gm' σ',
    load_machines (length ms) gm (mjoin (Machine_Save <$> ms) ++ rest) σ
    = Some ((gm', rest), σ')
    ∧ dom (_machines gm')
      = dom (_machines gm) ∪ list_to_set (Machine_GetId <$> ms)
    ∧ _users gm' = _users gm
    ∧ _lastUserId σ' = _lastUserId σ
    ∧ _lastMachineId σ' = _lastMachineId σ
    ∧ user_heap σ' = user_heap σ.
Proof.
  intros Hms. revert gm σ.
  induction Hms as [|m ms [Hid Hcodec] _ IH]; intros gm σ.
  { exists gm, σ. simpl. split; [done|]. split; [|done].
    by rewrite union_empty_r_L. }
  destruct (Hcodec (mjoin (Machine_Save <$> ms) ++ rest)) as (m' & Hload & Hid').
  csimpl. rewrite <- app_assoc, Hload.
  unfold lift at 1. unfold mbind at 1. unfold M_bind at 1. cbn beta iota.
  rewrite (bind_run _ _ _ _ _ (new_machine_run σ m')).
  set (p := fresh (dom (machine_heap σ))). set (σ1 := set_machine_heap _ σ).
  assert (machine_heap σ1 !! p = Some m') as Hp by apply lookup_insert_eq.
  rewrite (bind_run _ _ _ _ _
             (AddMachine_preset gm σ1 p m' Hp ltac:(congruence))).
  cbn beta iota.
  destruct (IH (set_machines (<[Machine_GetId m' := p]> (_machines gm)) gm) σ1)
    as (gm' & σ' & Hrun & Hdom & Hm & Hlu & Hlm & Hmh).
  exists gm', σ'. split; [done|]. split; [|done].
  rewrite Hdom. csimpl. rewrite dom_insert_L, Hid', (assoc_L (∪)).
  f_equal. apply (comm_L (∪)).
Qed.

Lemma Load_snapshot a b (us : list User) (ms : list Machine) σ rest :
  is_uint a → is_uint b →
  is_uint (Z.of_nat (length us)) → is_uint (Z.of_nat (length ms)) →
  Forall (λ u, User_GetId u ≠ 0 ∧ user_codec_ok u) us →
  Forall (λ m, Machine_GetId m ≠ 0 ∧ machine_codec_ok m) ms →
  ∃ gm' σ',
    Load (snapshot a b us ms ++ rest) σ = Some ((gm', rest), σ')
    ∧ dom (_users gm') = list_to_set (User_GetId <$> us)
    ∧ dom (_machines gm') = list_to_set (Machine_GetId <$> ms)
    ∧ _lastUserId σ' = a
    ∧ _lastMachineId σ' = b
    ∧ (∀ q v, user_heap σ !! q = Some v → user_heap σ' !! q = Some v).
Proof.
  intros Ha Hb Hnu Hnm Hus Hms. unfold Load, snapshot.
  rewrite <- !app_assoc.
  rewrite (ReadUInt32_uint32_bytes a) by done.
  unfold mbind at 1. unfold M_bind at 1. unfold lift at 1. cbn beta iota.
  unfold mbind at 1. unfold M_bind at 1. unfold modify at 1. cbn beta iota.
  rewrite (ReadUInt32_uint32_bytes b) by done.
  unfold mbind at 1. unfold M_bind at 1. unfold lift at 1. cbn beta iota.
  unfold mbind at 1. unfold M_bind at 1. unfold modify at 1. cbn beta iota.
  rewrite (ReadUInt32_uint32_bytes (Z.of_nat (length us))) by done.
  unfold mbind at 1. unfold M_bind at 1. unfold lift at 1. cbn beta iota.
  rewrite Nat2Z.id.
  set (σ0 := set_lastMachineId b (set_lastUserId a σ)).
  destruct (load_users_run us {| _users := ∅; _machines := ∅ |} σ0
              (uint32_bytes (Z.of_nat (length ms))
               ++ mjoin (Machine_Save <$> ms) ++ rest) Hus)
    as (gm1 & σ1 & Hrun1 & Hdom1 & Hm1 & Hlu1 & Hlm1 & _ & Hframe).
  rewrite (bind_run _ _ _ _ _ Hrun1). cbn beta iota.
  rewrite (ReadUInt32_uint32_bytes (Z.of_nat (length ms))) by done.
  unfold mbind at 1. unfold M_bind at 1. unfold lift at 1. cbn beta iota.
  rewrite Nat2Z.id.
  destruct (load_machines_run ms gm1 σ1 rest Hms)
    as (gm2 & σ2 & Hrun2 & Hdom2 & Hu2 & Hlu2 & Hlm2 & Huh2).
  rewrite (bind_run _ _ _ _ _ Hrun2). cbn beta iota.
  exists gm2, σ2. split; [done|].
  split; [rewrite Hu2, Hdom1; simpl; by rewrite dom_empty_L, union_empty_l_L|].
  split; [rewrite Hdom2, Hm1; simpl; by rewrite dom_empty_L, union_empty_l_L|].
  split; [by rewrite Hlu2, Hlu1|]. split; [by rewrite Hlm2, Hlm1|].
  intros q v Hq. rewrite Huh2. by apply Hframe.
Qed.

Lemma Forall_Forall2_exists {A B : Type} (P : A → B → Prop) (l : list A) :
  Forall (λ a, ∃ b, P a b) l → ∃ k, Forall2 P l k.
Proof.
  induction 1 as [|a l [b Hb] _ [k Hk]]; [by exists []|].
  exists (b :: k). by constructor.
Qed.

(** [Save] writes the snapshot of the counters and of the registered users
    and machines in ascending order of id. *)
Lemma Save_snapshot this σ bb0 :
  well_formed σ this →
  ∃ us ms,
    Forall2 (λ kp u, user_heap σ !! kp.2 = Some u ∧ User_GetId u = kp.1
                     ∧ 0 < kp.1 ≤ UINT_MAX ∧ user_codec_ok u)
      (map_items (_users this)) us
    ∧ Forall2 (λ kp m, machine_heap σ !! kp.2 = Some m ∧ Machine_GetId m = kp.1
                       ∧ 0 < kp.1 ≤ UINT_MAX ∧ machine_codec_ok m)
        (map_items (_machines this)) ms
    ∧ Save bb0 this σ
      = Some ((true, bb0 ++ snapshot (_lastUserId σ) (_lastMachineId σ) us ms), σ).
Proof.
  intros (Hus & Hms & _ & _).
  destruct (Forall_Forall2_exists _ _ Hus) as [us Hus2].
  destruct (Forall_Forall2_exists _ _ Hms) as [ms Hms2].
  exists us, ms. split; [done|]. split; [done|].
  unfold Save. unfold mbind at 1. unfold M_bind at 1. unfold get_process at 1.
  cbn beta iota zeta.
  erewrite bind_run.
  2:{ apply save_users_run with (us := us). apply Forall2_fmap_l.
      eapply Forall2_impl; [exact Hus2|]. by intros kp u [? _]. }
  erewrite bind_run.
  2:{ apply save_machines_run with (ms := ms). apply Forall2_fmap_l.
      eapply Forall2_impl; [exact Hms2|]. by intros kp m [? _]. }
  unfold mret, M_ret, WriteUInt32, snapshot.
  rewrite <- (length_map_items (_users this)).
  rewrite <- (length_map_items (_machines this)).
  rewrite (Forall2_length _ _ _ Hus2), (Forall2_length _ _ _ Hms2).
  by rewrite <- !app_assoc.
Qed.

Lemma Forall2_fmap_eq {A B C : Type} (f : A → C) (g : B → C) l k :
  Forall2 (λ a b, g b = f a) l k → g <$> k = f <$> l.
Proof. induction 1; csimpl; congruence. Qed.

(** What [Save] writes for a well-formed manager can be read by [Load], in
    any process state; the new manager has the ids of the saved one and the
    counters are those that were saved. *)
Lemma Load_Save_roundtrip this σ σ2 rest :
  well_formed σ this →
  ∃ us ms gm' σ',
    Forall2 (λ kp u, user_heap σ !! kp.2 = Some u) (map_items (_users this)) us
    ∧ Forall2 (λ kp m, machine_heap σ !! kp.2 = Some m)
        (map_items (_machines this)) ms
    ∧ Save [] this σ
      = Some ((true, snapshot (_lastUserId σ) (_lastMachineId σ) us ms), σ)
    ∧ Load (snapshot (_lastUserId σ) (_lastMachineId σ) us ms ++ rest) σ2
      = Some ((gm', rest), σ')
    ∧ dom (_users gm') = dom (_users this)
    ∧ dom (_machines gm') = dom (_machines this)
    ∧ _lastUserId σ' = _lastUserId σ
    ∧ _lastMachineId σ' = _lastMachineId σ
    ∧ (∀ q v, user_heap σ2 !! q = Some v → user_heap σ' !! q = Some v).
Proof.
  intros Hwf. destruct (Save_snapshot this σ [] Hwf) as (us & ms & Hus & Hms & Hsave).
  destruct Hwf as (Hus0 & Hms0 & Hlu & Hlm).
  destruct (Load_snapshot (_lastUserId σ) (_lastMachineId σ) us ms σ2 rest)
    as (gm' & σ' & Hload & Hdu & Hdm & Hlu' & Hlm' & Hframe); [done|done|..].
  - rewrite <- (Forall2_length _ _ _ Hus), length_map_items.
    apply size_is_uint. eapply Forall_impl; [exact Hus0|].
    by intros kp (u & _ & _ & ? & _).
  - rewrite <- (Forall2_length _ _ _ Hms), length_map_items.
    apply size_is_uint. eapply Forall_impl; [exact Hms0|].
    by intros kp (m & _ & _ & ? & _).
  - apply (Forall2_Forall_r _ _ _ _ Hus). apply Forall_forall.
    intros kp _ u (_ & Hid & Hr & Hc). split; [lia|done].
  - apply (Forall2_Forall_r _ _ _ _ Hms). apply Forall_forall.
    intros kp _ m (_ & Hid & Hr & Hc). split; [lia|done].
  - exists us, ms, gm', σ'.
    split; [eapply Forall2_impl; [exact Hus|]; by intros kp u [? _]|].
    split; [eapply Forall2_impl; [exact Hms|]; by intros kp m [? _]|].
    split; [exact Hsave|]. split; [exact Hload|].
    split; [|split; [|done]].
    + rewrite Hdu, dom_map_items. f_equal.
      apply Forall2_fmap_eq. eapply Forall2_impl; [exact Hus|].
      by intros kp u (_ & ? & _).
    + rewrite Hdm, dom_map_items. f_equal.
      apply Forall2_fmap_eq. eapply Forall2_impl; [exact Hms|].
      by intros kp m (_ & ? & _).
Qed.

(** C4.  For a well-formed manager (every registered pointer is live, every
    entity carries the nonzero id under which it is registered, its record
    can be read back with its id, the counters are [uint]s): [Save] writes,
    in this order, lastUserId, lastMachineId, the number of users, the
    records of the users in ascending order of id, the number of machines
    and the records of the machines; [Load] of these bytes, in any process
    state, returns a manager with the same set of user ids, the same set of
    machine ids and the same numbers of users and machines, and leaves the
    two counters at the values that were saved. *)
Theorem Load_Save_fidelity this σ σ2 rest :
  well_formed σ this →
  ∃ bb us ms gm' σ',
    Save [] this σ = Some ((true, bb), σ)
    ∧ Forall2 (λ kp u, user_heap σ !! kp.2 = Some u) (map_items (_users this)) us
    ∧ Forall2 (λ kp m, machine_heap σ !! kp.2 = Some m)
        (map_items (_machines this)) ms
    ∧ bb = uint32_bytes (_lastUserId σ) ++ uint32_bytes (_lastMachineId σ)
           ++ uint32_bytes (Z.of_nat (size (_users this)))
           ++ mjoin (User_Save <$> us)
           ++ uint32_bytes (Z.of_nat (size (_machines this)))
           ++ mjoin (Machine_Save <$> ms)
    ∧ Load (bb ++ rest) σ2 = Some ((gm', rest), σ')
    ∧ dom (_users gm') = dom (_users this)
    ∧ dom (_machines gm') = dom (_machines this)
    ∧ _lastUserId σ' = _lastUserId σ
    ∧ _lastMachineId σ' = _lastMachineId σ
    ∧ size (_users gm') = size (_users this)
    ∧ size (_machines gm') = size (_machines this).
Proof.
  intros Hwf.
  destruct (Load_Save_roundtrip this σ σ2 rest Hwf)
    as (us & ms & gm' & σ' & Hus & Hms & Hsave & Hload & Hdu & Hdm & Hlu & Hlm & _).
  exists (snapshot (_lastUserId σ) (_lastMachineId σ) us ms), us, ms, gm', σ'.
  split; [done|]. split; [done|]. split; [done|]. split.
  { unfold snapshot.
    by rewrite <- (Forall2_length _ _ _ Hus), <- (Forall2_length _ _ _ Hms),
      !length_map_items. }
  split; [done|]. split; [done|]. split; [done|]. split; [done|]. split; [done|].
  split.
  - by rewrite <- (size_dom (D := gset Z) (_users gm')), Hdu, size_dom.
  - by rewrite <- (size_dom (D := gset Z) (_machines gm')), Hdm, size_dom.
Qed.

(** ** The counters belong to the process *)

(** [Load] overwrites both counters before it does anything else: what it
    computes does not depend on the values they had. *)
Lemma Load_replaces_counters bb σ x y :
  Load bb (set_lastUserId x (set_lastMachineId y σ)) = Load bb σ.
Proof.
  unfold Load, mbind, M_bind, lift, modify.
  destruct (ReadUInt32 bb) as [[a bb1]|]; [|done].
  destruct (ReadUInt32 bb1) as [[b bb2]|]; [|done].
  reflexivity.
Qed.

(** C10.  The id counters are state of the process, shared by all managers.
    A zero-id [AddUser] on a manager [gm1] that returns [n], followed by a
    zero-id [AddUser] on another manager [gm2], returns the successor of [n]
    in [uint] arithmetic.  After [Load] of a snapshot that was saved from a
    manager [gm0] in a state [σ0], the counters have the saved values for
    every manager: the next zero-id [AddUser] on a manager [gm1] that was
    live before the [Load] returns the successor of the saved counter.  And
    the outcome of [Load] does not depend on the previous counters. *)
Theorem counters_are_process_wide gm1 gm2 gm0 σ σ0 p1 p2 u1 u2 rest :
  p1 ≠ p2 →
  user_heap σ !! p1 = Some u1 → User_GetId u1 = 0 →
  user_heap σ !! p2 = Some u2 → User_GetId u2 = 0 →
  well_formed σ0 gm0 →
  (∃ n gm1' σ1 gm2' σ2,
      AddUser (Some p1) gm1 σ = Some ((n, gm1'), σ1)
      ∧ n = wrap32 (_lastUserId σ + 1)
      ∧ AddUser (Some p2) gm2 σ1 = Some ((wrap32 (n + 1), gm2'), σ2)
      ∧ (n < UINT_MAX → wrap32 (n + 1) = n + 1))
  ∧ (∃ bb gm' σ' gm1' σ1,
      Save [] gm0 σ0 = Some ((true, bb), σ0)
      ∧ Load (bb ++ rest) σ = Some ((gm', rest), σ')
      ∧ _lastUserId σ' = _lastUserId σ0
      ∧ _lastMachineId σ' = _lastMachineId σ0
      ∧ AddUser (Some p1) gm1 σ'
        = Some ((wrap32 (_lastUserId σ0 + 1), gm1'), σ1))
  ∧ (∀ bb x y, Load bb (set_lastUserId x (set_lastMachineId y σ)) = Load bb σ).
Proof.
  intros Hne Hp1 Hid1 Hp2 Hid2 Hwf. split; [|split].
  - eexists _, _, _, _, _. split; [by apply AddUser_fresh|]. split; [done|].
    split.
    + erewrite AddUser_fresh; [done| |done].
      simpl. by rewrite lookup_insert_ne.
    + intros Hn. apply wrap32_small.
      pose proof (wrap32_is_uint (_lastUserId σ + 1)) as [? _]. lia.
  - destruct (Load_Save_roundtrip gm0 σ0 σ rest Hwf)
      as (us & ms & gm' & σ' & _ & _ & Hsave & Hload & _ & _ & Hlu & Hlm & Hframe).
    eexists _, gm', σ', _, _. split; [exact Hsave|]. split; [exact Hload|].
    split; [done|]. split; [done|].
    rewrite <- Hlu. apply (AddUser_fresh gm1 σ' p1 u1); [by apply Hframe|done].
  - intros bb x y. apply Load_replaces_counters.
Qed.

(** ** The counters and the ids in use *)

Lemma bound_insert (m : gmap Z ptr) k p c :
  (∀ i, i ∈ dom m → i ≤ c) → k ≤ c → ∀ i, i ∈ dom (<[k := p]> m) → i ≤ c.
Proof.
  intros Hm Hk i. rewrite dom_insert_L, elem_of_union, elem_of_singleton.
  intros [->|Hi]; [done|by apply Hm].
Qed.

Lemma bound_delete (m : gmap Z ptr) k c :
  (∀ i, i ∈ dom m → i ≤ c) → ∀ i, i ∈ dom (delete k m) → i ≤ c.
Proof.
  intros Hm i. rewrite dom_delete_L, elem_of_difference. intros [Hi _].
  by apply Hm.
Qed.

Lemma bound_mono (m : gmap Z ptr) c c' :
  (∀ i, i ∈ dom m → i ≤ c) → c ≤ c' → ∀ i, i ∈ dom m → i ≤ c'.
Proof. intros Hm Hc i Hi. specialize (Hm i Hi). lia. Qed.

(** C5, as the code has it.  Let both counters be at least every id of
    their collection (and not negative).  This still holds after a
    registration of a zero-id entity made while the counter is below
    [UINT_MAX], after a registration under a preset nonzero id that is not
    above the counter, after a registration of no entity, after a removal
    (which returns true or false), and after [Load] of a snapshot that was
    saved from a well-formed manager whose counters were ahead of its
    ids. *)
Theorem counters_stay_ahead op this σ this' σ' :
  0 ≤ _lastUserId σ → 0 ≤ _lastMachineId σ →
  counters_bound σ this →
  keeps_counters_ahead σ op →
  run_op op this σ = Some (this', σ') →
  counters_bound σ' this' ∧ 0 ≤ _lastUserId σ' ∧ 0 ≤ _lastMachineId σ'.
Proof.
  intros Hcu Hcm [Hbu Hbm] Hop Hrun. unfold counters_bound.
  destruct op as [[p|]|[p|]|id|id|bb]; simpl in Hop; unfold run_op in Hrun.
  - apply bind_inv in Hrun as ([n gm] & σ1 & Hadd & Hret).
    injection Hret as -> ->.
    destruct (AddUser_inv _ _ _ _ Hadd) as [u Hu]. specialize (Hop u Hu).
    destruct (decide (User_GetId u = 0)) as [Hz|Hnz].
    + rewrite (AddUser_fresh _ _ _ _ Hu Hz) in Hadd.
      injection Hadd as <- <- <-. simpl. rewrite wrap32_small by lia.
      split; [split|lia].
      * apply bound_insert; [|lia]. eapply bound_mono; [exact Hbu|lia].
      * done.
    + rewrite (AddUser_preset _ _ _ _ Hu Hnz) in Hadd.
      injection Hadd as <- <- <-. simpl.
      split; [split|done]; [by apply bound_insert|done].
  - injection Hrun as <- <-. done.
  - apply bind_inv in Hrun as ([n gm] & σ1 & Hadd & Hret).
    injection Hret as -> ->.
    destruct (AddMachine_inv _ _ _ _ Hadd) as [m Hm]. specialize (Hop m Hm).
    destruct (decide (Machine_GetId m = 0)) as [Hz|Hnz].
    + rewrite (AddMachine_fresh _ _ _ _ Hm Hz) in Hadd.
      injection Hadd as <- <- <-. simpl. rewrite wrap32_small by lia.
      split; [split|lia].
      * done.
      * apply bound_insert; [|lia]. eapply bound_mono; [exact Hbm|lia].
    + rewrite (AddMachine_preset _ _ _ _ Hm Hnz) in Hadd.
      injection Hadd as <- <- <-. simpl.
      split; [split|done]; [done|by apply bound_insert].
  - injection Hrun as <- <-. done.
  - apply bind_inv in Hrun as ([b gm] & σ1 & Hrem & Hret).
    injection Hret as -> ->.
    apply RemoveUser_inv in Hrem as (Hu & Hm & -> & ->).
    rewrite Hu, Hm. split; [split|done]; [|done].
    destruct b; [by apply bound_delete|done].
  - apply bind_inv in Hrun as ([b gm] & σ1 & Hrem & Hret).
    injection Hret as -> ->.
    apply RemoveMachine_inv in Hrem as (Hm & Hu & -> & ->).
    rewrite Hu, Hm. split; [split|done]; [done|].
    destruct b; [by apply bound_delete|done].
  - destruct Hop as (gm0 & σ0 & saved & rest & Hwf & [Hbu0 Hbm0] & Hsave & ->).
    destruct (Load_Save_roundtrip gm0 σ0 σ rest Hwf)
      as (us & ms & gm' & σ1 & _ & _ & Hsave' & Hload & Hdu & Hdm & Hlu & Hlm & _).
    rewrite Hsave in Hsave'. injection Hsave' as ->.
    rewrite (bind_run _ _ _ _ _ Hload) in Hrun. injection Hrun as <- <-.
    rewrite Hdu, Hdm, Hlu, Hlm. destruct Hwf as (_ & _ & [? _] & [? _]).
    done.
Qed.

End Properties.

(** * Further properties *)

Section FurtherProperties.
Context `{Collaborators}.

Implicit Types (σ : Process) (this gm : GridManager) (p q job : ptr).

(** ** Queries *)

Lemma select_read_only (f : Process → ptr → bool) (l : list ptr) σ :
  select (read_only f) l σ = Some (filter (λ p, f σ p = true) l, σ).
Proof.
  induction l as [|p l IH]; [done|]. cbn [select].
  unfold mbind at 1. unfold M_bind. unfold read_only at 1.
  rewrite (bind_run _ _ _ _ _ IH). unfold mret, M_ret.
  destruct (f σ p) eqn:Hf.
  - by rewrite filter_cons_True.
  - by rewrite filter_cons_False by congruence.
Qed.

Lemma select_jobs_read_only (f : Process → ptr → bool) (l : list ptr) σ :
  all_live (machine_heap σ) l = true →
  select_jobs (read_only f) l σ
  = Some (l ≫= (λ p, filter (λ j, f σ j = true) (jobs_at (machine_heap σ) p)),
          σ).
Proof.
  induction l as [|p l IH]; intros Hl; [done|].
  simpl in Hl. apply andb_true_iff in Hl as [Hp Hl].
  apply bool_decide_eq_true in Hp as [m Hm].
  cbn [select_jobs]. rewrite (bind_run _ _ _ _ _ (deref_machine_live _ _ _ Hm)).
  rewrite (bind_run _ _ _ _ _ (select_read_only f _ σ)).
  rewrite (bind_run _ _ _ _ _ (IH Hl)). csimpl.
  unfold jobs_at at 2. by rewrite Hm.
Qed.

(** X1.  A query over the users (over the machines) with a predicate that
    only reads returns the registered users (machines) of which the
    predicate holds, each registered pointer that matches and nothing else,
    in ascending order of id, and leaves the process as it was. *)
Theorem ApplyPredicate_registry_matches (f : Process → ptr → bool) this σ :
  (∃ result,
      ApplyPredicate KindUser (read_only f) this σ = Some (result, σ)
      ∧ result = filter (λ p, f σ p = true) (map_items (_users this)).*2
      ∧ (∀ p, p ∈ result ↔ f σ p = true ∧ ∃ k, GetUser k this = Some p))
  ∧ (∃ result,
      ApplyPredicate KindMachine (read_only f) this σ = Some (result, σ)
      ∧ result = filter (λ p, f σ p = true) (map_items (_machines this)).*2
      ∧ (∀ p, p ∈ result ↔ f σ p = true ∧ ∃ k, GetMachine k this = Some p)).
Proof.
  assert (∀ (m : gmap Z ptr) p,
            p ∈ filter (λ p, f σ p = true) (map_items m).*2
            ↔ f σ p = true ∧ ∃ k, m !! k = Some p) as Hmem.
  { intros m p. rewrite list_elem_of_filter, list_elem_of_fmap.
    split; intros [Hf Hp]; (split; [done|]).
    - destruct Hp as ([k q] & -> & Hk). exists k. by apply elem_of_map_items.
    - destruct Hp as [k Hk]. exists (k, p). split; [done|].
      by apply elem_of_map_items. }
  split; eexists; (split; [apply select_read_only|]); (split; [done|]);
    apply Hmem.
Qed.

(** X2.  A query over the jobs with a predicate that only reads, all
    registered machines being live, returns the jobs of the registered
    machines of which the predicate holds, machine after machine in
    ascending order of machine id, and leaves the process as it was; a job
    is returned once if no job is held twice. *)
Theorem ApplyPredicate_Job_matches (f : Process → ptr → bool) this σ :
  machines_live σ this →
  ∃ result,
    ApplyPredicate KindJob (read_only f) this σ = Some (result, σ)
    ∧ result
      = (map_items (_machines this)).*2
          ≫= (λ p, filter (λ j, f σ j = true) (jobs_at (machine_heap σ) p))
    ∧ (∀ j, j ∈ result
            ↔ f σ j = true
              ∧ ∃ k p m, GetMachine k this = Some p
                         ∧ machine_heap σ !! p = Some m
                         ∧ j ∈ (Machine_GetJobs m).*2)
    ∧ (NoDup ((map_items (_machines this)).*2 ≫= jobs_at (machine_heap σ)) →
       NoDup result).
Proof.
  intros Hlive. eexists. split; [by apply select_jobs_read_only|].
  split; [done|]. split.
  - intros j. rewrite list_elem_of_bind. split.
    + intros (p & Hj & Hp). apply list_elem_of_filter in Hj as [Hf Hj].
      split; [done|]. apply list_elem_of_fmap in Hp as ([k q] & -> & Hk).
      apply elem_of_map_items in Hk. simpl in Hj. unfold jobs_at in Hj.
      destruct (machine_heap σ !! q) as [m|] eqn:Hm; simpl in Hj.
      * by exists k, q, m.
      * by apply elem_of_nil in Hj.
    + intros (Hf & k & p & m & Hk & Hm & Hj). exists p. split.
      * apply list_elem_of_filter. split; [done|]. unfold jobs_at.
        by rewrite Hm.
      * apply list_elem_of_fmap. exists (k, p). split; [done|].
        by apply elem_of_map_items.
  - generalize (map_items (_machines this)).*2 as l.
    induction l as [|p l IH]; csimpl; [done|].
    rewrite !NoDup_app. intros (Hp & Hdisj & Hl).
    split; [by apply NoDup_filter|]. split; [|by apply IH].
    intros j Hj Hj'. apply list_elem_of_filter in Hj as [_ Hj].
    apply (Hdisj j Hj). apply list_elem_of_bind in Hj' as (q & Hj' & Hq).
    apply list_elem_of_filter in Hj' as [_ Hj'].
    apply list_elem_of_bind. by exists q.
Qed.

(** ** Removal by pointer *)

Lemma find_if_None {A : Type} (pred : A → bool) (l : list A) :
  (∀ x, x ∈ l → pred x = false) → find_if pred l = None.
Proof.
  induction l as [|x l IH]; intros Hl; [done|]. simpl.
  rewrite (Hl x) by left. apply IH. intros y Hy. apply Hl. by right.
Qed.

Lemma find_if_None_inv {A : Type} (pred : A → bool) (l : list A) x :
  find_if pred l = None → x ∈ l → pred x = false.
Proof.
  induction l as [|y l IH]; intros Hfind Hx; [by apply elem_of_nil in Hx|].
  simpl in Hfind. destruct (pred y) eqn:Hy; [done|].
  apply elem_of_cons in Hx as [->|Hx]; [done|by apply IH].
Qed.

Lemma find_if_Some {A : Type} (pred : A → bool) (l : list A) x :
  find_if pred l = Some x → pred x = true ∧ x ∈ l.
Proof.
  induction l as [|y l IH]; intros Hfind; [done|].
  simpl in Hfind. destruct (pred y) eqn:Hy.
  - injection Hfind as <-. split; [done|by left].
  - destruct (IH Hfind). split; [done|by right].
Qed.

Lemma find_if_first {A : Type} (pred : A → bool) (l1 l2 : list A) x :
  (∀ y, y ∈ l1 → pred y = false) → pred x = true →
  find_if pred (l1 ++ x :: l2) = Some x.
Proof.
  induction l1 as [|y l1 IH]; intros Hl Hx; simpl; [by rewrite Hx|].
  rewrite (Hl y) by left. apply IH; [|done]. intros z Hz. apply Hl. by right.
Qed.

(** The first entry of the iteration that holds a pointer is the entry of
    the least id that holds it. *)
Lemma find_by_pointer_least (m : gmap Z ptr) k p :
  m !! k = Some p → (∀ k', k' < k → m !! k' ≠ Some p) →
  find_if (λ kp, bool_decide (Some kp.2 = Some p)) (map_items m) = Some (k, p).
Proof.
  intros Hk Hleast.
  assert ((k, p) ∈ map_items m) as Hin by by apply elem_of_map_items.
  apply list_elem_of_split in Hin as (l1 & l2 & Hsplit).
  pose proof (map_items_sorted m) as Hsorted. rewrite Hsplit in Hsorted.
  apply StronglySorted_app in Hsorted as (Hbefore & _ & _).
  rewrite Hsplit. apply find_if_first; [|by apply bool_decide_eq_true].
  intros [k' p'] Hy. apply bool_decide_eq_false. intros [= ->].
  apply (Hleast k').
  - apply (Hbefore (k', p) (k, p)); [done|by left].
  - apply elem_of_map_items. rewrite Hsplit. apply elem_of_app. by left.
Qed.

Lemma find_by_pointer_absent (m : gmap Z ptr) (user : option ptr) :
  (∀ k p, m !! k = Some p → Some p ≠ user) →
  find_if (λ kp, bool_decide (Some kp.2 = user)) (map_items m) = None.
Proof.
  intros Habs. apply find_if_None. intros [k p] Hkp.
  apply bool_decide_eq_false. apply (Habs k). by apply elem_of_map_items.
Qed.

(** X3.  Removal by pointer returns false and changes nothing when the
    pointer is null or is not registered.  When the pointer is registered,
    it does what removal by id does for the least id under which the
    pointer is registered.  Both for users and for machines. *)
Theorem Remove_by_pointer_is_Remove_by_id this σ :
  RemoveUser_by_pointer None this σ = Some ((false, this), σ)
  ∧ RemoveMachine_by_pointer None this σ = Some ((false, this), σ)
  ∧ (∀ p, (∀ k, GetUser k this ≠ Some p) →
          RemoveUser_by_pointer (Some p) this σ = Some ((false, this), σ))
  ∧ (∀ p, (∀ k, GetMachine k this ≠ Some p) →
          RemoveMachine_by_pointer (Some p) this σ = Some ((false, this), σ))
  ∧ (∀ k p, GetUser k this = Some p →
            (∀ k', k' < k → GetUser k' this ≠ Some p) →
            RemoveUser_by_pointer (Some p) this σ = RemoveUser k this σ)
  ∧ (∀ k p, GetMachine k this = Some p →
            (∀ k', k' < k → GetMachine k' this ≠ Some p) →
            RemoveMachine_by_pointer (Some p) this σ = RemoveMachine k this σ).
Proof.
  unfold GetUser, GetMachine, RemoveUser_by_pointer, RemoveMachine_by_pointer.
  split; [by rewrite find_by_pointer_absent|].
  split; [by rewrite find_by_pointer_absent|].
  split.
  { intros p Habs. rewrite find_by_pointer_absent; [done|].
    intros k q Hk [= ->]. by apply (Habs k). }
  split.
  { intros p Habs. rewrite find_by_pointer_absent; [done|].
    intros k q Hk [= ->]. by apply (Habs k). }
  split.
  - intros k p Hk Hleast. rewrite (find_by_pointer_least _ k p) by done.
    unfold RemoveUser. by rewrite Hk.
  - intros k p Hk Hleast. rewrite (find_by_pointer_least _ k p) by done.
    unfold RemoveMachine. by rewrite Hk.
Qed.

(** ** Entities registered with more than one manager *)

Lemma all_live_dangling (h : gmap ptr Machine) (l : list ptr) p :
  p ∈ l → h !! p = None → all_live h l = false.
Proof.
  intros Hp Hdead. destruct (all_live h l) eqn:Hl; [|done].
  apply (proj1 (all_live_spec _ _) Hl) in Hp as [m Hm]. congruence.
Qed.

Lemma RemoveUser_dangling this σ k p :
  _users this !! k = Some p → user_heap σ !! p = None →
  RemoveUser k this σ = None.
Proof.
  intros Hk Hp.
  unfold RemoveUser, delete_user, deref_user, get_process, lift, mbind, M_bind.
  by rewrite Hk, Hp.
Qed.

Lemma RemoveMachine_dangling this σ k p :
  _machines this !! k = Some p → machine_heap σ !! p = None →
  RemoveMachine k this σ = None.
Proof.
  intros Hk Hp.
  unfold RemoveMachine, delete_machine, deref_machine, get_process, lift,
    mbind, M_bind.
  by rewrite Hk, Hp.
Qed.

Lemma AddJob_dangling this σ job k p :
  _machines this !! k = Some p → machine_heap σ !! p = None →
  AddJob (Some job) this σ = None.
Proof.
  intros Hk Hp. unfold AddJob, mbind, M_bind, get_process.
  rewrite (all_live_dangling _ _ p); [done| |done].
  apply (list_elem_of_fmap_2 snd _ (k, p)). by apply elem_of_map_items.
Qed.

(** X4.  No manager knows of the other owners of an entity.  When a user
    (a machine) is registered with two managers and is removed through the
    first, the object is deleted while the second manager keeps its entry:
    removing it there deletes a deleted object, and submitting a job there
    reads a deleted machine; both are undefined. *)
Theorem removal_leaves_other_manager_dangling gm1 gm2 σ k1 k2 pu u pm m :
  GetUser k1 gm1 = Some pu → GetUser k2 gm2 = Some pu →
  user_heap σ !! pu = Some u →
  GetMachine k1 gm1 = Some pm → GetMachine k2 gm2 = Some pm →
  machine_heap σ !! pm = Some m →
  (∃ gm1' σ',
      RemoveUser k1 gm1 σ = Some ((true, gm1'), σ')
      ∧ user_heap σ' !! pu = None
      ∧ RemoveUser k2 gm2 σ' = None
      ∧ RemoveUser_by_pointer (Some pu) gm2 σ' = None)
  ∧ (∃ gm1' σ',
      RemoveMachine k1 gm1 σ = Some ((true, gm1'), σ')
      ∧ machine_heap σ' !! pm = None
      ∧ RemoveMachine k2 gm2 σ' = None
      ∧ ∀ job, AddJob (Some job) gm2 σ' = None).
Proof.
  unfold GetUser, GetMachine. intros Hu1 Hu2 Hu Hm1 Hm2 Hm. split.
  - eexists _, _. split; [by eapply RemoveUser_present|].
    assert (user_heap (set_user_heap (delete pu (user_heap σ)) σ) !! pu = None)
      as Hdead by apply lookup_delete_eq.
    split; [done|]. split; [by eapply RemoveUser_dangling|].
    unfold RemoveUser_by_pointer.
    destruct (find_if _ _) as [[k p]|] eqn:Hfind.
    + apply find_if_Some in Hfind as [Hp _].
      apply bool_decide_eq_true in Hp as [= ->].
      unfold delete_user, deref_user, get_process, lift, mbind, M_bind.
      simpl. by rewrite lookup_delete_eq.
    + apply find_if_None_inv with (x := (k2, pu)) in Hfind.
      * by apply bool_decide_eq_false in Hfind.
      * by apply elem_of_map_items.
  - eexists _, _. split; [by eapply RemoveMachine_present|].
    assert (machine_heap (set_machine_heap (delete pm (machine_heap σ)) σ)
              !! pm = None) as Hdead by apply lookup_delete_eq.
    split; [done|]. split; [by eapply RemoveMachine_dangling|].
    intros job. by eapply AddJob_dangling.
Qed.

(** ** The destructor *)

Lemma delete_user_live σ p u :
  user_heap σ !! p = Some u →
  delete_user p σ = Some ((), set_user_heap (delete p (user_heap σ)) σ).
Proof.
  intros Hp. unfold delete_user.
  by rewrite (bind_run _ _ _ _ _ (deref_user_live _ _ _ Hp)).
Qed.

Lemma delete_machine_live σ p m :
  machine_heap σ !! p = Some m →
  delete_machine p σ
  = Some ((), set_machine_heap (delete p (machine_heap σ)) σ).
Proof.
  intros Hp. unfold delete_machine.
  by rewrite (bind_run _ _ _ _ _ (deref_machine_live _ _ _ Hp)).
Qed.

Lemma delete_users_run (l : list ptr) σ :
  NoDup l → Forall (λ p, is_Some (user_heap σ !! p)) l →
  ∃ h, delete_users l σ = Some ((), set_user_heap h σ)
       ∧ (∀ p, p ∈ l → h !! p = None)
       ∧ (∀ q, q ∉ l → h !! q = user_heap σ !! q).
Proof.
  revert σ. induction l as [|p l IH]; intros σ Hnd Hlive.
  { exists (user_heap σ). split; [by destruct σ|]. split; [|done].
    intros p Hp. by apply elem_of_nil in Hp. }
  apply NoDup_cons in Hnd as [Hp Hnd].
  apply Forall_cons in Hlive as [[u Hu] Hlive].
  cbn [delete_users]. rewrite (bind_run _ _ _ _ _ (delete_user_live _ _ _ Hu)).
  destruct (IH (set_user_heap (delete p (user_heap σ)) σ) Hnd)
    as (h & Hrun & Hin & Hout).
  { apply Forall_forall. intros q Hq. simpl.
    rewrite lookup_delete_ne by (by intros ->).
    by apply (proj1 (Forall_forall _ _) Hlive). }
  exists h. split; [exact Hrun|]. simpl in Hout. split.
  - intros q Hq. apply elem_of_cons in Hq as [->|Hq]; [|by apply Hin].
    rewrite Hout by done. apply lookup_delete_eq.
  - intros q Hq. apply not_elem_of_cons in Hq as [Hqp Hq].
    rewrite Hout by done. by apply lookup_delete_ne.
Qed.

Lemma delete_machines_run (l : list ptr) σ :
  NoDup l → all_live (machine_heap σ) l = true →
  ∃ h, delete_machines l σ = Some ((), set_machine_heap h σ)
       ∧ (∀ p, p ∈ l → h !! p = None)
       ∧ (∀ q, q ∉ l → h !! q = machine_heap σ !! q).
Proof.
  revert σ. induction l as [|p l IH]; intros σ Hnd Hlive.
  { exists (machine_heap σ). split; [by destruct σ|]. split; [|done].
    intros p Hp. by apply elem_of_nil in Hp. }
  apply NoDup_cons in Hnd as [Hp Hnd].
  simpl in Hlive. apply andb_true_iff in Hlive as [Hm Hlive].
  apply bool_decide_eq_true in Hm as [m Hm].
  cbn [delete_machines].
  rewrite (bind_run _ _ _ _ _ (delete_machine_live _ _ _ Hm)).
  destruct (IH (set_machine_heap (delete p (machine_heap σ)) σ) Hnd)
    as (h & Hrun & Hin & Hout).
  { apply all_live_spec. intros q Hq. simpl.
    rewrite lookup_delete_ne by (by intros ->).
    by apply (proj1 (all_live_spec _ _) Hlive). }
  exists h. split; [exact Hrun|]. simpl in Hout. split.
  - intros q Hq. apply elem_of_cons in Hq as [->|Hq]; [|by apply Hin].
    rewrite Hout by done. apply lookup_delete_eq.
  - intros q Hq. apply not_elem_of_cons in Hq as [Hqp Hq].
    rewrite Hout by done. by apply lookup_delete_ne.
Qed.

(** A loop of deletions that returns went over live objects, each once. *)
Lemma delete_users_inv (l : list ptr) σ r :
  delete_users l σ = Some r →
  NoDup l ∧ Forall (λ p, is_Some (user_heap σ !! p)) l
  ∧ machine_heap r.2 = machine_heap σ.
Proof.
  revert σ. induction l as [|p l IH]; intros σ Hrun.
  { injection Hrun as <-. split; [constructor|]. by split. }
  cbn [delete_users] in Hrun.
  apply bind_inv in Hrun as ([] & σ1 & Hdel & Hrun).
  destruct (user_heap σ !! p) as [u|] eqn:Hu.
  2:{ unfold delete_user, deref_user, get_process, lift, mbind, M_bind in Hdel.
      by rewrite Hu in Hdel. }
  rewrite (delete_user_live _ _ _ Hu) in Hdel. injection Hdel as <-.
  destruct (IH _ Hrun) as (Hnd & Hlive & Hmh). simpl in Hlive, Hmh.
  rewrite Forall_forall in Hlive.
  assert (p ∉ l) as Hp.
  { intros Hp. destruct (Hlive p Hp) as [v Hv].
    by rewrite lookup_delete_eq in Hv. }
  split; [by constructor|]. split; [|done].
  constructor; [by exists u|]. apply Forall_forall. intros q Hq.
  destruct (Hlive q Hq) as [v Hv].
  rewrite lookup_delete_ne in Hv by (by intros ->). by exists v.
Qed.

Lemma delete_machines_inv (l : list ptr) σ r :
  delete_machines l σ = Some r →
  NoDup l ∧ all_live (machine_heap σ) l = true.
Proof.
  revert σ. induction l as [|p l IH]; intros σ Hrun.
  { split; [constructor|done]. }
  cbn [delete_machines] in Hrun.
  apply bind_inv in Hrun as ([] & σ1 & Hdel & Hrun).
  destruct (machine_heap σ !! p) as [m|] eqn:Hm.
  2:{ unfold delete_machine, deref_machine, get_process, lift, mbind, M_bind
        in Hdel.
      by rewrite Hm in Hdel. }
  rewrite (delete_machine_live _ _ _ Hm) in Hdel. injection Hdel as <-.
  destruct (IH _ Hrun) as (Hnd & Hlive). simpl in Hlive.
  assert (p ∉ l) as Hp.
  { intros Hp. destruct (proj1 (all_live_spec _ _) Hlive p Hp) as [v Hv].
    by rewrite lookup_delete_eq in Hv. }
  split; [by constructor|]. apply all_live_spec. intros q Hq.
  apply elem_of_cons in Hq as [->|Hq]; [by exists m|].
  destruct (proj1 (all_live_spec _ _) Hlive q Hq) as [v Hv].
  rewrite lookup_delete_ne in Hv by (by intros ->). by exists v.
Qed.

Lemma registered_pointers (m : gmap Z ptr) q :
  q ∈ (map_items m).*2 ↔ ∃ k, m !! k = Some q.
Proof.
  rewrite list_elem_of_fmap. split.
  - intros ([k p] & -> & Hk). exists k. by apply elem_of_map_items.
  - intros [k Hk]. exists (k, q). split; [done|]. by apply elem_of_map_items.
Qed.

Lemma destructor_run this σ :
  users_live σ this → machines_live σ this →
  NoDup (map_items (_users this)).*2 →
  NoDup (map_items (_machines this)).*2 →
  ∃ hu hm,
    GridManager_destructor this σ
    = Some ((), set_machine_heap hm (set_user_heap hu σ))
    ∧ (∀ p, p ∈ (map_items (_users this)).*2 → hu !! p = None)
    ∧ (∀ q, q ∉ (map_items (_users this)).*2 → hu !! q = user_heap σ !! q)
    ∧ (∀ p, p ∈ (map_items (_machines this)).*2 → hm !! p = None)
    ∧ (∀ q, q ∉ (map_items (_machines this)).*2 →
            hm !! q = machine_heap σ !! q).
Proof.
  intros Hul Hml Hndu Hndm.
  destruct (delete_users_run _ σ Hndu Hul) as (hu & Hdu & Huin & Huout).
  destruct (delete_machines_run _ (set_user_heap hu σ) Hndm Hml)
    as (hm & Hdm & Hmin & Hmout).
  exists hu, hm. unfold GridManager_destructor.
  rewrite (bind_run _ _ _ _ _ Hdu). by rewrite Hdm.
Qed.

Lemma destructor_inv this σ r :
  GridManager_destructor this σ = Some r →
  users_live σ this ∧ machines_live σ this
  ∧ NoDup (map_items (_users this)).*2
  ∧ NoDup (map_items (_machines this)).*2.
Proof.
  intros Hdes. unfold GridManager_destructor in Hdes.
  apply bind_inv in Hdes as ([] & σ1 & Hdu & Hdm).
  apply delete_users_inv in Hdu as (Hndu & Hul & Hmh).
  apply delete_machines_inv in Hdm as (Hndm & Hml).
  simpl in Hmh. rewrite Hmh in Hml. done.
Qed.

(** X5.  The destructor is defined exactly when every registered user and
    machine is live and none is registered under two ids.  It then deletes
    every registered user and machine and nothing else; the two id counters
    are static and keep their values, so a manager created afterwards goes
    on with fresh ids. *)
Theorem destructor_deletes_the_registered this σ :
  (is_Some (GridManager_destructor this σ)
   ↔ users_live σ this ∧ machines_live σ this
     ∧ NoDup (map_items (_users this)).*2
     ∧ NoDup (map_items (_machines this)).*2)
  ∧ (∀ σ', GridManager_destructor this σ = Some ((), σ') →
       (∀ k p, GetUser k this = Some p → user_heap σ' !! p = None)
       ∧ (∀ k p, GetMachine k this = Some p → machine_heap σ' !! p = None)
       ∧ (∀ q, (∀ k, GetUser k this ≠ Some q) →
               user_heap σ' !! q = user_heap σ !! q)
       ∧ (∀ q, (∀ k, GetMachine k this ≠ Some q) →
               machine_heap σ' !! q = machine_heap σ !! q)
       ∧ _lastUserId σ' = _lastUserId σ
       ∧ _lastMachineId σ' = _lastMachineId σ
       ∧ calls σ' = calls σ).
Proof.
  split; [split|].
  - intros [r Hdes]. by eapply destructor_inv.
  - intros (Hul & Hml & Hndu & Hndm).
    destruct (destructor_run this σ Hul Hml Hndu Hndm) as (hu & hm & -> & _).
    eauto.
  - intros σ' Hdes.
    destruct (destructor_inv _ _ _ Hdes) as (Hul & Hml & Hndu & Hndm).
    destruct (destructor_run this σ Hul Hml Hndu Hndm)
      as (hu & hm & Hrun' & Huin & Huout & Hmin & Hmout).
    rewrite Hrun' in Hdes. injection Hdes as <-. simpl.
    unfold GetUser, GetMachine.
    split; [intros k p Hk; apply Huin, registered_pointers; eauto|].
    split; [intros k p Hk; apply Hmin, registered_pointers; eauto|].
    split.
    { intros q Hq. apply Huout. intros [k Hk]%registered_pointers.
      by apply (Hq k). }
    split; [|done].
    intros q Hq. apply Hmout. intros [k Hk]%registered_pointers.
    by apply (Hq k).
Qed.

(** ** Saving *)

Lemma save_users_state (l : list ptr) bb σ r :
  save_users l bb σ = Some r → r.2 = σ.
Proof.
  revert bb. induction l as [|p l IH]; intros bb Hrun.
  { by injection Hrun as <-. }
  cbn [save_users] in Hrun. apply bind_inv in Hrun as (u & σ1 & Hu & Hrun).
  unfold deref_user, get_process, lift, mbind, M_bind in Hu.
  destruct (user_heap σ !! p); [|done]. injection Hu as _ <-. by eapply IH.
Qed.

Lemma save_users_dangling (l : list ptr) bb σ p :
  p ∈ l → user_heap σ !! p = None → save_users l bb σ = None.
Proof.
  intros Hp Hdead. revert bb. induction l as [|q l IH]; intros bb.
  { by apply elem_of_nil in Hp. }
  cbn [save_users]. destruct (user_heap σ !! q) as [u|] eqn:Hq.
  - rewrite (bind_run _ _ _ _ _ (deref_user_live _ _ _ Hq)).
    apply elem_of_cons in Hp as [->|Hp]; [congruence|by apply IH].
  - unfold deref_user, get_process, lift, mbind, M_bind. by rewrite Hq.
Qed.

Lemma save_machines_dangling (l : list ptr) bb σ p :
  p ∈ l → machine_heap σ !! p = None → save_machines l bb σ = None.
Proof.
  intros Hp Hdead. revert bb. induction l as [|q l IH]; intros bb.
  { by apply elem_of_nil in Hp. }
  cbn [save_machines]. destruct (machine_heap σ !! q) as [m|] eqn:Hq.
  - rewrite (bind_run _ _ _ _ _ (deref_machine_live _ _ _ Hq)).
    apply elem_of_cons in Hp as [->|Hp]; [congruence|by apply IH].
  - unfold deref_machine, get_process, lift, mbind, M_bind. by rewrite Hq.
Qed.

Lemma Save_run_live this σ :
  users_live σ this → machines_live σ this →
  ∃ s, ∀ bb0, Save bb0 this σ = Some ((true, bb0 ++ s), σ).
Proof.
  intros Hul Hml.
  destruct (Forall_Forall2_exists
              (λ p u, user_heap σ !! p = Some u) (map_items (_users this)).*2)
    as [us Hus]; [exact Hul|].
  destruct (Forall_Forall2_exists
              (λ p m, machine_heap σ !! p = Some m)
              (map_items (_machines this)).*2) as [ms Hms].
  { apply Forall_forall. intros p Hp.
    by apply (proj1 (all_live_spec _ _) Hml). }
  exists (uint32_bytes (_lastUserId σ) ++ uint32_bytes (_lastMachineId σ)
          ++ uint32_bytes (Z.of_nat (size (_users this)))
          ++ mjoin (User_Save <$> us)
          ++ uint32_bytes (Z.of_nat (size (_machines this)))
          ++ mjoin (Machine_Save <$> ms)).
  intros bb0. unfold Save. unfold mbind at 1. unfold M_bind at 1.
  unfold get_process at 1. cbn beta iota zeta.
  rewrite (bind_run _ _ _ _ _ (save_users_run _ _ _ _ Hus)).
  rewrite (bind_run _ _ _ _ _ (save_machines_run _ _ _ _ Hms)).
  unfold mret, M_ret, WriteUInt32. by rewrite <- !app_assoc.
Qed.

(** X7.  [Save] only appends: when every registered user and machine is
    live it returns true, leaves the process as it was, and adds to the
    buffer, after what the buffer held, bytes that do not depend on what it
    held.  When a registered user or machine is not live, [Save] reads a
    deleted object and is undefined. *)
Theorem Save_appends this σ :
  (users_live σ this → machines_live σ this →
   ∃ s, ∀ bb0, Save bb0 this σ = Some ((true, bb0 ++ s), σ))
  ∧ (∀ bb0 k p, GetUser k this = Some p → user_heap σ !! p = None →
                Save bb0 this σ = None)
  ∧ (∀ bb0 k p, GetMachine k this = Some p → machine_heap σ !! p = None →
                Save bb0 this σ = None).
Proof.
  unfold GetUser, GetMachine. split; [apply Save_run_live|split].
  - intros bb0 k p Hk Hdead. unfold Save. unfold mbind at 1.
    unfold M_bind at 1. unfold get_process at 1. cbn beta iota zeta.
    unfold mbind at 1. unfold M_bind at 1.
    rewrite (save_users_dangling _ _ _ p); [done| |done].
    apply (list_elem_of_fmap_2 snd _ (k, p)). by apply elem_of_map_items.
  - intros bb0 k p Hk Hdead. unfold Save. unfold mbind at 1.
    unfold M_bind at 1. unfold get_process at 1. cbn beta iota zeta.
    unfold mbind at 1. unfold M_bind at 1.
    destruct (save_users _ _ σ) as [[bb1 σ1]|] eqn:Hsu; [|done].
    apply save_users_state in Hsu. simpl in Hsu. subst σ1.
    unfold mbind at 1. unfold M_bind at 1.
    rewrite (save_machines_dangling _ _ _ p); [done| |done].
    apply (list_elem_of_fmap_2 snd _ (k, p)). by apply elem_of_map_items.
Qed.

Lemma well_formed_live σ this :
  well_formed σ this → users_live σ this ∧ machines_live σ this.
Proof.
  intros (Hu & Hm & _). split.
  - apply Forall_fmap. eapply Forall_impl; [exact Hu|].
    intros kp (u & Hlive & _). simpl. eauto.
  - apply all_live_spec. intros p Hp.
    apply list_elem_of_fmap in Hp as (kp & -> & Hkp).
    destruct (proj1 (Forall_forall _ _) Hm kp Hkp) as (m & Hlive & _). eauto.
Qed.

(** X8.  Two managers saved one after the other into one buffer are read
    back by two calls of [Load], in the order in which they were saved: the
    first call stops where the second snapshot begins.  Each new manager
    has the ids of the manager it was saved from and the counters end at
    the saved values. *)
Theorem two_snapshots_in_one_buffer gm1 gm2 σ σ2 rest :
  well_formed σ gm1 → well_formed σ gm2 →
  ∃ bb1 bb2 gm1' gm2' σ3 σ4,
    Save [] gm1 σ = Some ((true, bb1), σ)
    ∧ Save bb1 gm2 σ = Some ((true, bb1 ++ bb2), σ)
    ∧ Load (bb1 ++ bb2 ++ rest) σ2 = Some ((gm1', bb2 ++ rest), σ3)
    ∧ Load (bb2 ++ rest) σ3 = Some ((gm2', rest), σ4)
    ∧ dom (_users gm1') = dom (_users gm1)
    ∧ dom (_machines gm1') = dom (_machines gm1)
    ∧ dom (_users gm2') = dom (_users gm2)
    ∧ dom (_machines gm2') = dom (_machines gm2)
    ∧ _lastUserId σ4 = _lastUserId σ
    ∧ _lastMachineId σ4 = _lastMachineId σ.
Proof.
  intros Hwf1 Hwf2.
  destruct (Save_snapshot gm2 σ [] Hwf2) as (us2 & ms2 & _ & _ & Hsave2).
  rewrite app_nil_l in Hsave2.
  set (bb2 := snapshot (_lastUserId σ) (_lastMachineId σ) us2 ms2) in *.
  destruct (Load_Save_roundtrip gm1 σ σ2 (bb2 ++ rest) Hwf1)
    as (us1 & ms1 & gm1' & σ3 & _ & _ & Hsave1 & Hload1 & Hdu1 & Hdm1 & _).
  set (bb1 := snapshot (_lastUserId σ) (_lastMachineId σ) us1 ms1) in *.
  destruct (Load_Save_roundtrip gm2 σ σ3 rest Hwf2)
    as (us2' & ms2' & gm2' & σ4 & _ & _ & Hsave2' & Hload2 & Hdu2 & Hdm2
        & Hlu & Hlm & _).
  assert (snapshot (_lastUserId σ) (_lastMachineId σ) us2' ms2' = bb2) as Hbb2.
  { rewrite Hsave2 in Hsave2'. congruence. }
  rewrite Hbb2 in Hload2.
  destruct (well_formed_live _ _ Hwf2) as [Hul Hml].
  destruct (Save_run_live gm2 σ Hul Hml) as [s Hs].
  assert (s = bb2) as ->.
  { pose proof (Hs []) as Hs0. rewrite Hsave2 in Hs0. simpl in Hs0. congruence. }
  exists bb1, bb2, gm1', gm2', σ3, σ4.
  split; [done|]. split; [apply Hs|]. split; [exact Hload1|].
  split; [exact Hload2|]. done.
Qed.

(** ** Loading *)

Lemma owned_empty {V : Type} (heap : gmap ptr V) : owned heap ∅.
Proof. split; intros *; by rewrite lookup_empty. Qed.

Lemma owned_insert {V : Type} (heap heap' : gmap ptr V) reg id p :
  owned heap reg → heap !! p = None → is_Some (heap' !! p) →
  (∀ q, q ≠ p → heap' !! q = heap !! q) →
  owned heap' (<[id := p]> reg).
Proof.
  intros [Hlive Hinj] Hdead Hnew Hold. split.
  - intros k q. destruct (decide (k = id)) as [->|Hk].
    + rewrite lookup_insert_eq. by intros [= <-].
    + rewrite lookup_insert_ne by done. intros Hq.
      rewrite Hold; [by eapply Hlive|].
      intros ->. apply Hlive in Hq. rewrite Hdead in Hq. by destruct Hq.
  - intros k1 k2 q.
    destruct (decide (k1 = id)) as [->|Hk1];
      destruct (decide (k2 = id)) as [->|Hk2]; [done| | |].
    + rewrite lookup_insert_eq, lookup_insert_ne by done.
      intros [= <-] Hq. apply Hlive in Hq. rewrite Hdead in Hq.
      by destruct Hq.
    + rewrite lookup_insert_eq, lookup_insert_ne by done.
      intros Hq [= <-]. apply Hlive in Hq. rewrite Hdead in Hq.
      by destruct Hq.
    + rewrite !lookup_insert_ne by done. apply Hinj.
Qed.

Lemma owned_NoDup {V : Type} (heap : gmap ptr V) reg :
  owned heap reg → NoDup (map_items reg).*2.
Proof.
  intros [_ Hinj]. apply NoDup_fmap_2_strong.
  - intros [k1 p1] [k2 p2] H1%elem_of_map_items H2%elem_of_map_items.
    simpl. intros <-. f_equal. by eapply Hinj.
  - eapply NoDup_fmap_1, map_items_NoDup_keys.
Qed.

Lemma AddUser_effect this σ p u :
  user_heap σ !! p = Some u →
  ∃ id σ',
    AddUser (Some p) this σ
    = Some ((id, set_users (<[id := p]> (_users this)) this), σ')
    ∧ is_Some (user_heap σ' !! p)
    ∧ (∀ q, q ≠ p → user_heap σ' !! q = user_heap σ !! q)
    ∧ machine_heap σ' = machine_heap σ
    ∧ calls σ' = calls σ.
Proof.
  intros Hp. destruct (decide (User_GetId u = 0)) as [Hid|Hid].
  - eexists _, _. split; [by apply AddUser_fresh|]. simpl.
    rewrite lookup_insert_eq. split; [eauto|].
    split; [|done]. intros q Hq. by rewrite lookup_insert_ne.
  - eexists _, _. split; [by apply AddUser_preset|]. rewrite Hp. eauto.
Qed.

Lemma AddMachine_effect this σ p m :
  machine_heap σ !! p = Some m →
  ∃ id σ',
    AddMachine (Some p) this σ
    = Some ((id, set_machines (<[id := p]> (_machines this)) this), σ')
    ∧ is_Some (machine_heap σ' !! p)
    ∧ (∀ q, q ≠ p → machine_heap σ' !! q = machine_heap σ !! q)
    ∧ user_heap σ' = user_heap σ
    ∧ calls σ' = calls σ.
Proof.
  intros Hp. destruct (decide (Machine_GetId m = 0)) as [Hid|Hid].
  - eexists _, _. split; [by apply AddMachine_fresh|]. simpl.
    rewrite lookup_insert_eq. split; [eauto|].
    split; [|done]. intros q Hq. by rewrite lookup_insert_ne.
  - eexists _, _. split; [by apply AddMachine_preset|]. rewrite Hp. eauto.
Qed.

Lemma load_users_new n : ∀ gm bb σ gm' bb' σ',
  load_users n gm bb σ = Some ((gm', bb'), σ') →
  (∀ q v, user_heap σ !! q = Some v → user_heap σ' !! q = Some v)
  ∧ machine_heap σ' = machine_heap σ
  ∧ calls σ' = calls σ
  ∧ _machines gm' = _machines gm
  ∧ (∀ k p, _users gm' !! k = Some p →
            _users gm !! k = Some p ∨ user_heap σ !! p = None)
  ∧ (owned (user_heap σ) (_users gm) → owned (user_heap σ') (_users gm')).
Proof.
  induction n as [|n IH]; intros gm bb σ gm' bb' σ' Hrun.
  { injection Hrun as <- <- <-. eauto 10. }
  simpl in Hrun.
  apply bind_inv in Hrun as ([u bb1] & σ0 & Hlift & Hrun).
  unfold lift in Hlift. destruct (User_Load bb) as [[u0 bb0]|]; [|done].
  injection Hlift as -> -> <-.
  apply bind_inv in Hrun as (p & σ1 & Hnew & Hrun).
  rewrite new_user_run in Hnew. injection Hnew as <- <-.
  set (p := fresh (dom (user_heap σ))) in *.
  assert (Hdead : user_heap σ !! p = None).
  { apply not_elem_of_dom, is_fresh. }
  apply bind_inv in Hrun as ([id gm2] & σ2 & Hadd & Hrun).
  destruct (AddUser_effect gm
              (set_user_heap (<[p := u]> (user_heap σ)) σ) p u)
    as (id' & σ2' & Hadd' & Hlive & Hothers & Hmh & Hcalls).
  { simpl. by rewrite lookup_insert_eq. }
  pose proof (eq_trans (eq_sym Hadd') Hadd) as Heq.
  injection Heq as <- <- <-. clear Hadd.
  simpl in Hothers, Hmh, Hcalls.
  apply IH in Hrun as (Hkeep & Hmh' & Hcalls' & Hms & Hreg & Hown).
  simpl in Hms, Hreg, Hown.
  assert (Hkeep0 : ∀ q v, user_heap σ !! q = Some v →
                          user_heap σ2' !! q = Some v).
  { intros q v Hq. assert (q ≠ p) by (intros ->; congruence).
    rewrite Hothers by done. by rewrite lookup_insert_ne. }
  split; [by eauto|]. split; [congruence|]. split; [congruence|].
  split; [done|]. split.
  - intros k q Hk. destruct (Hreg k q Hk) as [Hin|Hnone].
    + destruct (decide (k = id')) as [->|Hne].
      * rewrite lookup_insert_eq in Hin. injection Hin as <-. by right.
      * rewrite lookup_insert_ne in Hin by done. by left.
    + right. destruct (user_heap σ !! q) as [v|] eqn:Hq; [|done].
      apply Hkeep0 in Hq. congruence.
  - intros Hown0. apply Hown.
    apply (owned_insert (user_heap σ)); [done..|].
    intros q Hq. rewrite Hothers by done. by rewrite lookup_insert_ne.
Qed.

Lemma load_machines_new n : ∀ gm bb σ gm' bb' σ',
  load_machines n gm bb σ = Some ((gm', bb'), σ') →
  (∀ q v, machine_heap σ !! q = Some v → machine_heap σ' !! q = Some v)
  ∧ user_heap σ' = user_heap σ
  ∧ calls σ' = calls σ
  ∧ _users gm' = _users gm
  ∧ (∀ k p, _machines gm' !! k = Some p →
            _machines gm !! k = Some p ∨ machine_heap σ !! p = None)
  ∧ (owned (machine_heap σ) (_machines gm) →
     owned (machine_heap σ') (_machines gm')).
Proof.
  induction n as [|n IH]; intros gm bb σ gm' bb' σ' Hrun.
  { injection Hrun as <- <- <-. eauto 10. }
  simpl in Hrun.
  apply bind_inv in Hrun as ([u bb1] & σ0 & Hlift & Hrun).
  unfold lift in Hlift. destruct (Machine_Load bb) as [[u0 bb0]|]; [|done].
  injection Hlift as -> -> <-.
  apply bind_inv in Hrun as (p & σ1 & Hnew & Hrun).
  rewrite new_machine_run in Hnew. injection Hnew as <- <-.
  set (p := fresh (dom (machine_heap σ))) in *.
  assert (Hdead : machine_heap σ !! p = None).
  { apply not_elem_of_dom, is_fresh. }
  apply bind_inv in Hrun as ([id gm2] & σ2 & Hadd & Hrun).
  destruct (AddMachine_effect gm
              (set_machine_heap (<[p := u]> (machine_heap σ)) σ) p u)
    as (id' & σ2' & Hadd' & Hlive & Hothers & Huh & Hcalls).
  { simpl. by rewrite lookup_insert_eq. }
  pose proof (eq_trans (eq_sym Hadd') Hadd) as Heq.
  injection Heq as <- <- <-. clear Hadd.
  simpl in Hothers, Huh, Hcalls.
  apply IH in Hrun as (Hkeep & Huh' & Hcalls' & Hus & Hreg & Hown).
  simpl in Hus, Hreg, Hown.
  assert (Hkeep0 : ∀ q v, machine_heap σ !! q = Some v →
                          machine_heap σ2' !! q = Some v).
  { intros q v Hq. assert (q ≠ p) by (intros ->; congruence).
    rewrite Hothers by done. by rewrite lookup_insert_ne. }
  split; [by eauto|]. split; [congruence|]. split; [congruence|].
  split; [done|]. split.
  - intros k q Hk. destruct (Hreg k q Hk) as [Hin|Hnone].
    + destruct (decide (k = id')) as [->|Hne].
      * rewrite lookup_insert_eq in Hin. injection Hin as <-. by right.
      * rewrite lookup_insert_ne in Hin by done. by left.
    + right. destruct (machine_heap σ !! q) as [v|] eqn:Hq; [|done].
      apply Hkeep0 in Hq. congruence.
  - intros Hown0. apply Hown.
    apply (owned_insert (machine_heap σ)); [done..|].
    intros q Hq. rewrite Hothers by done. by rewrite lookup_insert_ne.
Qed.

(** X9.  A manager returned by [Load] owns what it registers: every
    registered user and machine is an object that [Load] itself allocated
    (it was not live before and is live afterwards), no object is
    registered under two ids, and the objects that were live before the
    call are left as they were.  The manager can therefore be destroyed
    right away, and destroying it touches none of the earlier objects. *)
Theorem Load_registers_only_new_objects bb σ gm' rest σ' :
  Load bb σ = Some ((gm', rest), σ') →
  (∀ q v, user_heap σ !! q = Some v → user_heap σ' !! q = Some v)
  ∧ (∀ q v, machine_heap σ !! q = Some v → machine_heap σ' !! q = Some v)
  ∧ calls σ' = calls σ
  ∧ (∀ k p, GetUser k gm' = Some p →
            user_heap σ !! p = None ∧ is_Some (user_heap σ' !! p))
  ∧ (∀ k p, GetMachine k gm' = Some p →
            machine_heap σ !! p = None ∧ is_Some (machine_heap σ' !! p))
  ∧ (∀ k1 k2 p, GetUser k1 gm' = Some p → GetUser k2 gm' = Some p → k1 = k2)
  ∧ (∀ k1 k2 p,
       GetMachine k1 gm' = Some p → GetMachine k2 gm' = Some p → k1 = k2)
  ∧ ∃ σ'', GridManager_destructor gm' σ' = Some ((), σ'')
           ∧ (∀ q v, user_heap σ !! q = Some v → user_heap σ'' !! q = Some v)
           ∧ (∀ q v, machine_heap σ !! q = Some v →
                     machine_heap σ'' !! q = Some v).
Proof.
  unfold Load, GetUser, GetMachine. intros Hrun.
  apply bind_inv in Hrun as ([v1 bb1] & σ0 & Hr1 & Hrun).
  unfold lift in Hr1. destruct (ReadUInt32 bb) as [[v1' bb1']|]; [|done].
  injection Hr1 as -> -> <-.
  apply bind_inv in Hrun as ([] & σ1 & Hm1 & Hrun).
  injection Hm1 as <-.
  apply bind_inv in Hrun as ([v2 bb2] & σ0 & Hr2 & Hrun).
  unfold lift in Hr2. destruct (ReadUInt32 bb1) as [[v2' bb2']|]; [|done].
  injection Hr2 as -> -> <-.
  apply bind_inv in Hrun as ([] & σ2 & Hm2 & Hrun).
  injection Hm2 as <-.
  apply bind_inv in Hrun as ([n1 bb3] & σ0 & Hr3 & Hrun).
  unfold lift in Hr3. destruct (ReadUInt32 bb2) as [[n1' bb3']|]; [|done].
  injection Hr3 as -> -> <-.
  apply bind_inv in Hrun as ([gm1 bb4] & σ3 & Hlu & Hrun).
  apply bind_inv in Hrun as ([n2 bb5] & σ0 & Hr4 & Hrun).
  unfold lift in Hr4. destruct (ReadUInt32 bb4) as [[n2' bb5']|]; [|done].
  injection Hr4 as -> -> <-.
  apply bind_inv in Hrun as ([gm2 bb6] & σ4 & Hlm & Hrun).
  injection Hrun as -> -> ->.
  apply load_users_new in Hlu
    as (Hukeep & Humh & Hucalls & Hums & Hureg & Huown).
  apply load_machines_new in Hlm
    as (Hmkeep & Hmuh & Hmcalls & Hmus & Hmreg & Hmown).
  simpl in *.
  specialize (Huown (owned_empty _)). rewrite Hums in Hmreg, Hmown.
  specialize (Hmown (owned_empty _)).
  rewrite <- Hmus, <- Hmuh in Huown. rewrite Humh in Hmkeep, Hmreg.
  assert (Hunew : ∀ k p, _users gm' !! k = Some p →
            user_heap σ !! p = None ∧ is_Some (user_heap σ' !! p)).
  { intros k p Hk. split; [|by eapply (proj1 Huown)].
    rewrite Hmus in Hk. destruct (Hureg k p Hk) as [Hin|]; [|done].
    by rewrite lookup_empty in Hin. }
  assert (Hmnew : ∀ k p, _machines gm' !! k = Some p →
            machine_heap σ !! p = None ∧ is_Some (machine_heap σ' !! p)).
  { intros k p Hk. split; [|by eapply (proj1 Hmown)].
    destruct (Hmreg k p Hk) as [Hin|]; [|done].
    by rewrite lookup_empty in Hin. }
  split; [by rewrite Hmuh|]. split; [done|]. split; [congruence|].
  split; [done|]. split; [done|].
  split; [apply Huown|]. split; [apply Hmown|].
  destruct (destructor_run gm' σ')
    as (hu & hm & Hdes & _ & Huout & _ & Hmout).
  { apply Forall_forall. intros p [k Hk]%registered_pointers.
    by eapply (proj1 Huown). }
  { apply all_live_spec. intros p [k Hk]%registered_pointers.
    by eapply (proj1 Hmown). }
  { by eapply owned_NoDup. }
  { by eapply owned_NoDup. }
  eexists. split; [exact Hdes|]. simpl. split.
  - intros q v Hq. rewrite Huout; [rewrite Hmuh; by apply Hukeep|].
    intros [k Hk]%registered_pointers. apply Hunew in Hk as [Hk _].
    congruence.
  - intros q v Hq. rewrite Hmout; [by apply Hmkeep|].
    intros [k Hk]%registered_pointers. apply Hmnew in Hk as [Hk _].
    congruence.
Qed.

(** ** Registration, twice and undone *)

(** X10.  Registration is idempotent as long as the id it returns is not
    0: registering the same user (machine) again returns the same id and
    changes neither the manager nor the process, the setter and the getter
    of the id being taken with their contract.  The id returned for a live
    unnumbered object is 0 only when the counter wraps around; the object
    then still counts as unnumbered, and a second registration enters it
    under the id 1 as well. *)
Theorem registration_is_idempotent this σ :
  (∀ p u id gm1 σ1,
     user_heap σ !! p = Some u →
     AddUser (Some p) this σ = Some ((id, gm1), σ1) →
     User_GetId (User_SetId id u) = id →
     (id ≠ 0 → AddUser (Some p) gm1 σ1 = Some ((id, gm1), σ1))
     ∧ (id = 0 →
        wrap32 (_lastUserId σ + 1) = 0
        ∧ ∃ gm2 σ2, AddUser (Some p) gm1 σ1 = Some ((1, gm2), σ2)
                    ∧ GetUser 0 gm2 = Some p ∧ GetUser 1 gm2 = Some p))
  ∧ (∀ p m id gm1 σ1,
     machine_heap σ !! p = Some m →
     AddMachine (Some p) this σ = Some ((id, gm1), σ1) →
     Machine_GetId (Machine_SetId id m) = id →
     (id ≠ 0 → AddMachine (Some p) gm1 σ1 = Some ((id, gm1), σ1))
     ∧ (id = 0 →
        wrap32 (_lastMachineId σ + 1) = 0
        ∧ ∃ gm2 σ2, AddMachine (Some p) gm1 σ1 = Some ((1, gm2), σ2)
                    ∧ GetMachine 0 gm2 = Some p ∧ GetMachine 1 gm2 = Some p)).
Proof.
  split.
  - intros p u id gm1 σ1 Hp Hadd Hlaw.
    destruct (decide (User_GetId u = 0)) as [Hid|Hid].
    + rewrite (AddUser_fresh _ _ _ _ Hp Hid) in Hadd.
      injection Hadd as Hi <- <-. rewrite Hi in *. split.
      * intros Hne. etransitivity.
        { apply AddUser_preset with (u := User_SetId id u).
          - simpl. apply lookup_insert_eq.
          - by rewrite Hlaw. }
        rewrite Hlaw. simpl. by rewrite insert_insert_eq.
      * intros ->. split; [done|]. do 2 eexists. split.
        { etransitivity; [|reflexivity].
          apply AddUser_fresh with (u := User_SetId 0 u); [|done].
          simpl. apply lookup_insert_eq. }
        unfold GetUser. simpl. change (wrap32 (0 + 1)) with 1.
        rewrite lookup_insert_ne by done.
        by rewrite !lookup_insert_eq.
    + rewrite (AddUser_preset _ _ _ _ Hp Hid) in Hadd.
      injection Hadd as <- <- <-. split; [|done].
      intros _. rewrite (AddUser_preset _ _ _ u) by done.
      simpl. by rewrite insert_insert_eq.
  - intros p m id gm1 σ1 Hp Hadd Hlaw.
    destruct (decide (Machine_GetId m = 0)) as [Hid|Hid].
    + rewrite (AddMachine_fresh _ _ _ _ Hp Hid) in Hadd.
      injection Hadd as Hi <- <-. rewrite Hi in *. split.
      * intros Hne. etransitivity.
        { apply AddMachine_preset with (m := Machine_SetId id m).
          - simpl. apply lookup_insert_eq.
          - by rewrite Hlaw. }
        rewrite Hlaw. simpl. by rewrite insert_insert_eq.
      * intros ->. split; [done|]. do 2 eexists. split.
        { etransitivity; [|reflexivity].
          apply AddMachine_fresh with (m := Machine_SetId 0 m); [|done].
          simpl. apply lookup_insert_eq. }
        unfold GetMachine. simpl. change (wrap32 (0 + 1)) with 1.
        rewrite lookup_insert_ne by done.
        by rewrite !lookup_insert_eq.
    + rewrite (AddMachine_preset _ _ _ _ Hp Hid) in Hadd.
      injection Hadd as <- <- <-. split; [|done].
      intros _. rewrite (AddMachine_preset _ _ _ m) by done.
      simpl. by rewrite insert_insert_eq.
Qed.

(** X11.  Removing an entity under the id that its registration returned
    undoes the registration and deletes the object: the call returns true,
    the id is free, the other ids are looked up as before the registration,
    and when the id was free before, the manager is the one before the
    registration.  The counter keeps the advance of the registration, so
    the id is not handed out again. *)
Theorem Add_then_Remove_restores this σ :
  (∀ p u id gm1 σ1,
     user_heap σ !! p = Some u →
     AddUser (Some p) this σ = Some ((id, gm1), σ1) →
     ∃ gm2 σ2,
       RemoveUser id gm1 σ1 = Some ((true, gm2), σ2)
       ∧ GetUser id gm2 = None
       ∧ (∀ k, k ≠ id → GetUser k gm2 = GetUser k this)
       ∧ (∀ k, GetMachine k gm2 = GetMachine k this)
       ∧ (GetUser id this = None → gm2 = this)
       ∧ user_heap σ2 = delete p (user_heap σ)
       ∧ machine_heap σ2 = machine_heap σ
       ∧ _lastUserId σ2 = _lastUserId σ1
       ∧ (User_GetId u = 0 → _lastUserId σ2 = id))
  ∧ (∀ p m id gm1 σ1,
     machine_heap σ !! p = Some m →
     AddMachine (Some p) this σ = Some ((id, gm1), σ1) →
     ∃ gm2 σ2,
       RemoveMachine id gm1 σ1 = Some ((true, gm2), σ2)
       ∧ GetMachine id gm2 = None
       ∧ (∀ k, k ≠ id → GetMachine k gm2 = GetMachine k this)
       ∧ (∀ k, GetUser k gm2 = GetUser k this)
       ∧ (GetMachine id this = None → gm2 = this)
       ∧ machine_heap σ2 = delete p (machine_heap σ)
       ∧ user_heap σ2 = user_heap σ
       ∧ _lastMachineId σ2 = _lastMachineId σ1
       ∧ (Machine_GetId m = 0 → _lastMachineId σ2 = id)).
Proof.
  unfold GetUser, GetMachine. split.
  - intros p u id gm1 σ1 Hp Hadd.
    destruct (decide (User_GetId u = 0)) as [Hid|Hid].
    + rewrite (AddUser_fresh _ _ _ _ Hp Hid) in Hadd.
      injection Hadd as <- <- <-. do 2 eexists.
      split; [eapply RemoveUser_present; simpl; apply lookup_insert_eq|].
      simpl. split; [apply lookup_delete_eq|].
      split; [intros k Hk; by rewrite lookup_delete_ne, lookup_insert_ne|].
      split; [done|].
      split; [intros Hf; rewrite delete_insert_id by done; by destruct this|].
      by rewrite delete_insert_eq.
    + rewrite (AddUser_preset _ _ _ _ Hp Hid) in Hadd.
      injection Hadd as <- <- <-. do 2 eexists.
      split; [eapply RemoveUser_present; [apply lookup_insert_eq|exact Hp]|].
      simpl. split; [apply lookup_delete_eq|].
      split; [intros k Hk; by rewrite lookup_delete_ne, lookup_insert_ne|].
      split; [done|].
      split; [intros Hf; rewrite delete_insert_id by done; by destruct this|].
      done.
  - intros p m id gm1 σ1 Hp Hadd.
    destruct (decide (Machine_GetId m = 0)) as [Hid|Hid].
    + rewrite (AddMachine_fresh _ _ _ _ Hp Hid) in Hadd.
      injection Hadd as <- <- <-. do 2 eexists.
      split; [eapply RemoveMachine_present; simpl; apply lookup_insert_eq|].
      simpl. split; [apply lookup_delete_eq|].
      split; [intros k Hk; by rewrite lookup_delete_ne, lookup_insert_ne|].
      split; [done|].
      split; [intros Hf; rewrite delete_insert_id by done; by destruct this|].
      by rewrite delete_insert_eq.
    + rewrite (AddMachine_preset _ _ _ _ Hp Hid) in Hadd.
      injection Hadd as <- <- <-. do 2 eexists.
      split; [eapply RemoveMachine_present; [apply lookup_insert_eq|exact Hp]|].
      simpl. split; [apply lookup_delete_eq|].
      split; [intros k Hk; by rewrite lookup_delete_ne, lookup_insert_ne|].
      split; [done|].
      split; [intros Hf; rewrite delete_insert_id by done; by destruct this|].
      done.
Qed.

(** ** What the scheduler leaves alone *)

Lemma map_items_empty {V : Type} : map_items (∅ : gmap Z V) = [].
Proof. apply nil_length_inv. by rewrite length_map_items, map_size_empty. Qed.

Lemma offer_frame job l : ∀ σ r σ',
  offer job l σ = Some (r, σ') →
  ∀ q, q ∉ l → machine_heap σ' !! q = machine_heap σ !! q.
Proof.
  induction l as [|p l IH]; intros σ r σ' Hrun q Hq.
  { by injection Hrun as <- <-. }
  apply not_elem_of_cons in Hq as [Hne Hq].
  cbn [offer] in Hrun. apply bind_inv in Hrun as (b & σ1 & Hcall & Hrun).
  destruct (machine_heap σ !! p) as [m|] eqn:Hp.
  - rewrite (call_Machine_AddJob_live _ _ _ _ Hp) in Hcall.
    injection Hcall as <- <-.
    destruct (Machine_AddJob job m).1.
    + injection Hrun as <- <-. simpl. by rewrite lookup_insert_ne.
    + rewrite (IH _ _ _ Hrun q Hq). simpl. by rewrite lookup_insert_ne.
  - unfold call_Machine_AddJob, deref_machine, mbind, M_bind, get_process,
      lift in Hcall. by rewrite Hp in Hcall.
Qed.

(** X12.  The scheduler changes nothing but registered machines.  With no
    job, or with no machine registered, [AddJob] returns false and leaves
    the process as it was.  With a job and every registered machine live it
    returns, makes at most one call per registered id, leaves the counters,
    the users and the machines that are not registered untouched, and
    creates or deletes no machine; the registered machines are live
    afterwards, so the manager can schedule again. *)
Theorem AddJob_changes_only_registered_machines this σ :
  AddJob None this σ = Some (false, σ)
  ∧ (∀ job, _machines this = ∅ → AddJob (Some job) this σ = Some (false, σ))
  ∧ (∀ job, machines_live σ this →
       ∃ r σ',
         AddJob (Some job) this σ = Some (r, σ')
         ∧ _lastUserId σ' = _lastUserId σ
         ∧ _lastMachineId σ' = _lastMachineId σ
         ∧ user_heap σ' = user_heap σ
         ∧ dom (machine_heap σ') = dom (machine_heap σ)
         ∧ (∀ q, (∀ k, GetMachine k this ≠ Some q) →
                 machine_heap σ' !! q = machine_heap σ !! q)
         ∧ machines_live σ' this
         ∧ (length (calls σ') ≤ length (calls σ) + size (_machines this))%nat).
Proof.
  split; [done|]. split.
  - intros job Hempty. unfold AddJob. by rewrite Hempty, map_items_empty.
  - intros job Hlive.
    assert (all_live (machine_heap σ)
              (list_sort (better (machine_heap σ))
                 (map_items (_machines this)).*2) = true) as Hsorted.
    { apply all_live_spec. intros p Hp. rewrite list_sort_perm in Hp.
      revert p Hp. by apply all_live_spec. }
    destruct (offer_calls job _ σ Hsorted)
      as (r & σ' & offered & Hrun & Hpre & Hcalls & _ & Hlu & Hlm & Huh & Hdom).
    exists r, σ'. rewrite AddJob_run by done.
    do 5 (split; [done|]). split; [|split].
    + intros q Hq. apply (offer_frame _ _ _ _ _ Hrun).
      rewrite list_sort_perm. intros [k Hk]%registered_pointers.
      by apply (Hq k).
    + apply machines_live_spec. intros k p Hk.
      apply elem_of_dom. rewrite Hdom. apply elem_of_dom.
      by apply (proj1 (machines_live_spec _ _) Hlive k).
    + rewrite Hcalls, length_app. unfold offers. rewrite length_fmap.
      apply prefix_length in Hpre.
      rewrite list_sort_perm, length_fmap, length_map_items in Hpre. lia.
Qed.

(** ** The tick *)

Lemma count_absent (l : list ptr) p :
  p ∉ l → length (filter (λ q, q = p) l) = 0%nat.
Proof.
  induction l as [|a l IH]; [done|].
  intros [Hne Hl]%not_elem_of_cons.
  rewrite filter_cons_False by (intros ->; done). by apply IH.
Qed.

Lemma count_NoDup (l : list ptr) p :
  NoDup l → p ∈ l → length (filter (λ q, q = p) l) = 1%nat.
Proof.
  induction l as [|a l IH]; intros Hnd Hp; [by apply elem_of_nil in Hp|].
  apply NoDup_cons in Hnd as [Ha Hnd].
  destruct (decide (a = p)) as [->|Hne].
  - rewrite filter_cons_True by done. simpl. by rewrite count_absent.
  - rewrite filter_cons_False by done. apply IH; [done|].
    apply elem_of_cons in Hp as [->|Hp]; done.
Qed.

Section Tick.
Context `{!MachineTick}.

Lemma update_machines_run diff l : ∀ σ,
  all_live (machine_heap σ) l = true →
  ∃ σ',
    update_machines diff l σ = Some ((), σ')
    ∧ (∀ p, machine_heap σ' !! p
            = Nat.iter (length (filter (λ q, q = p) l)) (Machine_Update diff)
              <$> machine_heap σ !! p)
    ∧ user_heap σ' = user_heap σ
    ∧ _lastUserId σ' = _lastUserId σ
    ∧ _lastMachineId σ' = _lastMachineId σ
    ∧ calls σ' = calls σ.
Proof.
  induction l as [|a l IH]; intros σ Hl.
  { exists σ. split; [done|]. split; [|done].
    intros p. simpl. by destruct (machine_heap σ !! p). }
  simpl in Hl. apply andb_true_iff in Hl as [Ha Hl].
  apply bool_decide_eq_true in Ha as Ha'. destruct Ha' as [m Hm].
  cbn [update_machines].
  rewrite (bind_run _ _ _ _ _ (deref_machine_live _ _ _ Hm)).
  destruct (IH (set_machine_heap
                  (<[a := Machine_Update diff m]> (machine_heap σ)) σ))
    as (σ' & Hrun & Hheap & Hrest).
  { simpl. rewrite all_live_insert; [done|eauto]. }
  exists σ'. split; [exact Hrun|]. split; [|exact Hrest].
  intros p. rewrite Hheap. simpl.
  destruct (decide (a = p)) as [->|Hne].
  - rewrite lookup_insert_eq, Hm, filter_cons_True by done. simpl.
    f_equal. symmetry. apply Nat.iter_succ_r.
  - by rewrite lookup_insert_ne, filter_cons_False by done.
Qed.

Lemma update_machines_dangling diff l p : ∀ σ,
  p ∈ l → machine_heap σ !! p = None → update_machines diff l σ = None.
Proof.
  induction l as [|a l IH]; intros σ Hp Hdead; [by apply elem_of_nil in Hp|].
  cbn [update_machines].
  destruct (machine_heap σ !! a) as [m|] eqn:Ha.
  - rewrite (bind_run _ _ _ _ _ (deref_machine_live _ _ _ Ha)).
    apply elem_of_cons in Hp as [->|Hp]; [congruence|].
    apply IH; [done|]. simpl. rewrite lookup_insert_ne; [done|].
    intros ->. congruence.
  - unfold deref_machine, mbind, M_bind, get_process, lift. by rewrite Ha.
Qed.

(** X6.  [Update] ticks a machine once for every id under which it is
    registered: when every registered machine is live, a machine registered
    under n ids is left as n applications of [Machine::Update(diff)] leave
    it; so a machine that is not registered is untouched, and when no
    machine is registered twice every registered machine is ticked exactly
    once.  No machine is created or deleted, and the users, the counters
    and the calls of the scheduler are as before.  When a registered
    machine is not live, [Update] calls through a deleted object and is
    undefined. *)
Theorem Update_ticks_each_registration diff this σ :
  (machines_live σ this →
   ∃ σ',
     Update diff this σ = Some ((), σ')
     ∧ (∀ p, machine_heap σ' !! p
             = Nat.iter
                 (length (filter (λ q, q = p) (map_items (_machines this)).*2))
                 (Machine_Update diff)
               <$> machine_heap σ !! p)
     ∧ (∀ p, (∀ k, GetMachine k this ≠ Some p) →
             machine_heap σ' !! p = machine_heap σ !! p)
     ∧ (NoDup (map_items (_machines this)).*2 →
        ∀ k p m, GetMachine k this = Some p → machine_heap σ !! p = Some m →
                 machine_heap σ' !! p = Some (Machine_Update diff m))
     ∧ machines_live σ' this
     ∧ user_heap σ' = user_heap σ
     ∧ _lastUserId σ' = _lastUserId σ
     ∧ _lastMachineId σ' = _lastMachineId σ
     ∧ calls σ' = calls σ)
  ∧ (∀ k p, GetMachine k this = Some p → machine_heap σ !! p = None →
            Update diff this σ = None).
Proof.
  unfold GetMachine. split.
  - intros Hlive.
    destruct (update_machines_run diff _ σ Hlive)
      as (σ' & Hrun & Hheap & Hrest).
    exists σ'. split; [exact Hrun|]. split; [exact Hheap|].
    split; [|split; [|split; [|exact Hrest]]].
    + intros p Hp. rewrite Hheap, count_absent.
      * simpl. by destruct (machine_heap σ !! p).
      * intros [k Hk]%registered_pointers. by apply (Hp k).
    + intros Hnd k p m Hk Hm. rewrite Hheap, count_NoDup, Hm; [done..|].
      apply registered_pointers. eauto.
    + apply machines_live_spec. intros k p Hk.
      destruct (proj1 (machines_live_spec _ _) Hlive k p Hk) as [m Hm].
      rewrite Hheap, Hm. eauto.
  - intros k p Hk Hdead. apply update_machines_dangling with p; [|done].
    apply registered_pointers. eauto.
Qed.

End Tick.

End FurtherProperties.

(** * The manager on concrete inputs *)

#[local] Existing Instance sample.

Lemma sample_accept_holds job (m : SampleMachine) :
  (sample_machine_add_job job m).1 = true →
  job ∈ (sm_jobs (sample_machine_add_job job m).2).*2.
Proof.
  unfold sample_machine_add_job. case_bool_decide; [|done]. intros _. simpl.
  rewrite fmap_app. apply elem_of_app. right. by left.
Qed.

Lemma sample_reject_keeps job (m : SampleMachine) :
  (sample_machine_add_job job m).1 = false →
  sm_jobs (sample_machine_add_job job m).2 = sm_jobs m.
Proof. unfold sample_machine_add_job. by case_bool_decide. Qed.

(** Ranking determinism on the example of the specification: M1 (score
    10), M2 (score 10) and M3 (score 5) are registered in that order and all
    reject; the job is offered to M1, then M2, then M3. *)
Example ranking_M1_M2_M3 :
  (calls <$> (snd <$>
     ('(_, gm) ← AddMachines [1; 2; 3]%positive empty_manager;
      AddJob (Some 9%positive) gm) three_machines))
  = Some [CallMachineAddJob 1 9; CallMachineAddJob 2 9;
          CallMachineAddJob 3 9]%positive.
Proof. vm_compute. reflexivity. Qed.

(** First-acceptor commit: M1 rejects, M2 accepts, M3 is not offered. *)
Example first_acceptor_M2 :
  (λ r, (r.1, calls r.2)) <$> AddJob (Some 9%positive) grid grid_process
  = Some (true, [CallMachineAddJob 1 9; CallMachineAddJob 2 9]%positive).
Proof. vm_compute. reflexivity. Qed.

Lemma AddJob_offers_in_ranked_order_witness :
  machines_live grid_process grid
  ∧ ∃ (ranked : list (Z * ptr)) (offered : list ptr) r σ',
      AddJob (Some 9%positive) grid grid_process = Some (r, σ')
      ∧ ranked.*2 = [1; 2; 3]%positive
      ∧ r = true
      ∧ offered = [1; 2]%positive
      ∧ calls σ' = [CallMachineAddJob 1 9; CallMachineAddJob 2 9]%positive
      ∧ accepts 9%positive (machine_heap grid_process) 1%positive = false
      ∧ accepts 9%positive
          (after_offers 9%positive (machine_heap grid_process) [1%positive])
          2%positive = true.
Proof.
  split; [vm_compute; reflexivity|].
  destruct (AddJob_offers_in_ranked_order grid grid_process 9%positive)
    as (ranked & offered & r & σ' & Hrun & _ & _ & _ & Hcalls & _ & _ & Hacc
        & _ & _ & Hthree); [vm_compute; reflexivity|].
  pose proof (eq_trans (eq_sym first_acceptor_M2)
                (f_equal (fmap (λ x : bool * Process, (x.1, calls x.2))) Hrun))
    as Hfirst.
  injection Hfirst as Hr Hc. symmetry in Hr, Hc.
  assert (offered = [1; 2]%positive) as Hoffered.
  { rewrite Hc in Hcalls. change (calls grid_process) with (@nil Call) in Hcalls.
    rewrite app_nil_l in Hcalls. unfold offers in Hcalls.
    destruct offered as [|a [|b [|c l]]]; simplify_eq/=; done. }
  exists ranked, offered, r, σ'. split; [exact Hrun|].
  split.
  { apply (Hthree 1 2 3 1%positive 2%positive 3%positive);
      [|lia|vm_compute; reflexivity..].
    unfold grid, sample_manager. cbn [_machines].
    apply map_to_list_to_map. compute_done. }
  split; [exact Hr|]. split; [exact Hoffered|]. split; [exact Hc|].
  subst offered. split.
  - destruct (accepts 9%positive (machine_heap grid_process) 1%positive)
      eqn:Hone; [|done].
    apply (Hacc [] 1%positive) in Hone as [_ Heq]; [done|].
    apply prefix_cons, prefix_nil.
  - apply (Hacc [1%positive] 2%positive); done.
Defined.

Lemma AddJob_commits_to_first_acceptor_witness :
  let ranked :=
    list_sort (better (machine_heap grid_process)) (map_items (_machines grid)).*2
  in
  ∃ r σ',
    AddJob (Some 9%positive) grid grid_process = Some (r, σ')
    ∧ ((∃ q, q ∈ ranked ∧ accepts 9%positive (machine_heap grid_process) q = true) →
         r = true
         ∧ ∃ pre p post,
             ranked = pre ++ p :: post
             ∧ (∀ q, q ∈ pre →
                  accepts 9%positive (machine_heap grid_process) q = false)
             ∧ accepts 9%positive (machine_heap grid_process) p = true
             ∧ calls σ' = calls grid_process ++ offers 9%positive (pre ++ [p])
             ∧ (∀ q, q ∈ post →
                  machine_heap σ' !! q = machine_heap grid_process !! q)
             ∧ (∀ q, q ∈ ranked →
                  holds 9%positive (machine_heap σ') q ↔ q = p))
    ∧ ((∀ q, q ∈ ranked →
          accepts 9%positive (machine_heap grid_process) q = false) →
         r = false
         ∧ calls σ' = calls grid_process ++ offers 9%positive ranked
         ∧ (∀ q, q ∈ ranked → ¬ holds 9%positive (machine_heap σ') q)).
Proof.
  apply (AddJob_commits_to_first_acceptor grid grid_process 9%positive).
  - vm_compute. reflexivity.
  - compute_done.
  - apply sample_accept_holds.
  - apply sample_reject_keeps.
  - intros q Hq [m [Hm Hj]].
    replace (map_items (_machines grid)).*2 with [1; 2; 3]%positive in Hq
      by (vm_compute; reflexivity).
    repeat (apply elem_of_cons in Hq as [->|Hq]);
      [..|by apply elem_of_nil in Hq];
      vm_compute in Hm; injection Hm as <-; by apply elem_of_nil in Hj.
Defined.

(** Authorization gating: a user without budget is denied; the job is
    offered to no machine and [CreatedJob] is not called. *)
Example unauthorized_user_is_not_scheduled :
  (λ r, (r.1, calls r.2, machine_heap r.2))
    <$> AddJobByUser (Some 3%positive) (Some 9%positive) grid grid_process
  = Some (false, [CallCanCreateJob 3 9]%positive, machine_heap grid_process).
Proof. vm_compute. reflexivity. Qed.

(** An authorized submission: the check, the offers, the notification. *)
Example authorized_user_is_charged :
  (λ r, (r.1, calls r.2, user_heap r.2 !! 1%positive))
    <$> AddJobByUser (Some 1%positive) (Some 9%positive) grid grid_process
  = Some (true,
          [CallCanCreateJob 1 9; CallMachineAddJob 1 9; CallMachineAddJob 2 9;
           CallCreatedJob 1 9]%positive,
          Some (sample_user 1 1)).
Proof. vm_compute. reflexivity. Qed.

Lemma AddJobByUser_is_gated_witness :
  user_heap grid_process !! 3%positive = Some (sample_user 0 0)
  ∧ AddJobByUser (Some 3%positive) (Some 9%positive) grid grid_process
    = Some (false, log_call (CallCanCreateJob 3 9)%positive grid_process)
  ∧ user_heap grid_process !! 1%positive = Some (sample_user 1 2)
  ∧ machines_live grid_process grid
  ∧ ∃ r σ1 σ' offered,
      AddJob (Some 9%positive) grid
        (log_call (CallCanCreateJob 1 9)%positive grid_process)
      = Some (r, σ1)
      ∧ AddJobByUser (Some 1%positive) (Some 9%positive) grid grid_process
        = Some (r, σ')
      ∧ calls σ'
        = calls grid_process ++ [CallCanCreateJob 1 9]%positive
          ++ offers 9%positive offered
          ++ (if r then [CallCreatedJob 1 9]%positive else []).
Proof.
  split; [vm_compute; reflexivity|]. split.
  { apply (proj1 (proj2 (proj2 (AddJobByUser_is_gated grid grid_process)))
             3%positive (sample_user 0 0) 9%positive);
      vm_compute; reflexivity. }
  split; [vm_compute; reflexivity|]. split; [vm_compute; reflexivity|].
  destruct (proj2 (proj2 (proj2 (AddJobByUser_is_gated grid grid_process)))
              1%positive (sample_user 1 2) 9%positive)
    as (r & σ1 & σ' & offered & Hjob & Hrun & _ & _ & Hcalls & _).
  - vm_compute. reflexivity.
  - vm_compute. reflexivity.
  - vm_compute. reflexivity.
  - by exists r, σ1, σ', offered.
Defined.

Lemma sample_user_codec (u : SampleUser) :
  is_uint (su_id u) → is_uint (su_budget u) → user_codec_ok u.
Proof.
  intros Hi Hb rest. exists u. split; [|done].
  change (sample_user_load
            ((uint32_bytes (su_id u) ++ uint32_bytes (su_budget u)) ++ rest)
          = Some (u, rest)).
  unfold sample_user_load.
  rewrite <- app_assoc, ReadUInt32_uint32_bytes by done.
  rewrite ReadUInt32_uint32_bytes by done. by destruct u.
Qed.

Lemma sample_machine_codec (m : SampleMachine) :
  is_uint (sm_id m) → is_uint (sm_maxJobs m) →
  is_uint (sm_disk m) → is_uint (sm_ram m) → machine_codec_ok m.
Proof.
  intros Hi Hj Hd Hr rest.
  exists (sample_machine (sm_id m) (sm_maxJobs m) (sm_disk m) (sm_ram m)).
  split; [|done].
  change (sample_machine_load
            ((uint32_bytes (sm_id m) ++ uint32_bytes (sm_maxJobs m)
              ++ uint32_bytes (sm_disk m) ++ uint32_bytes (sm_ram m)) ++ rest)
          = Some (sample_machine (sm_id m) (sm_maxJobs m) (sm_disk m) (sm_ram m),
                  rest)).
  unfold sample_machine_load.
  rewrite <- !app_assoc, ReadUInt32_uint32_bytes by done.
  rewrite ReadUInt32_uint32_bytes by done.
  rewrite ReadUInt32_uint32_bytes by done.
  by rewrite ReadUInt32_uint32_bytes by done.
Qed.

Lemma small_is_uint z : 0 ≤ z ≤ 1000 → is_uint z.
Proof. unfold is_uint, UINT_MAX. lia. Qed.

Lemma grid_well_formed : well_formed grid_process grid.
Proof.
  unfold well_formed.
  replace (map_items (_users grid)) with [(1, 1%positive)]
    by (vm_compute; reflexivity).
  replace (map_items (_machines grid))
    with [(1, 1%positive); (2, 2%positive); (3, 3%positive)]
    by (vm_compute; reflexivity).
  split; [|split; [|split; apply small_is_uint; simpl; lia]].
  - apply Forall_singleton. exists (sample_user 1 2).
    split; [vm_compute; reflexivity|]. split; [done|].
    split; [unfold UINT_MAX; simpl; lia|].
    apply sample_user_codec; apply small_is_uint; simpl; lia.
  - repeat apply Forall_cons_2; [| | |apply Forall_nil_2].
    + exists (sample_machine 1 0 4 6).
      split; [vm_compute; reflexivity|]. split; [done|].
      split; [unfold UINT_MAX; simpl; lia|].
      apply sample_machine_codec; apply small_is_uint; simpl; lia.
    + exists (sample_machine 2 1 4 5).
      split; [vm_compute; reflexivity|]. split; [done|].
      split; [unfold UINT_MAX; simpl; lia|].
      apply sample_machine_codec; apply small_is_uint; simpl; lia.
    + exists (sample_machine 3 1 2 2).
      split; [vm_compute; reflexivity|]. split; [done|].
      split; [unfold UINT_MAX; simpl; lia|].
      apply sample_machine_codec; apply small_is_uint; simpl; lia.
Qed.

(** Reconstruction on an example: the bytes that [Save] writes, and the
    ids and counters after [Load] of these bytes in a process whose counters
    had other values. *)
Example snapshot_of_grid :
  fst <$> Save [] grid grid_process
  = Some (true,
          [1; 0; 0; 0] ++ [3; 0; 0; 0]
          ++ [1; 0; 0; 0] ++ ([1; 0; 0; 0] ++ [2; 0; 0; 0])
          ++ [3; 0; 0; 0]
          ++ ([1; 0; 0; 0] ++ [0; 0; 0; 0] ++ [4; 0; 0; 0] ++ [6; 0; 0; 0])
          ++ ([2; 0; 0; 0] ++ [1; 0; 0; 0] ++ [4; 0; 0; 0] ++ [5; 0; 0; 0])
          ++ ([3; 0; 0; 0] ++ [1; 0; 0; 0] ++ [2; 0; 0; 0] ++ [2; 0; 0; 0])).
Proof. vm_compute. reflexivity. Qed.

Example reload_of_grid :
  (λ r, ((map_items (_users r.1.1)).*1, (map_items (_machines r.1.1)).*1,
         _lastUserId r.2, _lastMachineId r.2))
    <$> (match Save [] grid grid_process with
         | Some ((_, bb), _) => Load bb late_process
         | None => None
         end)
  = Some ([1], [1; 2; 3], 1, 3).
Proof. vm_compute. reflexivity. Qed.

Lemma Load_Save_fidelity_witness :
  well_formed grid_process grid
  ∧ ∃ bb us ms gm' σ',
      Save [] grid grid_process = Some ((true, bb), grid_process)
      ∧ Forall2 (λ kp u, user_heap grid_process !! kp.2 = Some u)
          (map_items (_users grid)) us
      ∧ Forall2 (λ kp m, machine_heap grid_process !! kp.2 = Some m)
          (map_items (_machines grid)) ms
      ∧ bb = uint32_bytes (_lastUserId grid_process)
             ++ uint32_bytes (_lastMachineId grid_process)
             ++ uint32_bytes (Z.of_nat (size (_users grid)))
             ++ mjoin (User_Save <$> us)
             ++ uint32_bytes (Z.of_nat (size (_machines grid)))
             ++ mjoin (Machine_Save <$> ms)
      ∧ Load (bb ++ []) late_process = Some ((gm', []), σ')
      ∧ dom (_users gm') = dom (_users grid)
      ∧ dom (_machines gm') = dom (_machines grid)
      ∧ _lastUserId σ' = _lastUserId grid_process
      ∧ _lastMachineId σ' = _lastMachineId grid_process
      ∧ size (_users gm') = size (_users grid)
      ∧ size (_machines gm') = size (_machines grid).
Proof.
  split; [exact grid_well_formed|].
  apply (Load_Save_fidelity grid grid_process late_process []).
  exact grid_well_formed.
Defined.

(** C5 fails as stated: a user that carries the id 7 is registered with an
    empty manager while the counter is 0; the counters were ahead of the
    ids before the call and the user counter is behind the id 7 after it. *)
Lemma preset_id_above_counter_counterexample :
  counters_bound restored_user_process empty_manager
  ∧ run_op (OpAddUser (Some 1%positive)) empty_manager restored_user_process
    = Some (sample_manager [(7, 1%positive)] [], restored_user_process)
  ∧ ¬ counters_bound restored_user_process
        (sample_manager [(7, 1%positive)] []).
Proof.
  split; [|split].
  - split; intros k Hk; simpl in Hk; rewrite dom_empty_L in Hk;
      by apply elem_of_empty in Hk.
  - reflexivity.
  - intros [Hu _]. specialize (Hu 7).
    assert (7 ∈ dom (_users (sample_manager [(7, 1%positive)] []))) as Hk
      by compute_done.
    specialize (Hu Hk). simpl in Hu. lia.
Qed.

Lemma counters_bound_items `{Collaborators} (σ : Process) this :
  Forall (λ kp, kp.1 ≤ _lastUserId σ) (map_items (_users this)) →
  Forall (λ kp, kp.1 ≤ _lastMachineId σ) (map_items (_machines this)) →
  counters_bound σ this.
Proof.
  intros Hu Hm. split; intros k Hk; apply elem_of_dom in Hk as [p Hp];
    apply elem_of_map_items in Hp.
  - by apply (proj1 (Forall_forall _ _) Hu (k, p)).
  - by apply (proj1 (Forall_forall _ _) Hm (k, p)).
Qed.

Lemma grid_counters_bound : counters_bound grid_process grid.
Proof. apply counters_bound_items; compute_done. Qed.

Lemma counters_stay_ahead_witness :
  0 ≤ _lastUserId grid_process
  ∧ 0 ≤ _lastMachineId grid_process
  ∧ counters_bound grid_process grid
  ∧ keeps_counters_ahead grid_process (OpAddUser (Some 2%positive))
  ∧ ∃ this' σ',
      run_op (OpAddUser (Some 2%positive)) grid grid_process = Some (this', σ')
      ∧ counters_bound σ' this'
      ∧ 0 ≤ _lastUserId σ' ∧ 0 ≤ _lastMachineId σ'.
Proof.
  assert (keeps_counters_ahead grid_process (OpAddUser (Some 2%positive)))
    as Hop.
  { intros u Hu. vm_compute in Hu. injection Hu as <-. simpl.
    unfold UINT_MAX. lia. }
  split; [simpl; lia|]. split; [simpl; lia|].
  split; [exact grid_counters_bound|]. split; [exact Hop|].
  eexists _, _. split; [reflexivity|].
  apply (counters_stay_ahead (OpAddUser (Some 2%positive)) grid grid_process).
  - simpl. lia.
  - simpl. lia.
  - exact grid_counters_bound.
  - exact Hop.
  - reflexivity.
Defined.

(** The same after [Load] of the snapshot of the grid in a process whose
    counters were elsewhere. *)
Example counters_after_reload :
  match Save [] grid grid_process with
  | Some ((_, bb), _) =>
      match run_op (OpLoad bb) empty_manager late_process with
      | Some (gm, σ) => counters_bound σ gm
      | None => False
      end
  | None => False
  end.
Proof.
  destruct (Load_Save_roundtrip grid grid_process late_process []
              grid_well_formed)
    as (us & ms & gm' & σ' & _ & _ & Hsave & Hload & Hdu & Hdm & Hlu & Hlm & _).
  rewrite Hsave. rewrite app_nil_r in Hload.
  unfold run_op. rewrite (bind_run _ _ _ _ _ Hload). cbn beta iota.
  unfold mret, M_ret. destruct grid_counters_bound as [Hu Hm].
  split; intros k Hk.
  - rewrite Hlu. apply Hu. by rewrite <- Hdu.
  - rewrite Hlm. apply Hm. by rewrite <- Hdm.
Qed.

(** C6 fails as stated: the query for another kind with a predicate that
    holds of everything returns the empty result and leaves the process as it
    was, which is what a query over the users returns when none matches. *)
Lemma ApplyPredicate_other_kind_counterexample :
  ApplyPredicate KindOther (λ _, mret true) grid grid_process
  = Some ([], grid_process)
  ∧ ApplyPredicate KindUser (λ _, mret false) grid grid_process
    = Some ([], grid_process)
  ∧ ApplyPredicate KindUser (λ _, mret true) grid grid_process
    = Some ([1%positive], grid_process).
Proof. split; [|split]; reflexivity. Qed.

Lemma Add_preset_id_overwrites_witness :
  GetUser 1 clash_manager = Some 1%positive
  ∧ GetMachine 1 clash_manager = Some 1%positive
  ∧ user_heap clash_process !! 2%positive = Some (sample_user 1 9)
  ∧ machine_heap clash_process !! 2%positive = Some (sample_machine 1 2 2 2)
  ∧ (∃ this',
        AddUser (Some 2%positive) clash_manager clash_process
        = Some ((1, this'), clash_process)
        ∧ GetUser 1 this' = Some 2%positive
        ∧ (∀ k, k ≠ 1 → GetUser k this' = GetUser k clash_manager)
        ∧ _machines this' = _machines clash_manager)
  ∧ (∃ this',
        AddMachine (Some 2%positive) clash_manager clash_process
        = Some ((1, this'), clash_process)
        ∧ GetMachine 1 this' = Some 2%positive
        ∧ (∀ k, k ≠ 1 → GetMachine k this' = GetMachine k clash_manager)
        ∧ _users this' = _users clash_manager)
  ∧ AddUser None clash_manager clash_process
    = Some ((0, clash_manager), clash_process)
  ∧ AddMachine None clash_manager clash_process
    = Some ((0, clash_manager), clash_process).
Proof.
  split; [vm_compute; reflexivity|]. split; [vm_compute; reflexivity|].
  split; [vm_compute; reflexivity|]. split; [vm_compute; reflexivity|].
  apply (Add_preset_id_overwrites clash_manager clash_process
           2%positive (sample_user 1 9) 2%positive (sample_machine 1 2 2 2)).
  - vm_compute. reflexivity.
  - simpl. lia.
  - vm_compute. reflexivity.
  - simpl. lia.
Defined.

(** C8 fails as stated: with the counter at 4294967294, two registrations
    of zero-id users return 4294967295 and then, after the 32-bit counter
    wraps, 0: the ids are not increasing, and the second is the sentinel of
    a rejected registration. *)
Lemma fresh_ids_wrap_counterexample :
  NoDup [1; 2]%positive
  ∧ is_fresh_user late_process 1%positive
  ∧ is_fresh_user late_process 2%positive
  ∧ (fst ∘ fst) <$> AddUsers [1; 2]%positive empty_manager late_process
    = Some [4294967295; 0]
  ∧ ¬ StronglySorted Z.lt [4294967295; 0]
  ∧ (fst ∘ fst) <$> AddUser None empty_manager late_process = Some 0.
Proof.
  split; [compute_done|].
  split; [exists (sample_user 0 5); split; [vm_compute|]; reflexivity|].
  split; [exists (sample_user 0 3); split; [vm_compute|]; reflexivity|].
  split; [vm_compute; reflexivity|].
  split; [|reflexivity].
  intros Hs. apply StronglySorted_inv in Hs as [_ Hs].
  apply Forall_cons in Hs as [Hs _]. lia.
Qed.

(** The ids of two registrations on the grid: 2 and 3, after the id 1. *)
Example fresh_ids_on_grid :
  (fst ∘ fst) <$> AddUsers [2; 3]%positive grid grid_process = Some [2; 3].
Proof. vm_compute. reflexivity. Qed.

Lemma grid_fresh_user_adds :
  ∃ σ', fresh_user_adds grid_process [2; 3] σ'.
Proof.
  eexists.
  eapply fresh_user_adds_cons
    with (σ1 := grid_process) (this := grid) (p := 2%positive).
  - reflexivity.
  - exists (sample_user 0 4). split; [vm_compute|]; reflexivity.
  - etransitivity; [|reflexivity].
    apply AddUser_fresh with (u := sample_user 0 4); [vm_compute|]; reflexivity.
  - eapply fresh_user_adds_cons with (this := empty_manager) (p := 3%positive).
    + reflexivity.
    + exists (sample_user 0 0). split; [vm_compute|]; reflexivity.
    + etransitivity; [|reflexivity].
      apply AddUser_fresh with (u := sample_user 0 0);
        [vm_compute|]; reflexivity.
    + apply fresh_user_adds_nil.
Qed.

Lemma fresh_ids_strictly_increase_witness :
  (∃ σ', fresh_user_adds grid_process [2; 3] σ')
  ∧ 0 ≤ _lastUserId grid_process
  ∧ _lastUserId grid_process + Z.of_nat (length [2; 3]) ≤ UINT_MAX
  ∧ StronglySorted Z.lt [2; 3] ∧ NoDup [2; 3]
  ∧ Forall (λ id, _lastUserId grid_process < id) [2; 3]
  ∧ [2; 3] = seqZ (_lastUserId grid_process + 1) (Z.of_nat (length [2; 3])).
Proof.
  destruct grid_fresh_user_adds as [σ' Hrun].
  split; [by exists σ'|]. split; [simpl; lia|].
  split; [unfold UINT_MAX; simpl; lia|].
  destruct (proj1 (proj2 fresh_ids_strictly_increase)
              grid_process [2; 3] σ' Hrun)
    as (Hsorted & Hnd & Habove & Hids & _).
  - simpl. lia.
  - unfold UINT_MAX. simpl. lia.
  - done.
Defined.

Lemma Remove_twice_then_Get_absent_witness :
  GetUser 1 grid = Some 1%positive
  ∧ GetMachine 2 grid = Some 2%positive
  ∧ (∃ this1 σ1,
        RemoveUser 1 grid grid_process = Some ((true, this1), σ1)
        ∧ GetUser 1 this1 = None
        ∧ user_heap σ1 !! 1%positive = None
        ∧ (∀ k, k ≠ 1 → GetUser k this1 = GetUser k grid)
        ∧ RemoveUser 1 this1 σ1 = Some ((false, this1), σ1))
  ∧ (∃ this1 σ1,
        RemoveMachine 2 grid grid_process = Some ((true, this1), σ1)
        ∧ GetMachine 2 this1 = None
        ∧ machine_heap σ1 !! 2%positive = None
        ∧ (∀ k, k ≠ 2 → GetMachine k this1 = GetMachine k grid)
        ∧ RemoveMachine 2 this1 σ1 = Some ((false, this1), σ1))
  ∧ (∀ gm k, k ∉ dom (_users gm) → GetUser k gm = None)
  ∧ (∀ gm k, k ∉ dom (_machines gm) → GetMachine k gm = None).
Proof.
  split; [vm_compute; reflexivity|]. split; [vm_compute; reflexivity|].
  apply (Remove_twice_then_Get_absent grid grid_process
           1 1%positive (sample_user 1 2) 2 2%positive (sample_machine 2 1 4 5));
    vm_compute; reflexivity.
Defined.

(** Two managers, one counter: the grid registers a user under 2, an empty
    manager then registers one under 3. *)
Example two_managers_one_counter :
  (fst ∘ fst) <$>
    ('(_, _) ← AddUser (Some 2%positive) grid;
     AddUser (Some 3%positive) empty_manager) grid_process
  = Some 3.
Proof. vm_compute. reflexivity. Qed.

Lemma counters_are_process_wide_witness :
  well_formed grid_process grid
  ∧ (∃ n gm1' σ1 gm2' σ2,
        AddUser (Some 2%positive) grid grid_process = Some ((n, gm1'), σ1)
        ∧ n = wrap32 (_lastUserId grid_process + 1)
        ∧ AddUser (Some 3%positive) empty_manager σ1
          = Some ((wrap32 (n + 1), gm2'), σ2)
        ∧ (n < UINT_MAX → wrap32 (n + 1) = n + 1))
  ∧ (∃ bb gm' σ' gm1' σ1,
        Save [] grid grid_process = Some ((true, bb), grid_process)
        ∧ Load (bb ++ []) late_process = Some ((gm', []), σ')
        ∧ _lastUserId σ' = _lastUserId grid_process
        ∧ _lastMachineId σ' = _lastMachineId grid_process
        ∧ AddUser (Some 1%positive) empty_manager σ'
          = Some ((wrap32 (_lastUserId grid_process + 1), gm1'), σ1)).
Proof.
  split; [exact grid_well_formed|]. split.
  - apply (counters_are_process_wide grid empty_manager grid
             grid_process grid_process 2%positive 3%positive
             (sample_user 0 4) (sample_user 0 0) []);
      [done|vm_compute; reflexivity|reflexivity|vm_compute; reflexivity
      |reflexivity|exact grid_well_formed].
  - apply (counters_are_process_wide empty_manager empty_manager grid
             late_process grid_process 1%positive 2%positive
             (sample_user 0 5) (sample_user 0 3) []);
      [done|vm_compute; reflexivity|reflexivity|vm_compute; reflexivity
      |reflexivity|exact grid_well_formed].
Defined.

(** ** The rest of the manager on the grid *)

Lemma grid_users k p : GetUser k grid = Some p → p = 1%positive.
Proof.
  unfold GetUser, grid, sample_manager. cbn [_users].
  intros Hk. apply elem_of_list_to_map_2 in Hk.
  apply list_elem_of_singleton in Hk. congruence.
Qed.

Lemma grid_machines k p : GetMachine k grid = Some p → (p ≤ 3)%positive.
Proof.
  unfold GetMachine, grid, sample_manager. cbn [_machines].
  intros Hk. apply elem_of_list_to_map_2 in Hk.
  repeat (apply elem_of_cons in Hk as [[= -> ->]|Hk]; [lia|]).
  by apply elem_of_nil in Hk.
Qed.

Lemma empty_well_formed : well_formed grid_process empty_manager.
Proof.
  unfold well_formed.
  replace (map_items (_users empty_manager)) with (@nil (Z * ptr))
    by (vm_compute; reflexivity).
  replace (map_items (_machines empty_manager)) with (@nil (Z * ptr))
    by (vm_compute; reflexivity).
  split; [apply Forall_nil_2|]. split; [apply Forall_nil_2|].
  split; apply small_is_uint; simpl; lia.
Qed.

(** The jobs of the busy grid at the address 8. *)
Example even_jobs_of_busy_grid :
  fst <$> ApplyPredicate KindJob
            (read_only (λ _ j, bool_decide (j = 8%positive))) grid busy_process
  = Some [8%positive].
Proof. vm_compute. reflexivity. Qed.

(** The users of the grid with a budget above 1. *)
Example rich_users_of_grid :
  fst <$> ApplyPredicate KindUser
            (read_only (λ σ p, from_option (λ u, bool_decide (1 < su_budget u))
                                 false (user_heap σ !! p)))
            grid grid_process
  = Some [1%positive].
Proof. vm_compute. reflexivity. Qed.

Lemma ApplyPredicate_Job_matches_witness :
  machines_live busy_process grid
  ∧ ∃ result,
      ApplyPredicate KindJob (read_only (λ _ _, true)) grid busy_process
      = Some (result, busy_process)
      ∧ result = [9; 8]%positive
      ∧ NoDup result.
Proof.
  split; [vm_compute; reflexivity|].
  destruct (ApplyPredicate_Job_matches (λ _ _, true) grid busy_process)
    as (result & Hrun & Hres & _ & Hnd); [vm_compute; reflexivity|].
  exists result. split; [exact Hrun|].
  split; [rewrite Hres; vm_compute; reflexivity|].
  apply Hnd.
  replace ((map_items (_machines grid)).*2 ≫= jobs_at (machine_heap busy_process))
    with [9; 8]%positive by (vm_compute; reflexivity).
  compute_done.
Defined.

Lemma Remove_by_pointer_is_Remove_by_id_witness :
  RemoveUser_by_pointer (Some 2%positive) grid grid_process
  = Some ((false, grid), grid_process)
  ∧ RemoveMachine_by_pointer (Some 4%positive) grid grid_process
    = Some ((false, grid), grid_process)
  ∧ RemoveUser_by_pointer (Some 1%positive) grid grid_process
    = RemoveUser 1 grid grid_process
  ∧ RemoveMachine_by_pointer (Some 2%positive) grid grid_process
    = RemoveMachine 2 grid grid_process.
Proof.
  destruct (Remove_by_pointer_is_Remove_by_id grid grid_process)
    as (_ & _ & Hu & Hm & Hku & Hkm).
  split; [apply Hu; by intros k Hk%grid_users|].
  split; [apply Hm; intros k Hk%grid_machines; lia|].
  split.
  - apply Hku; [vm_compute; reflexivity|]. intros k' Hlt Hk'.
    unfold GetUser, grid, sample_manager in Hk'. cbn [_users] in Hk'.
    apply elem_of_list_to_map_2, list_elem_of_singleton in Hk'.
    injection Hk' as ->. lia.
  - apply Hkm; [vm_compute; reflexivity|]. intros k' Hlt Hk'.
    unfold GetMachine, grid, sample_manager in Hk'. cbn [_machines] in Hk'.
    apply elem_of_list_to_map_2 in Hk'.
    repeat (apply elem_of_cons in Hk' as [Heq|Hk']; [simplify_eq; lia|]).
    by apply elem_of_nil in Hk'.
Defined.

Lemma removal_leaves_other_manager_dangling_witness :
  (∃ gm1' σ',
      RemoveUser 5 sharing_manager shared_process = Some ((true, gm1'), σ')
      ∧ user_heap σ' !! 1%positive = None
      ∧ RemoveUser 5 sharing_manager σ' = None
      ∧ RemoveUser_by_pointer (Some 1%positive) sharing_manager σ' = None)
  ∧ (∃ gm1' σ',
      RemoveMachine 5 sharing_manager shared_process = Some ((true, gm1'), σ')
      ∧ machine_heap σ' !! 1%positive = None
      ∧ RemoveMachine 5 sharing_manager σ' = None
      ∧ ∀ job, AddJob (Some job) sharing_manager σ' = None).
Proof.
  apply (removal_leaves_other_manager_dangling sharing_manager sharing_manager
           shared_process 5 5 1%positive (sample_user 5 1)
           1%positive (sample_machine 5 1 1 1));
    vm_compute; reflexivity.
Defined.

Lemma destructor_deletes_the_registered_witness :
  ∃ σ',
    GridManager_destructor grid grid_process = Some ((), σ')
    ∧ user_heap σ' !! 1%positive = None
    ∧ machine_heap σ' !! 3%positive = None
    ∧ user_heap σ' !! 2%positive = Some (sample_user 0 4)
    ∧ machine_heap σ' !! 4%positive = Some (sample_machine 0 2 1 1)
    ∧ _lastUserId σ' = 1 ∧ _lastMachineId σ' = 3.
Proof.
  destruct (destructor_deletes_the_registered grid grid_process)
    as [Hdef Heff].
  destruct (proj2 Hdef) as [[[] σ'] Hrun].
  { destruct (well_formed_live _ _ grid_well_formed) as [Hul Hml].
    split; [exact Hul|]. split; [exact Hml|]. split; compute_done. }
  destruct (Heff σ' Hrun) as (Hu & Hm & Huout & Hmout & Hlu & Hlm & _).
  exists σ'. split; [exact Hrun|].
  split; [apply (Hu 1); vm_compute; reflexivity|].
  split; [apply (Hm 3); vm_compute; reflexivity|].
  split; [rewrite Huout; [vm_compute; reflexivity|]|].
  { intros k Hk%grid_users. done. }
  split; [rewrite Hmout; [vm_compute; reflexivity|]|].
  { intros k Hk%grid_machines. lia. }
  by rewrite Hlu, Hlm.
Defined.

(** A tick of 100 on the grid: the free memory of the three registered
    machines grows by 100, that of the fourth machine does not. *)
Example tick_of_grid :
  (λ r, (λ p, sm_ram <$> machine_heap r.2 !! p) <$> [1; 2; 3; 4]%positive)
    <$> @Update sample sample_tick 100 grid grid_process
  = Some [Some 106; Some 105; Some 102; Some 1].
Proof. vm_compute. reflexivity. Qed.

Lemma Update_ticks_each_registration_witness :
  machines_live grid_process grid
  ∧ ∃ σ',
      @Update sample sample_tick 100 grid grid_process = Some ((), σ')
      ∧ machine_heap σ' !! 2%positive
        = Some (sample_tick 100 (sample_machine 2 1 4 5))
      ∧ machine_heap σ' !! 4%positive = Some (sample_machine 0 2 1 1)
      ∧ machines_live σ' grid.
Proof.
  split; [vm_compute; reflexivity|].
  destruct (proj1 (@Update_ticks_each_registration sample sample_tick
                     100 grid grid_process))
    as (σ' & Hrun & _ & Hout & Hnd & Hlive & _); [vm_compute; reflexivity|].
  exists σ'. split; [exact Hrun|].
  split; [apply (Hnd ltac:(compute_done) 2); vm_compute; reflexivity|].
  split; [|exact Hlive].
  rewrite Hout; [vm_compute; reflexivity|].
  intros k Hk%grid_machines. lia.
Defined.

Lemma Save_appends_witness :
  (∃ s, ∀ bb0, Save bb0 grid grid_process
               = Some ((true, bb0 ++ s), grid_process))
  ∧ Save [] grid three_machines = None.
Proof.
  destruct (Save_appends grid grid_process) as (Hlive & _).
  destruct (Save_appends grid three_machines) as (_ & Hdead & _).
  destruct (well_formed_live _ _ grid_well_formed) as [Hul Hml].
  split; [by apply Hlive|].
  apply (Hdead [] 1 1%positive); vm_compute; reflexivity.
Defined.

Lemma two_snapshots_in_one_buffer_witness :
  well_formed grid_process grid
  ∧ well_formed grid_process empty_manager
  ∧ ∃ bb1 bb2 gm1' gm2' σ3 σ4,
      Save [] grid grid_process = Some ((true, bb1), grid_process)
      ∧ Save bb1 empty_manager grid_process
        = Some ((true, bb1 ++ bb2), grid_process)
      ∧ Load (bb1 ++ bb2 ++ [7]) late_process = Some ((gm1', bb2 ++ [7]), σ3)
      ∧ Load (bb2 ++ [7]) σ3 = Some ((gm2', [7]), σ4)
      ∧ dom (_users gm1') = dom (_users grid)
      ∧ dom (_machines gm1') = dom (_machines grid)
      ∧ dom (_users gm2') = dom (_users empty_manager)
      ∧ dom (_machines gm2') = dom (_machines empty_manager)
      ∧ _lastUserId σ4 = _lastUserId grid_process
      ∧ _lastMachineId σ4 = _lastMachineId grid_process.
Proof.
  split; [exact grid_well_formed|]. split; [exact empty_well_formed|].
  apply (two_snapshots_in_one_buffer grid empty_manager grid_process
           late_process [7]).
  - exact grid_well_formed.
  - exact empty_well_formed.
Defined.

Lemma Load_registers_only_new_objects_witness :
  ∃ bb gm' σ',
    Save [] grid grid_process = Some ((true, bb), grid_process)
    ∧ Load (bb ++ []) grid_process = Some ((gm', []), σ')
    ∧ (∀ q v, user_heap grid_process !! q = Some v →
              user_heap σ' !! q = Some v)
    ∧ (∀ k p, GetMachine k gm' = Some p →
              machine_heap grid_process !! p = None
              ∧ is_Some (machine_heap σ' !! p))
    ∧ ∃ σ'', GridManager_destructor gm' σ' = Some ((), σ'')
             ∧ (∀ q v, machine_heap grid_process !! q = Some v →
                       machine_heap σ'' !! q = Some v).
Proof.
  destruct (Load_Save_roundtrip grid grid_process grid_process []
              grid_well_formed)
    as (us & ms & gm' & σ' & _ & _ & Hsave & Hload & _).
  destruct (Load_registers_only_new_objects _ _ _ _ _ Hload)
    as (Hu & _ & _ & _ & Hm & _ & _ & σ'' & Hdes & _ & Hkeep).
  eexists _, gm', σ'. split; [exact Hsave|]. split; [exact Hload|].
  split; [exact Hu|]. split; [exact Hm|]. by exists σ''.
Defined.

Lemma registration_is_idempotent_witness :
  user_heap grid_process !! 2%positive = Some (sample_user 0 4)
  ∧ machine_heap grid_process !! 4%positive = Some (sample_machine 0 2 1 1)
  ∧ (∃ gm1 σ1,
        AddUser (Some 2%positive) grid grid_process = Some ((2, gm1), σ1)
        ∧ AddUser (Some 2%positive) gm1 σ1 = Some ((2, gm1), σ1))
  ∧ (∃ gm1 σ1,
        AddMachine (Some 4%positive) grid grid_process = Some ((4, gm1), σ1)
        ∧ AddMachine (Some 4%positive) gm1 σ1 = Some ((4, gm1), σ1)).
Proof.
  split; [vm_compute; reflexivity|]. split; [vm_compute; reflexivity|].
  destruct (registration_is_idempotent grid grid_process) as [Hu Hm].
  pose proof (AddUser_fresh (H := sample) grid grid_process 2%positive
                (sample_user 0 4) eq_refl eq_refl) as Hadd.
  pose proof (AddMachine_fresh (H := sample) grid grid_process 4%positive
                (sample_machine 0 2 1 1) eq_refl eq_refl) as Hadm.
  split.
  - eexists _, _. split; [exact Hadd|].
    by apply (proj1 (Hu 2%positive (sample_user 0 4) 2 _ _ eq_refl Hadd
                       eq_refl)).
  - eexists _, _. split; [exact Hadm|].
    by apply (proj1 (Hm 4%positive (sample_machine 0 2 1 1) 4 _ _ eq_refl Hadm
                       eq_refl)).
Defined.

Lemma Add_then_Remove_restores_witness :
  user_heap grid_process !! 2%positive = Some (sample_user 0 4)
  ∧ ∃ gm1 σ1 σ2,
      AddUser (Some 2%positive) grid grid_process = Some ((2, gm1), σ1)
      ∧ RemoveUser 2 gm1 σ1 = Some ((true, grid), σ2)
      ∧ user_heap σ2 !! 2%positive = None
      ∧ _lastUserId σ2 = 2.
Proof.
  split; [vm_compute; reflexivity|].
  pose proof (AddUser_fresh (H := sample) grid grid_process 2%positive
                (sample_user 0 4) eq_refl eq_refl) as Hadd.
  destruct (proj1 (Add_then_Remove_restores grid grid_process)
              2%positive (sample_user 0 4) 2 _ _ eq_refl Hadd)
    as (gm2 & σ2 & Hrem & _ & _ & _ & Hsame & Hheap & _ & _ & Hid).
  rewrite (Hsame eq_refl) in Hrem.
  eexists _, _, σ2. split; [exact Hadd|]. split; [exact Hrem|].
  split; [rewrite Hheap; apply lookup_delete_eq|]. by apply Hid.
Defined.

Lemma AddJob_changes_only_registered_machines_witness :
  machines_live grid_process grid
  ∧ AddJob (Some 9%positive) empty_manager grid_process
    = Some (false, grid_process)
  ∧ ∃ r σ',
      AddJob (Some 9%positive) grid grid_process = Some (r, σ')
      ∧ user_heap σ' = user_heap grid_process
      ∧ machine_heap σ' !! 4%positive = Some (sample_machine 0 2 1 1)
      ∧ machines_live σ' grid
      ∧ (length (calls σ') ≤ 3)%nat.
Proof.
  split; [vm_compute; reflexivity|].
  destruct (AddJob_changes_only_registered_machines empty_manager grid_process)
    as (_ & Hempty & _).
  split; [by apply Hempty|].
  destruct (AddJob_changes_only_registered_machines grid grid_process)
    as (_ & _ & Hrun).
  destruct (Hrun 9%positive)
    as (r & σ' & Hadd & _ & _ & Huh & _ & Hout & Hlive & Hlen);
    [vm_compute; reflexivity|].
  exists r, σ'. split; [exact Hadd|]. split; [exact Huh|].
  split; [|split; [exact Hlive|exact Hlen]].
  rewrite Hout; [vm_compute; reflexivity|].
  intros k Hk%grid_machines. lia.
Defined.
